(** * Verification of the import and netting core of the trading dashboard

    The development embeds the pure parts of [frontend/src/App.tsx]
    (contract symbol codec, option-description grammar, CSV format
    detection and row extraction, strategy netting, the watch list, the
    validation of option legs, the portfolio reset) and the NAV snapshot
    write path, and proves properties of them.

    Modelling conventions.
    - JavaScript strings are [string]s of 8-bit characters.  Case mapping,
      [trim] and the regular-expression classes are the ASCII ones;
      characters above 127 are opaque (never white space, never letters).
    - JavaScript numbers are [number]: NaN, the two infinities, or a finite
      value carried as an exact rational.  Results beyond the binary64 range
      become an infinity or zero; rounding inside the range and negative
      zero are outside the model.
    - Regular expressions are values of [re], run by a backtracking matcher
      with the priority order of the JavaScript engine (greedy quantifiers,
      leftmost alternative first).
    - Effectful code threads an explicit application state that records
      every request handed to the HTTP client. *)

From Stdlib Require Import ZArith QArith Qabs Qround Lia Lqa Bool Ascii String List.
From stdpp Require Import gmap strings.
Import ListNotations.

Local Open Scope list_scope.
Local Open Scope string_scope.

(** String concatenation unfolds on a constructor, as list concatenation does. *)
Arguments String.append !s1 s2 : simpl nomatch.

(** ** JavaScript strings *)

Module JsString.

Definition code (c : ascii) : nat := nat_of_ascii c.

Definition between (lo hi : nat) (c : ascii) : bool :=
  (lo <=? code c)%nat && (code c <=? hi)%nat.

Definition is_digit (c : ascii) : bool := between 48 57 c.
Definition is_upper (c : ascii) : bool := between 65 90 c.
Definition is_lower (c : ascii) : bool := between 97 122 c.
Definition is_alpha (c : ascii) : bool := is_upper c || is_lower c.
Definition is_alnum (c : ascii) : bool := is_alpha c || is_digit c.

(** [\s]: tab, line feed, vertical tab, form feed, carriage return, space. *)
Definition is_space (c : ascii) : bool := between 9 13 c || (code c =? 32)%nat.

(** [\w]: letters, digits and underscore. *)
Definition is_word (c : ascii) : bool :=
  is_alpha c || is_digit c || (code c =? 95)%nat.

(** [.] without the [s] flag: anything but a line terminator. *)
Definition is_dot (c : ascii) : bool :=
  negb ((code c =? 10)%nat || (code c =? 13)%nat).

Definition upper_char (c : ascii) : ascii :=
  if is_lower c then ascii_of_nat (code c - 32) else c.

Definition lower_char (c : ascii) : ascii :=
  if is_upper c then ascii_of_nat (code c + 32) else c.

Fixpoint map_chars (f : ascii -> ascii) (s : string) : string :=
  match s with
  | EmptyString => EmptyString
  | String c s' => String (f c) (map_chars f s')
  end.

Definition toUpperCase : string -> string := map_chars upper_char.
Definition toLowerCase : string -> string := map_chars lower_char.

Fixpoint trimStart (s : string) : string :=
  match s with
  | String c s' => if is_space c then trimStart s' else s
  | EmptyString => EmptyString
  end.

(** [trimEnd] keeps a character when it is not white space or when something
    survives after it. *)
Fixpoint trimEnd (s : string) : string :=
  match s with
  | EmptyString => EmptyString
  | String c s' =>
      match trimEnd s' with
      | EmptyString => if is_space c then EmptyString else String c EmptyString
      | t => String c t
      end
  end.

Definition trim (s : string) : string := trimEnd (trimStart s).

(** Truthiness of a string: the empty string is falsy. *)
Definition truthy (s : string) : bool :=
  match s with EmptyString => false | _ => true end.

(** [a || b] on strings. *)
Definition or_else (a b : string) : string := if truthy a then a else b.

Fixpoint drop (n : nat) (s : string) : string :=
  match n, s with
  | O, _ => s
  | S n', String _ s' => drop n' s'
  | S _, EmptyString => EmptyString
  end.

Fixpoint take (n : nat) (s : string) : string :=
  match n, s with
  | S n', String c s' => String c (take n' s')
  | _, _ => EmptyString
  end.

(** [s.slice(a, b)] and [s.slice(a)] for non-negative indices. *)
Definition slice (a b : nat) (s : string) : string := take (b - a) (drop a s).
Definition slice_from (a : nat) (s : string) : string := drop a s.

Fixpoint repeat_char (c : ascii) (n : nat) : string :=
  match n with
  | O => EmptyString
  | S n' => String c (repeat_char c n')
  end.

(** [s.padStart(n, c)] for a one-character filler. *)
Definition padStart (n : nat) (c : ascii) (s : string) : string :=
  repeat_char c (n - String.length s) ++ s.

Fixpoint startsWith (p s : string) : bool :=
  match p, s with
  | EmptyString, _ => true
  | String a p', String b s' => Ascii.eqb a b && startsWith p' s'
  | String _ _, EmptyString => false
  end.

Fixpoint includes (needle s : string) : bool :=
  startsWith needle s ||
  match s with
  | EmptyString => false
  | String _ s' => includes needle s'
  end.

(** [s.replaceAll(pat, rep)] for a non-empty literal pattern. *)
Fixpoint replaceAll_go (fuel : nat) (pat rep s : string) : string :=
  match fuel, s with
  | S f, String c s' =>
      if startsWith pat s
      then rep ++ replaceAll_go f pat rep (drop (String.length pat) s)
      else String c (replaceAll_go f pat rep s')
  | _, _ => s
  end.

Definition replaceAll (pat rep s : string) : string :=
  replaceAll_go (String.length s) pat rep s.

Fixpoint join (sep : string) (l : list string) : string :=
  match l with
  | [] => EmptyString
  | [x] => x
  | x :: rest => x ++ sep ++ join sep rest
  end.

Fixpoint all_chars (p : ascii -> bool) (s : string) : bool :=
  match s with
  | EmptyString => true
  | String c s' => p c && all_chars p s'
  end.

(** Value of a run of decimal digits, most significant first. *)
Fixpoint digits_value (acc : Z) (s : string) : Z :=
  match s with
  | EmptyString => acc
  | String c s' => digits_value (10 * acc + Z.of_nat (code c - 48)) s'
  end.

Definition digit_char (d : Z) : ascii := ascii_of_nat (48 + Z.to_nat d).

(** Decimal digits of a non-negative integer, without leading zeros
    (["0"] for zero). *)
Fixpoint digits_go (fuel : nat) (n : Z) (acc : string) : string :=
  match fuel with
  | O => acc
  | S f =>
      let acc' := String (digit_char (n mod 10)) acc in
      if (n <? 10)%Z then acc' else digits_go f (n / 10) acc'
  end.

Definition digits_of (n : Z) : string :=
  digits_go (S (Z.to_nat (Z.log2 n))) n EmptyString.

End JsString.

(** ** JavaScript numbers *)

Module JsNum.
Import JsString.

Local Open Scope Q_scope.

Inductive number : Type :=
| NaN
| Inf (negative : bool)
| Fin (q : Q).

(** Magnitudes at or above [overflow_bound] round to an infinity, magnitudes
    at or below [underflow_bound] round to zero, as in binary64. *)
Definition overflow_bound : Q := inject_Z (2 ^ 1024 - 2 ^ 970).
Definition underflow_bound : Q := 1 # (2 ^ 1075).

Definition Qltb (a b : Q) : bool :=
  match a ?= b with Lt => true | _ => false end.

Definition fin (q : Q) : number :=
  if Qle_bool overflow_bound (Qabs q) then Inf (Qltb q 0)
  else if Qle_bool (Qabs q) underflow_bound then Fin 0
  else Fin (Qred q).

Definition of_Z (z : Z) : number := fin (inject_Z z).
Definition of_nat (n : nat) : number := of_Z (Z.of_nat n).

Definition isFinite (x : number) : bool :=
  match x with Fin _ => true | _ => false end.

Definition is_zero (x : number) : bool :=
  match x with Fin q => Qeq_bool q 0 | _ => false end.

(** Truthiness of a number: zero and NaN are falsy. *)
Definition truthy (x : number) : bool :=
  match x with
  | NaN => false
  | Inf _ => true
  | Fin q => negb (Qeq_bool q 0)
  end.

(** [a || b] on numbers. *)
Definition or_else (a b : number) : number := if truthy a then a else b.

(** [a === b]. *)
Definition strict_eq (a b : number) : bool :=
  match a, b with
  | Fin p, Fin q => Qeq_bool p q
  | Inf s, Inf t => Bool.eqb s t
  | _, _ => false
  end.

(** [a < b]; every comparison with NaN is false. *)
Definition lt (a b : number) : bool :=
  match a, b with
  | NaN, _ | _, NaN => false
  | Fin p, Fin q => Qltb p q
  | Inf s, Inf t => s && negb t
  | Inf s, Fin _ => s
  | Fin _, Inf t => negb t
  end.

Definition gt (a b : number) : bool := lt b a.

Definition neg (x : number) : number :=
  match x with
  | NaN => NaN
  | Inf s => Inf (negb s)
  | Fin q => fin (- q)
  end.

Definition abs (x : number) : number :=
  match x with
  | NaN => NaN
  | Inf _ => Inf false
  | Fin q => fin (Qabs q)
  end.

Definition add (a b : number) : number :=
  match a, b with
  | NaN, _ | _, NaN => NaN
  | Fin p, Fin q => fin (p + q)
  | Inf s, Inf t => if Bool.eqb s t then Inf s else NaN
  | Inf s, Fin _ | Fin _, Inf s => Inf s
  end.

Definition mul (a b : number) : number :=
  match a, b with
  | NaN, _ | _, NaN => NaN
  | Fin p, Fin q => fin (p * q)
  | Inf s, Inf t => Inf (xorb s t)
  | Inf s, Fin q | Fin q, Inf s =>
      if Qeq_bool q 0 then NaN else Inf (xorb s (Qltb q 0))
  end.

Definition div (a b : number) : number :=
  match a, b with
  | NaN, _ | _, NaN => NaN
  | Fin p, Fin q =>
      if Qeq_bool q 0
      then (if Qeq_bool p 0 then NaN else Inf (Qltb p 0))
      else fin (p / q)
  | Inf _, Inf _ => NaN
  | Inf s, Fin q => Inf (xorb s (Qltb q 0))
  | Fin _, Inf _ => Fin 0
  end.

(** [Math.round]: the nearest integer, halves towards plus infinity. *)
Definition Math_round (x : number) : number :=
  match x with
  | Fin q => of_Z (Qfloor (q + (1 # 2)))
  | _ => x
  end.

(** [Math.min(...l)]: plus infinity for no argument, NaN as soon as one
    argument is NaN. *)
Definition min2 (a b : number) : number :=
  match a, b with
  | NaN, _ | _, NaN => NaN
  | _, _ => if lt b a then b else a
  end.

Definition Math_min (l : list number) : number := fold_left min2 l (Inf false).

(** *** Number to string *)

Fixpoint strip_trailing_zeros (s : string) : string :=
  match s with
  | EmptyString => EmptyString
  | String c s' =>
      match strip_trailing_zeros s' with
      | EmptyString => if Ascii.eqb c "0" then EmptyString else String c EmptyString
      | t => String c t
      end
  end.

(** Integers below 1e21 print as plain digits, larger ones in exponent
    form. *)
Definition nonneg_int_toString (n : Z) : string :=
  let ds := digits_of n in
  if (n <? 10 ^ 21)%Z then ds
  else
    let mant := strip_trailing_zeros (drop 1 ds) in
    take 1 ds ++ (if JsString.truthy mant then "." ++ mant else "")
      ++ "e+" ++ digits_of (Z.of_nat (String.length ds - 1)).

Fixpoint fraction_digits (fuel : nat) (q : Q) : string :=
  match fuel with
  | O => EmptyString
  | S f =>
      let q10 := Qred (q * 10) in
      let d := Qfloor q10 in
      String (digit_char d) (fraction_digits f (q10 - inject_Z d))
  end.

(** [toString] is exact on integers, the only values the embedded code
    prints; a fractional part is printed to at most 20 places. *)
Definition toString (x : number) : string :=
  match x with
  | NaN => "NaN"
  | Inf false => "Infinity"
  | Inf true => "-Infinity"
  | Fin q =>
      let a := Qabs q in
      let ip := Qfloor a in
      let fr := strip_trailing_zeros (fraction_digits 20 (a - inject_Z ip)) in
      (if Qltb q 0 then "-" else "")
        ++ nonneg_int_toString ip
        ++ (if JsString.truthy fr then "." ++ fr else "")
  end.

(** *** String to number: [Number(s)] *)

Fixpoint span (p : ascii -> bool) (s : string) : string * string :=
  match s with
  | String c s' =>
      if p c then let '(a, b) := span p s' in (String c a, b) else (EmptyString, s)
  | EmptyString => (EmptyString, EmptyString)
  end.

Definition pow10 (e : Z) : Q :=
  if (0 <=? e)%Z then inject_Z (10 ^ e) else 1 # Z.to_pos (10 ^ (- e)).

(** Splits off a leading sign; the flag tells a minus. *)
Definition split_sign (s : string) : bool * string :=
  match s with
  | String c r =>
      if Ascii.eqb c "-" then (true, r)
      else if Ascii.eqb c "+" then (false, r)
      else (false, s)
  | EmptyString => (false, s)
  end.

(** Optional exponent part; [None] when the text is not one. *)
Definition parse_exponent (s : string) : option Z :=
  match s with
  | EmptyString => Some 0%Z
  | String e r =>
      if Ascii.eqb e "e" || Ascii.eqb e "E" then
        let '(negative, ds) := split_sign r in
        if JsString.truthy ds && all_chars is_digit ds
        then Some (if negative then - digits_value 0 ds else digits_value 0 ds)%Z
        else None
      else None
  end.

(** Digits, optional fraction, optional exponent; at least one digit. *)
Definition parse_unsigned_decimal (s : string) : option Q :=
  let '(ip, r1) := span is_digit s in
  let '(fp, r2) :=
    match r1 with
    | String c r => if Ascii.eqb c "." then span is_digit r else (EmptyString, r1)
    | EmptyString => (EmptyString, r1)
    end in
  if JsString.truthy ip || JsString.truthy fp then
    match parse_exponent r2 with
    | Some e =>
        Some (inject_Z (digits_value 0 (ip ++ fp))
              * pow10 (e - Z.of_nat (String.length fp)))
    | None => None
    end
  else None.

Definition radix_digit (c : ascii) : option Z :=
  if is_digit c then Some (Z.of_nat (code c - 48))
  else if between 97 102 c then Some (Z.of_nat (code c - 87))
  else if between 65 70 c then Some (Z.of_nat (code c - 55))
  else None.

Fixpoint parse_radix (base acc : Z) (s : string) : option Z :=
  match s with
  | EmptyString => Some acc
  | String c s' =>
      match radix_digit c with
      | Some d => if (d <? base)%Z then parse_radix base (base * acc + d) s' else None
      | None => None
      end
  end.

Definition radix_of (c : ascii) : option Z :=
  if Ascii.eqb c "x" || Ascii.eqb c "X" then Some 16%Z
  else if Ascii.eqb c "o" || Ascii.eqb c "O" then Some 8%Z
  else if Ascii.eqb c "b" || Ascii.eqb c "B" then Some 2%Z
  else None.

(** [0x], [0o] or [0b] in front of at least one digit. *)
Definition radix_prefix (t : string) : option (Z * string) :=
  match t with
  | String z (String r ds) =>
      if Ascii.eqb z "0" && JsString.truthy ds then
        match radix_of r with
        | Some base => Some (base, ds)
        | None => None
        end
      else None
  | _ => None
  end.

Definition parse_signed_decimal (t : string) : number :=
  let '(negative, body) := split_sign t in
  if String.eqb body "Infinity" then Inf negative
  else
    match parse_unsigned_decimal body with
    | Some q => if negative then fin (- q) else fin q
    | None => NaN
    end.

Definition Number (s : string) : number :=
  let t := trim s in
  if negb (JsString.truthy t) then Fin 0
  else
    match radix_prefix t with
    | Some (base, ds) =>
        match parse_radix base 0 ds with
        | Some z => of_Z z
        | None => NaN
        end
    | None => parse_signed_decimal t
    end.

End JsNum.

(** ** Regular expressions *)

Module Regex.
Import JsString.

(** The fragment of the pattern language the embedded code uses.  [Rep]
    is a greedy quantifier over a one-character class, [Opt] a greedy
    optional group, [Grp i] the capture group numbered [i]. *)
Inductive re : Type :=
| Eps
| Cls (p : ascii -> bool)
| Seq (a b : re)
| Alt (a b : re)
| Opt (a : re)
| Rep (p : ascii -> bool) (lo : nat) (hi : option nat)
| Grp (i : nat) (a : re)
| Bol
| Eol
| WordB.

(** Matcher state: the character just before the current position (absent
    at index 0), the text still to read, and the captures so far. *)
Record mstate : Type := MState {
  before : option ascii;
  rest : string;
  caps : list (nat * string)
}.

Definition chr (c : ascii) : re := Cls (Ascii.eqb c).

(** A literal, character by character. *)
Fixpoint lit (s : string) : re :=
  match s with
  | EmptyString => Eps
  | String c s' => Seq (chr c) (lit s')
  end.

(** A literal under the [i] flag. *)
Fixpoint lit_ci (s : string) : re :=
  match s with
  | EmptyString => Eps
  | String c s' =>
      Seq (Cls (fun x => Ascii.eqb (lower_char x) (lower_char c))) (lit_ci s')
  end.

Fixpoint seq (l : list re) : re :=
  match l with
  | [] => Eps
  | [r] => r
  | r :: l' => Seq r (seq l')
  end.

Definition star (p : ascii -> bool) : re := Rep p 0 None.
Definition plus (p : ascii -> bool) : re := Rep p 1 None.
Definition times (p : ascii -> bool) (n : nat) : re := Rep p n (Some n).
Definition range (p : ascii -> bool) (lo hi : nat) : re := Rep p lo (Some hi).

Definition hi_zero (hi : option nat) : bool :=
  match hi with Some O => true | _ => false end.

Definition hi_pred (hi : option nat) : option nat :=
  match hi with Some n => Some (pred n) | None => None end.

Section Matcher.
Context {A : Type}.

(** Greedy repetition: take one more character when allowed, and only when
    the continuation fails further on stop here (if [lo] is reached). *)
Fixpoint rep (p : ascii -> bool) (lo : nat) (hi : option nat)
    (prev : option ascii) (s : string)
    (k : option ascii -> string -> option A) {struct s} : option A :=
  let stop := match lo with O => k prev s | S _ => None end in
  if hi_zero hi then stop
  else
    match s with
    | String c s' =>
        if p c then
          match rep p (pred lo) (hi_pred hi) (Some c) s' k with
          | Some x => Some x
          | None => stop
          end
        else stop
    | EmptyString => stop
    end.

Definition peek (s : string) : option ascii :=
  match s with String c _ => Some c | EmptyString => None end.

Definition wordish (c : option ascii) : bool :=
  match c with Some x => is_word x | None => false end.

(** Text read between two matcher states. *)
Definition consumed (st st' : mstate) : string :=
  take (String.length (rest st) - String.length (rest st')) (rest st).

Definition set_cap (i : nat) (v : string) (st : mstate) : mstate :=
  MState (before st) (rest st) ((i, v) :: caps st).

Fixpoint rmatch (r : re) (st : mstate) (k : mstate -> option A) : option A :=
  match r with
  | Eps => k st
  | Cls p =>
      match rest st with
      | String c s' => if p c then k (MState (Some c) s' (caps st)) else None
      | EmptyString => None
      end
  | Seq a b => rmatch a st (fun st' => rmatch b st' k)
  | Alt a b =>
      match rmatch a st k with
      | Some x => Some x
      | None => rmatch b st k
      end
  | Opt a =>
      match rmatch a st k with
      | Some x => Some x
      | None => k st
      end
  | Rep p lo hi =>
      rep p lo hi (before st) (rest st)
        (fun pv s' => k (MState pv s' (caps st)))
  | Grp i a => rmatch a st (fun st' => k (set_cap i (consumed st st') st'))
  | Bol => match before st with None => k st | Some _ => None end
  | Eol => match rest st with EmptyString => k st | String _ _ => None end
  | WordB =>
      if xorb (wordish (before st)) (wordish (peek (rest st)))
      then k st else None
  end.

End Matcher.

(** One attempt at the current position. *)
Definition match_here (r : re) (prev : option ascii) (s : string)
  : option mstate :=
  rmatch r (MState prev s []) Some.

(** [RegExp.prototype.exec] without the [g] flag: the first position, from
    the left, at which the pattern matches. *)
Fixpoint exec_from (r : re) (prev : option ascii) (s : string)
  : option mstate :=
  match match_here r prev s with
  | Some st => Some st
  | None =>
      match s with
      | String c s' => exec_from r (Some c) s'
      | EmptyString => None
      end
  end.

Definition exec (r : re) (s : string) : option mstate := exec_from r None s.

Definition test (r : re) (s : string) : bool :=
  match exec r s with Some _ => true | None => false end.

(** Capture [i] of a successful match, the most recent binding first;
    the empty string stands for a group that did not take part. *)
Fixpoint lookup_cap (i : nat) (l : list (nat * string)) : string :=
  match l with
  | [] => EmptyString
  | (j, v) :: l' => if (i =? j)%nat then v else lookup_cap i l'
  end.

Definition group (i : nat) (st : mstate) : string := lookup_cap i (caps st).

(** [s.replace(r, rep)] with the [g] flag and a constant replacement. *)
Fixpoint replace_go (fuel : nat) (r : re) (rp : string)
    (prev : option ascii) (s : string) : string :=
  match fuel with
  | O => s
  | S f =>
      match match_here r prev s with
      | Some st =>
          if (String.length (rest st) <? String.length s)%nat
          then rp ++ replace_go f r rp (before st) (rest st)
          else
            match s with
            | String c s' => rp ++ String c (replace_go f r rp (Some c) s')
            | EmptyString => rp
            end
      | None =>
          match s with
          | String c s' => String c (replace_go f r rp (Some c) s')
          | EmptyString => EmptyString
          end
      end
  end.

Definition replace_g (r : re) (rp s : string) : string :=
  replace_go (S (String.length s)) r rp None s.

(** Character before the position reached after reading [a]. *)
Fixpoint last_char (a : string) (prev : option ascii) : option ascii :=
  match a with
  | EmptyString => prev
  | String c a' => last_char a' (Some c)
  end.

Definition within (n : nat) (hi : option nat) : Prop :=
  match hi with Some h => (n <= h)%nat | None => True end.

(** Declarative reading of a pattern: [matches r st st'] when [r] can take
    the matcher from [st] to [st']. *)
Inductive matches : re -> mstate -> mstate -> Prop :=
| M_Eps st : matches Eps st st
| M_Cls p c s pv cs :
    p c = true ->
    matches (Cls p) (MState pv (String c s) cs) (MState (Some c) s cs)
| M_Seq a b st1 st2 st3 :
    matches a st1 st2 -> matches b st2 st3 -> matches (Seq a b) st1 st3
| M_AltL a b st st' : matches a st st' -> matches (Alt a b) st st'
| M_AltR a b st st' : matches b st st' -> matches (Alt a b) st st'
| M_OptSome a st st' : matches a st st' -> matches (Opt a) st st'
| M_OptNone a st : matches (Opt a) st st
| M_Rep p lo hi st a b :
    rest st = a ++ b -> all_chars p a = true ->
    (lo <= String.length a)%nat -> within (String.length a) hi ->
    matches (Rep p lo hi) st (MState (last_char a (before st)) b (caps st))
| M_Grp i a st st' :
    matches a st st' -> matches (Grp i a) st (set_cap i (consumed st st') st')
| M_Bol st : before st = None -> matches Bol st st
| M_Eol st : rest st = "" -> matches Eol st st
| M_WordB st :
    xorb (wordish (before st)) (wordish (peek (rest st))) = true ->
    matches WordB st st.

(** Number of characters a pattern reads: lower bound, and upper bound when
    there is one. *)
Fixpoint min_width (r : re) : nat :=
  match r with
  | Cls _ => 1
  | Seq a b => min_width a + min_width b
  | Alt a b => Nat.min (min_width a) (min_width b)
  | Rep _ lo _ => lo
  | Grp _ a => min_width a
  | _ => 0
  end.

Fixpoint max_width (r : re) : option nat :=
  match r with
  | Cls _ => Some 1%nat
  | Seq a b =>
      match max_width a, max_width b with
      | Some x, Some y => Some (x + y)%nat
      | _, _ => None
      end
  | Alt a b =>
      match max_width a, max_width b with
      | Some x, Some y => Some (Nat.max x y)
      | _, _ => None
      end
  | Opt a => max_width a
  | Rep _ _ hi => hi
  | Grp _ a => max_width a
  | _ => Some O
  end.

(** A pattern closed by [$] leaves nothing unread. *)
Fixpoint ends_with_eol (r : re) : bool :=
  match r with
  | Eol => true
  | Seq _ b => ends_with_eol b
  | _ => false
  end.

End Regex.

(** ** Contract symbol codec (App.tsx, [parseOsiSymbol], [buildOsiSymbol],
    [normalizeExpiryInput], [isFutureSymbol]) *)

Module Codec.
Import JsString JsNum Regex.

Record osi : Type := Osi {
  osi_underlying : string;
  osi_expiry : string;
  osi_option_type : string;
  osi_strike : number
}.

(** [[A-Z0-9]] *)
Definition is_upper_alnum (c : ascii) : bool := is_upper c || is_digit c.

(** [[CP]] *)
Definition is_cp (c : ascii) : bool := Ascii.eqb c "C" || Ascii.eqb c "P".

(** [/^([A-Z0-9]{1,6})(\d{6})([CP])(\d{8})$/] *)
Definition osi_re : re :=
  seq [Bol; Grp 1 (range is_upper_alnum 1 6); Grp 2 (times is_digit 6);
       Grp 3 (Cls is_cp); Grp 4 (times is_digit 8); Eol].

Definition parseOsiSymbol (symbol : string) : option osi :=
  let s := toUpperCase (trim symbol) in
  match exec osi_re s with
  | None => None
  | Some m =>
      let underlying := group 1 m in
      let y := "20" ++ slice 0 2 (group 2 m) in
      let mo := slice 2 4 (group 2 m) in
      let d := slice 4 6 (group 2 m) in
      let expiry := y ++ "-" ++ mo ++ "-" ++ d in
      let option_type := if String.eqb (group 3 m) "C" then "CALL" else "PUT" in
      let strike := div (Number (group 4 m)) (Fin 1000) in
      Some (Osi underlying expiry option_type strike)
  end.

(** The empty string is the failure value. *)
Definition buildOsiSymbol (underlying expiry right : string) (strike : number)
  : string :=
  let u := toUpperCase (trim (JsString.or_else underlying "")) in
  let exp := trim (JsString.or_else expiry "") in
  if negb (JsString.truthy u) || negb (JsString.truthy exp)
     || negb (JsString.truthy right) || negb (isFinite strike)
  then ""
  else
    let ymd := slice_from 2 (replaceAll "-" "" exp) in
    if negb (String.length ymd =? 6)%nat then ""
    else
      let strikeInt :=
        padStart 8 "0" (toString (Math_round (mul strike (Fin 1000)))) in
      let r := if String.eqb (toUpperCase right) "P" then "P" else "C" in
      u ++ ymd ++ r ++ strikeInt.

Definition dash : re := chr "-".
Definition slash : re := chr "/".

(** [/^\d{4}-\d{2}-\d{2}$/] *)
Definition iso_date_re : re :=
  seq [Bol; times is_digit 4; dash; times is_digit 2; dash; times is_digit 2; Eol].

(** [/^(\d{2})SEP(\d{2})SEP(\d{N})$/] for a separator and a year width. *)
Definition mdy_re (sep : re) (year_width : nat) : re :=
  seq [Bol; Grp 1 (times is_digit 2); sep; Grp 2 (times is_digit 2); sep;
       Grp 3 (times is_digit year_width); Eol].

Definition normalizeExpiryInput (value : string) : string :=
  let raw := trim (JsString.or_else value "") in
  if negb (JsString.truthy raw) then ""
  else if test iso_date_re raw then raw
  else
    match exec (mdy_re dash 4) raw with
    | Some m => group 3 m ++ "-" ++ group 1 m ++ "-" ++ group 2 m
    | None =>
    match exec (mdy_re dash 2) raw with
    | Some m => "20" ++ group 3 m ++ "-" ++ group 1 m ++ "-" ++ group 2 m
    | None =>
    match exec (mdy_re slash 4) raw with
    | Some m => group 3 m ++ "-" ++ group 1 m ++ "-" ++ group 2 m
    | None =>
    match exec (mdy_re slash 2) raw with
    | Some m => "20" ++ group 3 m ++ "-" ++ group 1 m ++ "-" ++ group 2 m
    | None => raw
    end end end end.

(** [[FGHJKMNQUVXZ]] *)
Definition is_month_code (c : ascii) : bool := includes (String c "") "FGHJKMNQUVXZ".

(** [/^[A-Z0-9]{1,4}[FGHJKMNQUVXZ][0-9]{2}$/] *)
Definition future_re : re :=
  seq [Bol; range is_upper_alnum 1 4; Cls is_month_code; times is_digit 2; Eol].

Definition isFutureSymbol (value : string) : bool :=
  let s := toUpperCase (trim (JsString.or_else value "")) in
  if negb (JsString.truthy s) then false else test future_re s.

(** The text [buildOsiSymbol] cuts the six date digits from. *)
Definition compact_date (expiry : string) : string :=
  slice_from 2 (replaceAll "-" "" (trim expiry)).

(** The letter [buildOsiSymbol] writes for a right. *)
Definition right_letter (right : string) : string :=
  if String.eqb (toUpperCase right) "P" then "P" else "C".

(** The strike field [buildOsiSymbol] writes. *)
Definition strike_field (strike : number) : string :=
  padStart 8 "0" (toString (Math_round (mul strike (Fin 1000)))).

Definition six (y1 y2 m1 m2 d1 d2 : ascii) : string :=
  String y1 (String y2 (String m1 (String m2 (String d1 (String d2 ""))))).

Definition iso20 (y1 y2 m1 m2 d1 d2 : ascii) : string :=
  "20" ++ String y1 (String y2 "") ++ "-" ++ String m1 (String m2 "")
       ++ "-" ++ String d1 (String d2 "").

(** What follows the underlying in [osi_re]. *)
Definition osi_tail : re :=
  seq [Grp 2 (times is_digit 6); Grp 3 (Cls is_cp); Grp 4 (times is_digit 8); Eol].

End Codec.

(** ** Option descriptions (App.tsx, [parseOptionDescription]) *)

Module OptionDescription.
Import JsString JsNum Regex Codec.

Record parsed_option : Type := ParsedOption {
  po_symbol : string;
  po_underlying : string;
  po_expiry : string;
  po_strike : number;
  po_option_type : string
}.

(** [(?:\d+\s+)?] *)
Definition qty_prefix : re := Opt (Seq (plus is_digit) (plus is_space)).

(** [[\/-]] *)
Definition is_date_sep (c : ascii) : bool := Ascii.eqb c "/" || Ascii.eqb c "-".

(** [\d{1,2}[\/-]\d{1,2}[\/-]\d{2,4}] *)
Definition numeric_date : re :=
  seq [range is_digit 1 2; Cls is_date_sep; range is_digit 1 2; Cls is_date_sep;
       range is_digit 2 4].

(** [\d+(?:\.\d+)?] *)
Definition decimal : re := Seq (plus is_digit) (Opt (Seq (chr ".") (plus is_digit))).

(** [CALL|PUT|[CP]] *)
Definition right_word : re := Alt (lit "CALL") (Alt (lit "PUT") (Cls is_cp)).

(** [/^(?:\d+\s+)?([A-Z0-9]{1,6})\s+(?:\d+\s+)?(\d{1,2}[\/-]\d{1,2}[\/-]\d{2,4})\s+(\d+(?:\.\d+)?)\s*(CALL|PUT|[CP])\b/] *)
Definition numeric_re : re :=
  seq [Bol; qty_prefix; Grp 1 (range is_upper_alnum 1 6); plus is_space;
       qty_prefix; Grp 2 numeric_date; plus is_space; Grp 3 decimal;
       star is_space; Grp 4 right_word; WordB].

(** [/^(?:\d+\s+)?([A-Z0-9]{1,6})\s+(?:\d+\s+)?(\d{1,2})\s+([A-Z]{3})\s+(\d{2,4})\s+(\d+(?:\.\d+)?)\s*(CALL|PUT|[CP])\b/] *)
Definition month_re : re :=
  seq [Bol; qty_prefix; Grp 1 (range is_upper_alnum 1 6); plus is_space;
       qty_prefix; Grp 2 (range is_digit 1 2); plus is_space;
       Grp 3 (times is_upper 3); plus is_space; Grp 4 (range is_digit 2 4);
       plus is_space; Grp 5 decimal; star is_space; Grp 6 right_word; WordB].

(** [/^(?:\d+\s+)?(\d{1,2}[\/-]\d{1,2}[\/-]\d{2,4})\s+(\d+(?:\.\d+)?)\s*(CALL|PUT|[CP])\b/] *)
Definition numeric_no_underlying_re : re :=
  seq [Bol; qty_prefix; Grp 1 numeric_date; plus is_space; Grp 2 decimal;
       star is_space; Grp 3 right_word; WordB].

(** [/^(?:\d+\s+)?(\d{1,2})\s+([A-Z]{3})\s+(\d{2,4})\s+(\d+(?:\.\d+)?)\s*(CALL|PUT|[CP])\b/] *)
Definition month_no_underlying_re : re :=
  seq [Bol; qty_prefix; Grp 1 (range is_digit 1 2); plus is_space;
       Grp 2 (times is_upper 3); plus is_space; Grp 3 (range is_digit 2 4);
       plus is_space; Grp 4 decimal; star is_space; Grp 5 right_word; WordB].

Definition monthMap : list (string * string) :=
  [("JAN", "01"); ("FEB", "02"); ("MAR", "03"); ("APR", "04"); ("MAY", "05");
   ("JUN", "06"); ("JUL", "07"); ("AUG", "08"); ("SEP", "09"); ("OCT", "10");
   ("NOV", "11"); ("DEC", "12")].

Fixpoint assoc (key : string) (l : list (string * string)) : option string :=
  match l with
  | [] => None
  | (k, v) :: l' => if String.eqb key k then Some v else assoc key l'
  end.

(** The expiry of the month-name branches; empty for an unknown month. *)
Definition month_expiry (day monthKey yearRaw : string) : string :=
  let day' := padStart 2 "0" day in
  let year := if (String.length yearRaw =? 2)%nat then "20" ++ yearRaw else yearRaw in
  match assoc monthKey monthMap with
  | Some month => year ++ "-" ++ month ++ "-" ++ day'
  | None => ""
  end.

Definition right_of (word : string) : string :=
  if startsWith "P" word then "P" else "C".

(** A fallback underlying counts when it is present and not empty. *)
Definition usable (fallback : option string) : option string :=
  match fallback with
  | Some f => if JsString.truthy f then Some f else None
  | None => None
  end.

Definition parseOptionDescription (raw : string) (fallbackUnderlying : option string)
  : option parsed_option :=
  let text := toUpperCase (trim (JsString.or_else raw "")) in
  if negb (JsString.truthy text) then None
  else
    let cleaned := replace_g (plus is_space) " " text in
    let numericMatch := exec numeric_re cleaned in
    let monthMatch := exec month_re cleaned in
    let numericNoUnderlying := exec numeric_no_underlying_re cleaned in
    let monthNoUnderlying := exec month_no_underlying_re cleaned in
    let fields : option (string * string * number * string) :=
      match numericMatch, monthMatch, numericNoUnderlying, monthNoUnderlying,
            usable fallbackUnderlying with
      | Some m, _, _, _, _ =>
          Some (group 1 m, normalizeExpiryInput (group 2 m),
                Number (group 3 m), right_of (group 4 m))
      | None, Some m, _, _, _ =>
          Some (group 1 m, month_expiry (group 2 m) (group 3 m) (group 4 m),
                Number (group 5 m), right_of (group 6 m))
      | None, None, Some m, _, Some f =>
          Some (toUpperCase f, normalizeExpiryInput (group 1 m),
                Number (group 2 m), right_of (group 3 m))
      | None, None, _, Some m, Some f =>
          Some (toUpperCase f, month_expiry (group 1 m) (group 2 m) (group 3 m),
                Number (group 4 m), right_of (group 5 m))
      | _, _, _, _, _ => None
      end in
    match fields with
    | None => None
    | Some (underlying, expiry, strike, rgt) =>
        let symbol := buildOsiSymbol underlying expiry rgt strike in
        if negb (JsString.truthy symbol) then None
        else Some (ParsedOption symbol underlying expiry strike
                     (if String.eqb rgt "P" then "PUT" else "CALL"))
    end.

End OptionDescription.

(** ** CSV text and header normalisation (App.tsx, [parseCsvRows],
    [parseCsv], [stripBom], [normalizeHeader], [parseNumber]) *)

Module Csv.
Import JsString JsNum Regex.

Definition quote : ascii := ascii_of_nat 34.
Definition comma : ascii := ",".
Definition lf : ascii := ascii_of_nat 10.
Definition cr : ascii := ascii_of_nat 13.

Definition push_char (s : string) (c : ascii) : string := s ++ String c "".

Definition blank (cell : string) : bool := negb (JsString.truthy (trim cell)).

(** [row.some((cell) => cell.trim() !== "")] *)
Definition has_content (row : list string) : bool := existsb (fun c => negb (blank c)) row.

(** [rows.push(row)] when the row has a non-blank cell. *)
Definition push_row (rows : list (list string)) (row : list string)
  : list (list string) :=
  if has_content row then rows ++ [row] else rows.

(** The scanning loop of [parseCsvRows]; [current], [row], [inQuotes] and
    [rows] are its mutable variables. *)
Fixpoint parseCsvRows_go (text : string) (inQuotes : bool) (current : string)
    (row : list string) (rows : list (list string)) : list (list string) :=
  match text with
  | EmptyString =>
      if (0 <? String.length current)%nat || (0 <? length row)%nat
      then push_row rows (row ++ [current])
      else rows
  | String ch rest =>
      if inQuotes then
        if Ascii.eqb ch quote then
          match rest with
          | String c2 rest' =>
              if Ascii.eqb c2 quote
              then parseCsvRows_go rest' true (push_char current quote) row rows
              else parseCsvRows_go rest false current row rows
          | EmptyString => parseCsvRows_go rest false current row rows
          end
        else parseCsvRows_go rest true (push_char current ch) row rows
      else if Ascii.eqb ch quote then parseCsvRows_go rest true current row rows
      else if Ascii.eqb ch comma then
        parseCsvRows_go rest false "" (row ++ [current]) rows
      else if Ascii.eqb ch lf || Ascii.eqb ch cr then
        let rows' := push_row rows (row ++ [current]) in
        match rest with
        | String c2 rest' =>
            if Ascii.eqb ch cr && Ascii.eqb c2 lf
            then parseCsvRows_go rest' false "" [] rows'
            else parseCsvRows_go rest false "" [] rows'
        | EmptyString => parseCsvRows_go rest false "" [] rows'
        end
      else parseCsvRows_go rest false (push_char current ch) row rows
  end.

Definition parseCsvRows (text : string) : list (list string) :=
  parseCsvRows_go text false "" [] [].

(** *** Plain objects used as string-keyed records *)

(** Own properties in insertion order. *)
Definition object : Type := list (string * string).

Fixpoint obj_get (key : string) (o : object) : option string :=
  match o with
  | [] => None
  | (k, v) :: o' => if String.eqb key k then Some v else obj_get key o'
  end.

Fixpoint obj_update (key value : string) (o : object) : object :=
  match o with
  | [] => [(key, value)]
  | (k, v) :: o' =>
      if String.eqb key k then (k, value) :: o' else (k, v) :: obj_update key value o'
  end.

(** [o[key] = value]; assigning a string to [__proto__] adds no property. *)
Definition obj_set (key value : string) (o : object) : object :=
  if String.eqb key "__proto__" then o else obj_update key value o.

(** Keys that are canonical array indices come first in [Object.keys]. *)
Definition array_index (k : string) : option Z :=
  if JsString.truthy k && all_chars is_digit k
     && (String.eqb k "0" || negb (startsWith "0" k))
     && (digits_value 0 k <? 2 ^ 32 - 1)%Z
  then Some (digits_value 0 k) else None.

Fixpoint insert_index (e : Z * string) (l : list (Z * string)) : list (Z * string) :=
  match l with
  | [] => [e]
  | x :: l' => if (fst e <? fst x)%Z then e :: l else x :: insert_index e l'
  end.

(** [Object.keys(o)]: integer keys in ascending order, then the other keys
    in insertion order. *)
Definition obj_keys (o : object) : list string :=
  let ks := map fst o in
  let ints :=
    fold_right
      (fun k acc => match array_index k with Some i => insert_index (i, k) acc | None => acc end)
      [] ks in
  map snd ints
    ++ List.filter
         (fun k => match array_index k with Some _ => false | None => true end) ks.

Fixpoint zip_with_index {X : Type} (i : nat) (l : list X) : list (nat * X) :=
  match l with
  | [] => []
  | x :: l' => (i, x) :: zip_with_index (S i) l'
  end.

(** [cols[idx] ?? ""] *)
Definition col_or_empty (cols : list string) (idx : nat) : string :=
  nth idx cols "".

Definition parseCsv (text : string) : list object :=
  let rows := parseCsvRows text in
  match rows with
  | [] => []
  | first :: dataRows =>
      let header := map trim first in
      map (fun cols =>
             fold_left (fun data '(idx, key) => obj_set key (col_or_empty cols idx) data)
                       (zip_with_index 0 header) [])
          dataRows
  end.

(** The byte-order mark, as the three bytes of its UTF-8 form. *)
Definition bom : string :=
  String (ascii_of_nat 239) (String (ascii_of_nat 187) (String (ascii_of_nat 191) "")).

(** [value.replace(/^\ufeff/, "")] *)
Definition stripBom (value : string) : string :=
  if startsWith bom value then drop 3 value else value.

(** [[^a-z0-9]] *)
Definition not_lower_alnum (c : ascii) : bool := negb (is_lower c || is_digit c).

Definition is_underscore (c : ascii) : bool := Ascii.eqb c "_".

Definition normalizeHeader (key : string) : string :=
  replace_g (Alt (Seq Bol (plus is_underscore)) (Seq (plus is_underscore) Eol)) ""
    (replace_g (plus not_lower_alnum) "_"
       (trim (toLowerCase (stripBom key)))).

(** [/^\(.*\)$/] *)
Definition parenthesised_re : re := seq [Bol; chr "("; star is_dot; chr ")"; Eol].

(** [[,$%]] and [[()]] *)
Definition is_money_mark (c : ascii) : bool :=
  Ascii.eqb c "," || Ascii.eqb c "$" || Ascii.eqb c "%".
Definition is_paren (c : ascii) : bool := Ascii.eqb c "(" || Ascii.eqb c ")".

Definition parseNumber (raw : string) : number :=
  if negb (JsString.truthy raw) then NaN
  else
    let trimmed := trim raw in
    if negb (JsString.truthy trimmed) then NaN
    else
      let negative := test parenthesised_re trimmed in
      let cleaned :=
        replace_g (Cls is_paren) "" (replace_g (Cls is_money_mark) "" trimmed) in
      let value := Number cleaned in
      if negb (isFinite value) then NaN
      else if negative then neg value else value.

End Csv.

(** ** Row extraction (App.tsx, [parseAccountStatementPositions] and the
    generic branch of [importCsvFile]) *)

Module Extract.
Import JsString JsNum Regex Codec OptionDescription Csv.

(** A position as posted to [/positions/bulk]; [None] is [undefined]. *)
Record position_row : Type := PositionRow {
  instrument_id : option string;
  symbol : string;
  qty : number;
  price : number;
  avg_cost : option number;
  asset_class : string;
  underlying : option string;
  expiry : option string;
  strike : option number;
  option_type : option string;
  multiplier : option number;
  entry_date : option string;
  sector : option string;
  strategy : option string
}.

(** [s || undefined] *)
Definition or_undefined (s : string) : option string :=
  if JsString.truthy s then Some s else None.

(** [a || b || ...] on strings, the empty string when all are falsy. *)
Fixpoint first_truthy (l : list string) : string :=
  match l with
  | [] => ""
  | x :: l' => if JsString.truthy x then x else first_truthy l'
  end.

(** [row.symbol && Number.isFinite(row.qty) && row.qty !== 0] *)
Definition usable_row (row : position_row) : bool :=
  JsString.truthy (symbol row) && isFinite (qty row) && negb (strict_eq (qty row) (Fin 0)).

(** *** Account statements *)

(** [header.indexOf(name)], -1 when absent. *)
Fixpoint indexOf_from (i : Z) (name : string) (l : list string) : Z :=
  match l with
  | [] => (-1)%Z
  | x :: l' => if String.eqb x name then i else indexOf_from (i + 1) name l'
  end.

Definition indexOf (name : string) (l : list string) : Z := indexOf_from 0 name l.

Definition has (name : string) (l : list string) : bool := (0 <=? indexOf name l)%Z.

(** [row[idx] || ""], also for the index -1. *)
Definition cell (row : list string) (idx : Z) : string :=
  if (idx <? 0)%Z then "" else nth (Z.to_nat idx) row "".

(** [header.indexOf(a) >= 0 ? header.indexOf(a) : header.indexOf(b)] *)
Definition indexOf_either (a b : string) (l : list string) : Z :=
  if (0 <=? indexOf a l)%Z then indexOf a l else indexOf b l.

Definition isSectionHeader (row : list string) : bool :=
  (length row =? 1)%nat
  || (JsString.truthy (trim (cell row 0)) && negb (has_content (tl row))).

Definition total_re : re := lit_ci "total".

(** Column positions resolved from a section's header row. *)
Record columns : Type := Columns {
  symbolIdx : Z; descIdx : Z; qtyIdx : Z; tradeIdx : Z; markIdx : Z;
  lastIdx : Z; priceIdx : Z; underlyingIdx : Z; expiryIdx : Z; strikeIdx : Z;
  rightIdx : Z
}.

Definition columns_of (header : list string) : columns :=
  Columns (indexOf "symbol" header) (indexOf "description" header)
    (indexOf "qty" header) (indexOf "trade_price" header)
    (indexOf "mark" header) (indexOf "last" header) (indexOf "price" header)
    (indexOf_either "underlying" "root" header)
    (indexOf_either "expiry" "expiration_date" header)
    (indexOf_either "strike" "strike_price" header)
    (indexOf_either "option_type" "put_call" header).

(** [idx >= 0 ? parseNumber(row[idx] || "") : NaN] *)
Definition number_at (row : list string) (idx : Z) : number :=
  if (0 <=? idx)%Z then parseNumber (cell row idx) else NaN.

(** [idx >= 0 ? (row[idx] || "").trim() : ""] *)
Definition text_at (row : list string) (idx : Z) : string :=
  if (0 <=? idx)%Z then trim (cell row idx) else "".

Definition positive (v : number) : bool := isFinite v && gt v (Fin 0).

(** The body of the inner loop for a row that is kept: the position pushed
    and the section's asset class afterwards. *)
Definition statement_row (c : columns) (assetClass : string) (row : list string)
    (rawSymbol : string) (qty0 : number) : position_row * string :=
  let desc := text_at row (descIdx c) in
  let tradePrice := number_at row (tradeIdx c) in
  let mark := number_at row (markIdx c) in
  let last := number_at row (lastIdx c) in
  let directPrice := number_at row (priceIdx c) in
  let candidates := List.filter positive [mark; last; directPrice; tradePrice] in
  let price0 := match candidates with v :: _ => v | [] => Fin 0 end in
  let avgCost :=
    if positive tradePrice then Some tradePrice
    else if gt price0 (Fin 0) then Some price0 else None in
  let symbol0 := toUpperCase (replace_g (plus is_space) "" rawSymbol) in
  let '(symbol1, underlying1, expiry1, strike1, optionType1, assetClass1) :=
    match parseOsiSymbol symbol0 with
    | Some parsedSymbol =>
        (symbol0, osi_underlying parsedSymbol, osi_expiry parsedSymbol,
         Some (osi_strike parsedSymbol), osi_option_type parsedSymbol, "OPTION")
    | None =>
        let rawUnderlying := text_at row (underlyingIdx c) in
        let rawExpiry := text_at row (expiryIdx c) in
        let rawStrike := text_at row (strikeIdx c) in
        let rawRight := text_at row (rightIdx c) in
        let normalizedExpiry := normalizeExpiryInput rawExpiry in
        let parsedStrike := parseNumber rawStrike in
        let rgt := if startsWith "P" (toUpperCase rawRight) then "P" else "C" in
        let built :=
          if JsString.truthy rawUnderlying && JsString.truthy rawExpiry
             && JsString.truthy rawStrike && JsString.truthy rawRight
             && JsString.truthy normalizedExpiry && isFinite parsedStrike
          then buildOsiSymbol rawUnderlying normalizedExpiry rgt parsedStrike
          else "" in
        let '(symbol2, underlying2, expiry2, strike2, optionType2, assetClass2) :=
          if JsString.truthy built
          then (built, toUpperCase rawUnderlying, normalizedExpiry,
                Some parsedStrike, (if String.eqb rgt "P" then "PUT" else "CALL"),
                "OPTION")
          else (symbol0, "", "", None, "", assetClass) in
        let rowText := join " " (List.filter (fun x => negb (blank x)) row) in
        let fallback := Some (first_truthy [rawUnderlying; symbol2; rawSymbol]) in
        let parsedDesc :=
          match parseOptionDescription desc fallback with
          | Some d => Some d
          | None =>
              match
                (if JsString.truthy rawSymbol
                 then parseOptionDescription rawSymbol fallback else None)
              with
              | Some d => Some d
              | None =>
                  if JsString.truthy rowText
                  then parseOptionDescription rowText fallback else None
              end
          end in
        match parsedDesc with
        | Some d =>
            (po_symbol d, po_underlying d, po_expiry d, Some (po_strike d),
             po_option_type d, "OPTION")
        | None =>
            (symbol2, underlying2, expiry2, strike2, optionType2, assetClass2)
        end
    end in
  (PositionRow None symbol1 qty0 price0 avgCost assetClass1
     (or_undefined underlying1) (or_undefined expiry1) strike1
     (or_undefined optionType1) None None None None,
   assetClass1).

(** The inner loop: rows of one section, until a blank row, a section
    header or a total line; rows without symbol or quantity are skipped. *)
Fixpoint section_rows (c : columns) (assetClass : string)
    (rows : list (list string)) : list position_row :=
  match rows with
  | [] => []
  | row :: rest =>
      if negb (has_content row) then []
      else if isSectionHeader row then []
      else if test total_re (trim (cell row 1)) then []
      else
        let rawSymbol := trim (cell row (symbolIdx c)) in
        if negb (JsString.truthy rawSymbol) then section_rows c assetClass rest
        else
          let qty0 := parseNumber (cell row (qtyIdx c)) in
          if negb (isFinite qty0) || strict_eq qty0 (Fin 0)
          then section_rows c assetClass rest
          else
            let '(pos, assetClass') := statement_row c assetClass row rawSymbol qty0 in
            pos :: section_rows c assetClass' rest
  end.

Definition position_sections : list string :=
  ["EQUITIES"; "OPTIONS"; "FUTURES"; "FOREX"; "CRYPTO"; "POSITIONS"].

(** Asset class a section name stands for. *)
Definition section_asset_class (sectionUpper : string) : string :=
  let a1 := if includes "OPTION" sectionUpper then "OPTION" else "EQUITY" in
  let a2 := if includes "FUTURE" sectionUpper then "FUTURE" else a1 in
  if includes "FOREX" sectionUpper then "FOREX" else a2.

(** One turn of the outer loop, at the row [section] followed by
    [headerRow] and [body]. *)
Definition statement_section (section headerRow : list string)
    (body : list (list string)) : list position_row :=
  let sectionName := trim (cell section 0) in
  let header := map normalizeHeader headerRow in
  if negb (has "symbol" header) || negb (has "qty" header) then []
  else if negb (has "mark" header) && negb (has "last" header)
          && negb (has "trade_price" header) && negb (has "price" header)
  then []
  else
    let sectionUpper := toUpperCase sectionName in
    if negb (existsb (fun label => includes label sectionUpper) position_sections)
    then []
    else section_rows (columns_of header) (section_asset_class sectionUpper) body.

Fixpoint parseAccountStatementPositions (rows : list (list string))
  : list position_row :=
  match rows with
  | section :: ((headerRow :: body) as rest) =>
      (statement_section section headerRow body
         ++ parseAccountStatementPositions rest)%list
  | _ => []
  end.

(** *** Generic flexible CSV *)

Definition aliasMap : list (string * list string) :=
  [("instrument_id", ["instrument_id"; "instrumentid"; "id"]);
   ("symbol", ["symbol"; "sym"; "ticker"; "instrument"; "instrument_symbol";
               "option_symbol"; "security"; "description"]);
   ("qty", ["qty"; "quantity"; "position"; "pos"; "position_qty"; "net_qty";
            "net_quantity"; "units"; "size"]);
   ("price", ["price"; "mark"; "last"; "last_price"; "mark_price";
              "market_price"; "current_price"]);
   ("avg_cost", ["avg_cost"; "avg"; "average_price"; "avg_price"; "trade_price";
                 "entry_price"; "cost"; "cost_basis"; "basis"]);
   ("entry_date", ["entry_date"; "entrydate"; "open_date"; "opendate"; "opened";
                   "date_opened"; "opened_on"]);
   ("asset_class", ["asset_class"; "asset"; "type"; "instrument_type";
                    "security_type"; "product_type"]);
   ("underlying", ["underlying"; "underlier"; "root"; "root_symbol";
                   "underlying_symbol"]);
   ("expiry", ["expiry"; "exp"; "expiration"; "expiration_date"; "exp_date"]);
   ("strike", ["strike"; "strike_price"]);
   ("option_type", ["option_type"; "right"; "put_call"; "call_put"; "cp"; "p_c"]);
   ("multiplier", ["multiplier"; "contract_multiplier"; "mult"]);
   ("sector", ["sector"; "industry"]);
   ("strategy", ["strategy"; "strategy_name"; "book"; "portfolio"]);
   ("side", ["side"; "direction"; "long_short"; "longshort"])].

Fixpoint aliases_of (key : string) (m : list (string * list string)) : list string :=
  match m with
  | [] => []
  | (k, v) :: m' => if String.eqb key k then v else aliases_of key m'
  end.

(** [normalized[normalizeHeader(key)] = raw[key]] over [Object.keys(raw)]. *)
Definition normalize_row (raw : object) : object :=
  fold_left
    (fun normalized key =>
       obj_set (normalizeHeader key)
               (match obj_get key raw with Some v => v | None => "" end)
               normalized)
    (obj_keys raw) [].

(** First alias with a non-empty value. *)
Fixpoint pick_alias (normalized : object) (aliases : list string) : string :=
  match aliases with
  | [] => ""
  | alias :: rest =>
      match obj_get (normalizeHeader alias) normalized with
      | Some v => if JsString.truthy v then v else pick_alias normalized rest
      | None => pick_alias normalized rest
      end
  end.

Definition pick (normalized : object) (key : string) : string :=
  pick_alias normalized (aliases_of key aliasMap).

(** [Math.abs(qty)] or its opposite, by the side column. *)
Definition signed_by_side (sideRaw : string) (qty0 : number) : number :=
  if negb (strict_eq qty0 (Fin 0)) && JsString.truthy sideRaw then
    let q1 :=
      if includes "SHORT" sideRaw || includes "SELL" sideRaw
      then neg (abs qty0) else qty0 in
    if includes "LONG" sideRaw || includes "BUY" sideRaw then abs q1 else q1
  else qty0.

(** The object built for one data row. *)
Definition payload_row (raw : object) : position_row :=
  let normalized := normalize_row raw in
  let pick := pick normalized in
  let rawSymbol := pick "symbol" in
  let parsedDesc := parseOptionDescription rawSymbol (Some (pick "underlying")) in
  let cleanedSymbol := toUpperCase (replace_g (plus is_space) "" rawSymbol) in
  let parsedSymbol := parseOsiSymbol cleanedSymbol in
  let desc_field (f : parsed_option -> string) :=
    match parsedDesc with Some d => f d | None => "" end in
  let sym_field (f : osi -> string) :=
    match parsedSymbol with Some p => f p | None => "" end in
  let underlying0 :=
    toUpperCase (first_truthy [pick "underlying"; desc_field po_underlying;
                               sym_field osi_underlying]) in
  let expiry0 :=
    first_truthy [pick "expiry"; desc_field po_expiry; sym_field osi_expiry] in
  let strikeRaw := pick "strike" in
  let strike0 : option number :=
    if isFinite (parseNumber strikeRaw) && JsString.truthy strikeRaw
    then Some (parseNumber strikeRaw)
    else
      match parsedDesc, parsedSymbol with
      | Some d, _ => Some (po_strike d)
      | None, Some p => Some (osi_strike p)
      | None, None => None
      end in
  let rightRaw :=
    toUpperCase (first_truthy [pick "option_type"; desc_field po_option_type;
                               sym_field osi_option_type]) in
  let rgt :=
    if startsWith "P" rightRaw then "PUT"
    else if startsWith "C" rightRaw then "CALL" else rightRaw in
  let sideRaw := toUpperCase (pick "side") in
  let strike_truthy :=
    match strike0 with Some v => JsNum.truthy v | None => false end in
  let symbol0 :=
    match parsedSymbol with
    | Some _ => cleanedSymbol
    | None =>
        if JsString.truthy (desc_field po_symbol) then desc_field po_symbol
        else if JsString.truthy underlying0 && JsString.truthy expiry0
                && strike_truthy && JsString.truthy rgt
        then
          let built :=
            buildOsiSymbol underlying0 (normalizeExpiryInput expiry0)
              (if startsWith "P" rgt then "P" else "C")
              (match strike0 with Some v => v | None => NaN end) in
          if JsString.truthy built then built else cleanedSymbol
        else cleanedSymbol
    end in
  let assetClassRaw := toUpperCase (pick "asset_class") in
  let isOption :=
    match parseOsiSymbol symbol0 with Some _ => true | None => false end
    || startsWith "P" rgt || startsWith "C" rgt
    || includes "OPT" assetClassRaw || includes "CALL" assetClassRaw
    || includes "PUT" assetClassRaw in
  let isFuture :=
    includes "FUT" assetClassRaw || includes "FUTURE" assetClassRaw
    || isFutureSymbol symbol0 in
  let qtyRaw := parseNumber (pick "qty") in
  let qty0 := signed_by_side sideRaw (if isFinite qtyRaw then qtyRaw else Fin 0) in
  let priceRaw := parseNumber (pick "price") in
  let avgRaw := parseNumber (pick "avg_cost") in
  let price0 :=
    if isFinite priceRaw then priceRaw else if isFinite avgRaw then avgRaw else Fin 0 in
  let avg_cost0 :=
    if isFinite avgRaw then Some avgRaw
    else if isFinite priceRaw then Some priceRaw else None in
  let entryDateRaw := normalizeExpiryInput (pick "entry_date") in
  let entry_date0 := if test iso_date_re entryDateRaw then Some entryDateRaw else None in
  PositionRow
    (or_undefined (pick "instrument_id"))
    (toUpperCase symbol0)
    qty0 price0 avg_cost0
    (toUpperCase
       (JsString.or_else (pick "asset_class")
          (if isOption then "OPTION" else if isFuture then "FUTURE" else "EQUITY")))
    (if JsString.truthy underlying0 then Some (toUpperCase underlying0) else None)
    (or_undefined expiry0)
    strike0
    (if JsString.truthy rgt then Some (toUpperCase rgt) else None)
    (if JsString.truthy (pick "multiplier")
     then Some (parseNumber (pick "multiplier")) else None)
    entry_date0
    (or_undefined (pick "sector"))
    (or_undefined (pick "strategy")).

(** [positionsPayload] of the generic branch. *)
Definition positionsPayload (rows : list object) : list position_row :=
  map payload_row rows.

End Extract.

(** ** Imports (App.tsx, [requireAccount], [importCsvFile], [importNavText]) *)

Module ImportFlow.
Import JsString JsNum Regex Codec OptionDescription Csv Extract.

(** What a request carries. *)
Inductive payload : Type :=
| FormFile (file : string)
| BulkPositions (positions : list position_row) (account : string)
| NavText (account text : string) (append : bool).

(** What leaves the component: requests through the HTTP client and calls
    of the store's refresh actions. *)
Inductive effect : Type :=
| Post (url : string) (body : payload)
| Get (url : string)
| FetchAccounts
| RefreshAll
| FetchNav (limit : Z).

(** The fields the component reads of a response body. *)
Record response_data : Type := ResponseData {
  accounts_updated : option Z;
  positions_count : option Z;
  count : option Z;
  trades_created : option Z;
  bench_start : option string
}.

(** A rejected request: [err.response.data.detail] and [err.message]. *)
Record api_error : Type := ApiError {
  detail : option string;
  message : option string
}.

Inductive response : Type :=
| Resolved (data : response_data)
| Rejected (err : api_error).

(** The state the import handlers read and write; [log] lists the effects
    issued so far, oldest first. *)
Record app_state : Type := AppState {
  accountId : string;
  navLimit : Z;
  navPasteText : string;
  csvError : string;
  navPasteError : string;
  toast : string;
  benchStart : string;
  log : list effect
}.

Definition with_csvError (v : string) (st : app_state) : app_state :=
  AppState (accountId st) (navLimit st) (navPasteText st) v (navPasteError st)
    (toast st) (benchStart st) (log st).

Definition with_navPasteError (v : string) (st : app_state) : app_state :=
  AppState (accountId st) (navLimit st) (navPasteText st) (csvError st) v
    (toast st) (benchStart st) (log st).

Definition with_toast (v : string) (st : app_state) : app_state :=
  AppState (accountId st) (navLimit st) (navPasteText st) (csvError st)
    (navPasteError st) v (benchStart st) (log st).

Definition with_benchStart (v : string) (st : app_state) : app_state :=
  AppState (accountId st) (navLimit st) (navPasteText st) (csvError st)
    (navPasteError st) (toast st) v (log st).

Definition with_effect (e : effect) (st : app_state) : app_state :=
  AppState (accountId st) (navLimit st) (navPasteText st) (csvError st)
    (navPasteError st) (toast st) (benchStart st) (log st ++ [e]).

(** Handlers are state transformers. *)
Definition M (X : Type) : Type := app_state -> X * app_state.

Definition ret {X : Type} (x : X) : M X := fun st => (x, st).

Definition bind {X Y : Type} (m : M X) (k : X -> M Y) : M Y :=
  fun st => let '(x, st') := m st in k x st'.

Notation "x <- m ;; k" := (bind m (fun x => k))
  (at level 100, m at next level, right associativity).
Notation "m ;; k" := (bind m (fun _ => k))
  (at level 100, right associativity).

Definition modify (f : app_state -> app_state) : M unit := fun st => (tt, f st).
Definition read {X : Type} (f : app_state -> X) : M X := fun st => (f st, st).

Definition setCsvError (v : string) : M unit := modify (with_csvError v).
Definition setNavPasteError (v : string) : M unit := modify (with_navPasteError v).
Definition setToast (v : string) : M unit := modify (with_toast v).
Definition setBenchStart (v : string) : M unit := modify (with_benchStart v).
Definition notify : string -> M unit := setToast.
Definition emit (e : effect) : M unit := modify (with_effect e).

(** Which error setter [requireAccount] is handed. *)
Inductive error_slot : Type := NoSlot | CsvSlot | NavPasteSlot.

Definition set_slot (slot : error_slot) (msg : string) : M unit :=
  match slot with
  | NoSlot => ret tt
  | CsvSlot => setCsvError msg
  | NavPasteSlot => setNavPasteError msg
  end.

Definition requireAccount (action : string) (slot : error_slot) : M (option string) :=
  acct <- read accountId ;;
  if negb (JsString.truthy acct) || String.eqb acct "ALL" then
    let msg := "Select a specific account (not ALL) to " ++ action ++ "." in
    set_slot slot msg ;; notify msg ;; ret None
  else ret (Some acct).

Definition hex_digit (n : nat) : ascii :=
  if (n <? 10)%nat then ascii_of_nat (48 + n) else ascii_of_nat (55 + n).

(** Characters [encodeURIComponent] leaves alone. *)
Definition is_uri_unreserved (c : ascii) : bool :=
  is_alnum c || includes (String c "") "-_.!~*'()".

Fixpoint encodeURIComponent (s : string) : string :=
  match s with
  | EmptyString => EmptyString
  | String c s' =>
      if is_uri_unreserved c then String c (encodeURIComponent s')
      else String "%" (String (hex_digit (code c / 16))
                         (String (hex_digit (code c mod 16)) (encodeURIComponent s')))
  end.

(** An integer inside a template literal. *)
Definition Z_toString (z : Z) : string :=
  if (z <? 0)%Z then "-" ++ digits_of (- z) else digits_of z.

(** [a ?? b] *)
Definition nullish {X : Type} (a : option X) (b : X) : X :=
  match a with Some x => x | None => b end.

(** [err?.response?.data?.detail ?? err?.message ?? fallback] *)
Definition error_text (err : api_error) (fallback : string) : string :=
  match detail err with
  | Some d => d
  | None => nullish (message err) fallback
  end.

Section Server.

(** The server: its answer to a request, given everything issued before. *)
Variable respond : list effect -> effect -> response.

Definition request (e : effect) : M response :=
  fun st => (respond (log st) e, with_effect e st).

Definition api_post (url : string) (body : payload) : M response :=
  request (Post url body).

Definition api_get (url : string) : M response := request (Get url).

Definition fetchAccounts : M unit := emit FetchAccounts.
Definition refreshAll : M unit := emit RefreshAll.
Definition fetchNav (limit : Z) : M unit := emit (FetchNav limit).

(** The detection flags computed at the top of [importCsvFile]. *)
Definition headerRow_of (rawRows : list (list string)) : list string :=
  map (fun c => trim (toLowerCase (stripBom c))) (hd [] rawRows).

Definition isTransactionsCsv (rawRows : list (list string)) : bool :=
  let headerRow := headerRow_of rawRows in
  existsb (String.eqb "action") headerRow
  && existsb (String.eqb "amount") headerRow
  && existsb (String.eqb "quantity") headerRow
  && existsb (includes "fees") headerRow.

Definition firstRows_of (rawRows : list (list string)) : list string :=
  map (fun row => join " " (map (fun c => toLowerCase (stripBom c)) row))
      (firstn 20 rawRows).

Definition isBalancesReport (rawRows : list (list string)) : bool :=
  existsb (fun rowText => includes "balances for all-accounts" rowText
                          || includes "balances for all accounts" rowText)
          (firstRows_of rawRows)
  || existsb (fun rowText => includes "total accounts value" rowText
                             && includes "cash & cash investments total" rowText)
             (firstRows_of rawRows).

Definition isAccountStatement (rawRows : list (list string)) : bool :=
  existsb (includes "account statement") (firstRows_of rawRows).

Definition isPositionsReport (rawRows : list (list string)) : bool :=
  existsb (fun rowText => includes "positions for" rowText
                          || includes "custaccs" rowText)
          (firstRows_of rawRows).

(** The [catch] block of the three upload branches. *)
Definition upload_failed (err : api_error) : M unit :=
  let d := error_text err "CSV import failed" in
  setCsvError d ;; setToast d.

Definition importBalances (file : string) : M unit :=
  setToast "Importing balances CSV..." ;;
  resp <- api_post "/admin/import-balances" (FormFile file) ;;
  match resp with
  | Resolved data =>
      let updated := nullish (accounts_updated data) 0%Z in
      fetchAccounts ;; refreshAll ;;
      notify ("Imported balances for " ++ Z_toString updated ++ " accounts.")
  | Rejected err => upload_failed err
  end.

Definition importPositionsReport (file : string) : M unit :=
  account <- requireAccount "import positions CSV" CsvSlot ;;
  match account with
  | None => ret tt
  | Some account =>
      setToast "Importing positions CSV..." ;;
      resp <- api_post ("/admin/import-positions?account=" ++ encodeURIComponent account)
                       (FormFile file) ;;
      match resp with
      | Resolved data =>
          let n := match positions_count data with
                   | Some v => v
                   | None => nullish (count data) 0%Z
                   end in
          lim <- read navLimit ;;
          fetchAccounts ;; refreshAll ;; fetchNav lim ;;
          notify ("Imported positions from Schwab CSV (" ++ Z_toString n ++ " rows).")
      | Rejected err => upload_failed err
      end
  end.

Definition importTransactions (file : string) : M unit :=
  account <- requireAccount "import transactions CSV" CsvSlot ;;
  match account with
  | None => ret tt
  | Some account =>
      setToast "Importing transactions CSV..." ;;
      resp <- api_post ("/admin/import-transactions?account=" ++ encodeURIComponent account)
                       (FormFile file) ;;
      match resp with
      | Resolved data =>
          let n := nullish (trades_created data) 0%Z in
          lim <- read navLimit ;;
          fetchAccounts ;; refreshAll ;; fetchNav lim ;;
          benchResp <- api_get "/admin/benchmark" ;;
          match benchResp with
          | Resolved b =>
              match bench_start b with
              | Some value => if JsString.truthy value then setBenchStart value else ret tt
              | None => ret tt
              end
          | Rejected _ => ret tt
          end ;;
          notify ("Imported transactions (" ++ Z_toString n ++ " trades).")
      | Rejected err => upload_failed err
      end
  end.

Definition nat_toString (n : nat) : string := digits_of (Z.of_nat n).

(** [positions.filter((row) => row.symbol && Number.isFinite(row.qty) && row.qty !== 0)] *)
Definition usable_rows (rows : list position_row) : list position_row :=
  List.filter usable_row rows.

Definition importAccountStatement (rawRows : list (list string)) : M unit :=
  account <- requireAccount "import positions from account statement" CsvSlot ;;
  match account with
  | None => ret tt
  | Some account =>
      let statementPositions := parseAccountStatementPositions rawRows in
      let filtered := usable_rows statementPositions in
      match filtered with
      | [] => setCsvError "Account statement positions not found."
      | _ =>
          resp <- api_post "/positions/bulk" (BulkPositions filtered account) ;;
          match resp with
          | Resolved _ =>
              fetchAccounts ;; refreshAll ;;
              notify ("Imported " ++ nat_toString (length filtered) ++ " positions.")
          | Rejected err =>
              setCsvError (nullish (detail err) "CSV import failed")
          end
      end
  end.

Definition importGenericCsv (text : string) : M unit :=
  let rows := parseCsv text in
  match rows with
  | [] => setCsvError "CSV file is empty."
  | _ =>
      let filtered := usable_rows (positionsPayload rows) in
      match filtered with
      | [] => setCsvError "CSV requires symbol and qty."
      | _ =>
          account <- requireAccount "import positions CSV" CsvSlot ;;
          match account with
          | None => ret tt
          | Some account =>
              resp <- api_post "/positions/bulk" (BulkPositions filtered account) ;;
              match resp with
              | Resolved _ =>
                  refreshAll ;;
                  notify ("Imported " ++ nat_toString (length filtered) ++ " positions.")
              | Rejected err =>
                  setCsvError (nullish (detail err) "CSV import failed")
              end
          end
      end
  end.

(** [file] is the text of the uploaded file. *)
Definition importCsvFile (file : string) : M unit :=
  setCsvError "" ;;
  let text := file in
  let rawRows := parseCsvRows text in
  match rawRows with
  | [] => setCsvError "CSV file is empty."
  | _ =>
      if isBalancesReport rawRows then importBalances file
      else if isPositionsReport rawRows then importPositionsReport file
      else if isTransactionsCsv rawRows then importTransactions file
      else if isAccountStatement rawRows then importAccountStatement rawRows
      else importGenericCsv text
  end.

Definition importNavText : M unit :=
  setNavPasteError "" ;;
  account <- requireAccount "import NAV history" NavPasteSlot ;;
  match account with
  | None => ret tt
  | Some account =>
      pasted <- read navPasteText ;;
      if negb (JsString.truthy (trim pasted)) then
        let msg := "Paste NAV lines first." in
        setNavPasteError msg ;; notify msg
      else
        setToast "Importing NAV history..." ;;
        resp <- api_post "/admin/import-nav-text" (NavText account pasted false) ;;
        match resp with
        | Resolved data =>
            lim <- read navLimit ;;
            fetchAccounts ;; refreshAll ;; fetchNav lim ;;
            notify ("Imported NAV history ("
                      ++ Z_toString (nullish (count data) 0%Z) ++ " rows).")
        | Rejected err =>
            let d := error_text err "NAV import failed" in
            setNavPasteError d ;; setToast d
        end
  end.

End Server.

(** State after a handler. *)
Definition after {X : Type} (m : M X) (st : app_state) : app_state := snd (m st).

(** The handler issued no effect. *)
Definition silent {X : Type} (m : M X) (st : app_state) : Prop :=
  log (after m st) = log st.

(** The first effect the handler issued is [e]. *)
Definition starts_with {X : Type} (m : M X) (st : app_state) (e : effect) : Prop :=
  exists rest, log (after m st) = (log st ++ e :: rest)%list.

(** Message of [requireAccount]. *)
Definition scope_message (action : string) : string :=
  "Select a specific account (not ALL) to " ++ action ++ ".".

(** Fields no import handler writes. *)
Definition same_inputs (st st' : app_state) : Prop :=
  accountId st' = accountId st /\ navLimit st' = navLimit st /\
  navPasteText st' = navPasteText st.

(** The position upload of the statement and generic branches. *)
Definition upload_outcome {X : Type} (m : M X) (st : app_state)
    (kept : list position_row) : Prop :=
  match kept with
  | [] => silent m st /\ csvError (after m st) <> ""
  | _ => starts_with m st (Post "/positions/bulk" (BulkPositions kept (accountId st)))
  end.

(** With every account selected, a handler that asks for one account stops
    there. *)
Definition refused {X : Type} (m : M X) (st : app_state) (action : string) : Prop :=
  silent m st /\ same_inputs st (after m st) /\
  benchStart (after m st) = benchStart st /\
  csvError (after m st) = scope_message action /\
  toast (after m st) = scope_message action.

End ImportFlow.

(** ** Strategy netting (App.tsx, [positionsDisplay]) *)

Module Netting.
Import JsString JsNum.

(** A position as the store delivers it; [None] is [null] or [undefined]. *)
Record position : Type := Position {
  symbol : string;
  instrument_id : option string;
  asset_class : option string;
  underlying : option string;
  expiry : option string;
  strike : option number;
  option_type : option string;
  multiplier : option number;
  qty : number;
  price : number;
  market_value : number;
  avg_cost : option number;
  day_pnl : option number;
  total_pnl : option number;
  strategy : option string;
  strategy_id : option string;
  strategy_name : option string
}.

(** The synthetic row of a group: the first leg with the netted fields
    written over it. *)
Record summary : Type := Summary {
  sm_first_leg : position;
  sm_symbol : string;
  sm_qty : number;
  sm_price : number;
  sm_avg_cost : number;
  sm_market_value : number;
  sm_total_pnl : number;
  sm_day_pnl : number;
  sm_total_pnl_pct : number;
  sm_day_pnl_pct : number;
  sm_position_side : string;
  sm_strategy_id : string;
  sm_strategy_name : string;
  sm_legCount : nat
}.

(** The three shapes of object pushed to [out]. *)
Inductive display_row : Type :=
| Plain (row : position)
| StrategySummary (s : summary)
| StrategyLeg (leg : position) (strategy_id strategy_name : string).

Inductive order_entry : Type :=
| RowEntry (row : position)
| GroupEntry (id : string).

(** [v || ""] on an optional string. *)
Definition str (v : option string) : string :=
  match v with Some s => s | None => "" end.

(** [Number(v || 0)] on a number. *)
Definition num_or_zero (v : number) : number := JsNum.or_else v (Fin 0).

(** [Number(v || d)] on an optional number. *)
Definition opt_num_or (v : option number) (d : number) : number :=
  match v with Some x => JsNum.or_else x d | None => d end.

(** [row.strategy_id || (row.strategy ? String(row.strategy) : "")] *)
Definition strategyId_of (row : position) : string :=
  JsString.or_else (str (strategy_id row)) (str (strategy row)).

(** [asset === "option" && strategyId] *)
Definition grouped_leg (row : position) : bool :=
  String.eqb (toLowerCase (str (asset_class row))) "option"
  && JsString.truthy (strategyId_of row).

(** The first loop: rows are appended to their group, a group is entered in
    [order] when its first leg is met. *)
Definition collect_step (acc : gmap string (list position) * list order_entry)
    (row : position) : gmap string (list position) * list order_entry :=
  let '(grouped, order) := acc in
  if grouped_leg row then
    let id := strategyId_of row in
    match grouped !! id with
    | Some legs => (<[id := (legs ++ [row])%list]> grouped, order)
    | None => (<[id := [row]]> grouped, (order ++ [GroupEntry id])%list)
    end
  else (grouped, (order ++ [RowEntry row])%list).

Definition collect (rows : list position)
  : gmap string (list position) * list order_entry :=
  fold_left collect_step rows (∅, []).

Definition leg_price (leg : position) : number :=
  let rawPrice := num_or_zero (price leg) in
  let avg := match avg_cost leg with Some a => a | None => price leg end in
  if gt rawPrice (Fin 0) then rawPrice else if gt avg (Fin 0) then avg else Fin 0.

Definition leg_avg (leg : position) : number :=
  match avg_cost leg with Some a => a | None => price leg end.

Definition leg_multiplier (baseMultiplier : number) (leg : position) : number :=
  JsNum.or_else (opt_num_or (multiplier leg) baseMultiplier) baseMultiplier.

(** The running totals of the aggregation loop. *)
Record totals : Type := Totals {
  netValue : number; netAvgValue : number; netMv : number;
  netPnl : number; netDay : number
}.

Definition add_leg (baseMultiplier : number) (t : totals) (leg : position) : totals :=
  let q := num_or_zero (qty leg) in
  let m := leg_multiplier baseMultiplier leg in
  Totals (add (netValue t) (mul (mul q (leg_price leg)) m))
         (add (netAvgValue t) (mul (mul q (leg_avg leg)) m))
         (add (netMv t) (num_or_zero (market_value leg)))
         (add (netPnl t) (opt_num_or (total_pnl leg) (Fin 0)))
         (add (netDay t) (opt_num_or (day_pnl leg) (Fin 0))).

Definition first_qty (legs : list position) : number :=
  match legs with leg :: _ => abs (num_or_zero (qty leg)) | [] => abs (Fin 0) end.

Definition units_of (legs : list position) : number :=
  JsNum.or_else
    (JsNum.or_else
       (Math_min (List.filter (fun v => gt v (Fin 0))
                    (map (fun l => abs (num_or_zero (qty l))) legs)))
       (first_qty legs))
    (Fin 1).

Definition baseMultiplier_of (legs : list position) : number :=
  match legs with
  | leg :: _ => JsNum.or_else (opt_num_or (multiplier leg) (Fin 100)) (Fin 100)
  | [] => Fin 100
  end.

Definition strategyName_of (strategyId : string) (legs : list position) : string :=
  let generic := "Strategy " ++ slice 0 6 strategyId in
  match legs with
  | leg :: _ =>
      JsString.or_else (str (strategy_name leg))
        (JsString.or_else (str (strategy leg)) generic)
  | [] => generic
  end.

Definition summarize (strategyId : string) (first : position)
    (legs : list position) : summary :=
  let units := units_of legs in
  let baseMultiplier := baseMultiplier_of legs in
  let t := fold_left (add_leg baseMultiplier) legs
             (Totals (Fin 0) (Fin 0) (Fin 0) (Fin 0) (Fin 0)) in
  let netPrice :=
    if JsNum.truthy units then div (netValue t) (mul units baseMultiplier) else Fin 0 in
  let netAvgCost :=
    if JsNum.truthy units then div (netAvgValue t) (mul units baseMultiplier) else Fin 0 in
  let pctDenom :=
    if gt (abs netAvgCost) (Fin 0)
    then mul (mul (abs netAvgCost) units) baseMultiplier else Fin 0 in
  let totalPnlPct :=
    if JsNum.truthy pctDenom then mul (div (netPnl t) pctDenom) (Fin 100) else Fin 0 in
  let dayPnlPct :=
    if JsNum.truthy pctDenom then mul (div (netDay t) pctDenom) (Fin 100) else Fin 0 in
  let summarySide := if lt (netValue t) (Fin 0) then "SHORT" else "LONG" in
  let strategyName := strategyName_of strategyId legs in
  Summary first strategyName units netPrice netAvgCost (netMv t) (netPnl t)
    (netDay t) totalPnlPct dayPnlPct summarySide strategyId strategyName
    (length legs).

(** [!collapsedStrategies[strategyId]] *)
Definition expanded (collapsedStrategies : gmap string bool) (id : string) : bool :=
  match collapsedStrategies !! id with Some b => negb b | None => true end.

(** The second loop, for one entry of [order]. *)
Definition emit_entry (grouped : gmap string (list position))
    (collapsedStrategies : gmap string bool) (entry : order_entry)
  : list display_row :=
  match entry with
  | RowEntry row => [Plain row]
  | GroupEntry strategyId =>
      let legs := match grouped !! strategyId with Some l => l | None => [] end in
      match legs with
      | first :: _ :: _ =>
          let s := summarize strategyId first legs in
          StrategySummary s ::
            (if expanded collapsedStrategies strategyId
             then map (fun leg => StrategyLeg leg strategyId (sm_strategy_name s)) legs
             else [])
      | _ => map Plain legs
      end
  end.

(** [strategyFilter ? positions.filter(...) : positions] *)
Definition filter_by_strategy (strategyFilter : string) (positions : list position)
  : list position :=
  if JsString.truthy strategyFilter then
    List.filter
      (fun row =>
         includes (toLowerCase strategyFilter)
           (toLowerCase (JsString.or_else (str (strategy_name row)) (str (strategy row)))))
      positions
  else positions.

Definition positionsDisplay (positions : list position)
    (collapsedStrategies : gmap string bool) (strategyFilter : string)
  : list display_row :=
  let filtered := filter_by_strategy strategyFilter positions in
  let '(grouped, order) := collect filtered in
  flat_map (emit_entry grouped collapsedStrategies) order.

(** The legs of a strategy among some rows, in their order. *)
Definition legs_of (id : string) (rows : list position) : list position :=
  List.filter (fun r => grouped_leg r && String.eqb (strategyId_of r) id) rows.

(** What the first loop has built after reading [done]. *)
Definition collected (done : list position)
    (acc : gmap string (list position) * list order_entry) : Prop :=
  (forall id, fst acc !! id =
                match legs_of id done with [] => None | l => Some l end) /\
  (forall id, In (GroupEntry id) (snd acc) <-> legs_of id done <> []) /\
  (forall r, In (RowEntry r) (snd acc) <-> In r done /\ grouped_leg r = false).

End Netting.

(** ** NAV snapshots ([store_nav_snapshot]) *)

Module NavStore.
Import JsNum.

(** A stored row: the NAV and the benchmark level, [None] for NULL. *)
Record snapshot : Type := Snapshot {
  nav : number;
  bench : option number
}.

(** Modelled from the spec: the write path [storeSnapshot], which is
    [store_nav_snapshot] of [backend/app/services/legacy_engine.py]; that file
    is not among the sources, which only hold the change note quoting its
    line [bench_val = float(bench) if bench is not None and bench > 0 else
    None].  The table is keyed by account and date and a write replaces the
    row of its key. *)
Definition storeSnapshot (account date : string) (nav0 : number)
    (bench0 : option number) (table : gmap (string * string) snapshot)
  : gmap (string * string) snapshot :=
  let bench_val :=
    match bench0 with
    | Some b => if gt b (Fin 0) then Some b else None
    | None => None
    end in
  <[(account, date) := Snapshot nav0 bench_val]> table.

End NavStore.

(** ** Sample inputs *)

Module Samples.
Import JsString JsNum Csv Extract ImportFlow Netting.

(** Text of a file from its lines. *)
Fixpoint lines (l : list string) : string :=
  match l with
  | [] => ""
  | x :: l' => x ++ String lf (lines l')
  end.

(** A server that accepts every request and reports nothing. *)
Definition quiet_server (_ : list effect) (_ : effect) : response :=
  Resolved (ResponseData None None None None None).

Definition named_state (account : string) : app_state :=
  AppState account 365 "" "" "" "" "" [].

Definition transactions_header : string := "Date,Action,Symbol,Quantity,Price,Fees & Comm,Amount".

(** A transactions export that also carries the balances marker. *)
Definition transactions_with_balances_marker : string :=
  lines [transactions_header; "01/02/2026,Buy,AAPL,1,5,0,-5";
         "Balances for All-Accounts,,,,,,"].

(** A transactions export that also carries the positions marker. *)
Definition transactions_with_positions_marker : string :=
  lines [transactions_header; "01/02/2026,Buy,AAPL,1,5,0,-5";
         "Positions for account X,,,,,,"].

(** A transactions export that also carries the statement marker. *)
Definition transactions_with_statement_marker : string :=
  lines [transactions_header; "01/02/2026,Buy,AAPL,1,5,0,-5";
         "Account Statement,,,,,,"].

Definition statement_file : string :=
  lines ["Account Statement"; "Equities"; "Symbol,Description,Qty,Trade Price,Mark";
         "AAPL,APPLE INC,+10,100,110"; "MSFT,MICROSOFT,0,300,310";
         ",NO SYMBOL,5,1,1"; "IBM,IBM CORP,abc,1,1"; "GE,GENERAL ELECTRIC,-3,,20"].

(** A generic CSV with three rows that cannot be used between two that
    can. *)
Definition generic_file : string :=
  lines ["Symbol,Qty,Price"; "AAPL,10,110"; ",5,1"; "MSFT,0,300";
         "IBM,abc,1"; "GE,-3,20"].

Definition lone_leg : position :=
  Position "AAPL260117C00150000" None (Some "OPTION") (Some "AAPL")
    (Some "2026-01-17") (Some (Fin 150)) (Some "CALL") (Some (Fin 100))
    (Fin 1) (Fin 5) (Fin 500) None None None None (Some "S1") None.

(** The spread of the specification's example: buy one 100 call at 5, sell
    one 105 call at 2. *)
Definition long_call : position :=
  Position "AAPL260117C00100000" None (Some "OPTION") (Some "AAPL")
    (Some "2026-01-17") (Some (Fin 100)) (Some "CALL") (Some (Fin 100))
    (Fin 1) (Fin 5) (Fin 500) None None None None (Some "S1") None.

Definition short_call : position :=
  Position "AAPL260117C00105000" None (Some "OPTION") (Some "AAPL")
    (Some "2026-01-17") (Some (Fin 105)) (Some "CALL") (Some (Fin 100))
    (Fin (-1)) (Fin 2) (Fin (-200)) None None None None (Some "S1") None.

(** A holding outside every strategy. *)
Definition stock_row : position :=
  Position "MSFT" None (Some "equity") None None None None None
    (Fin 10) (Fin 300) (Fin 3000) None None None None None None.

(** Two legs of one strategy that have been closed out: quantity zero. *)
Definition closed_call : position :=
  Position "AAPL260117C00100000" None (Some "OPTION") (Some "AAPL")
    (Some "2026-01-17") (Some (Fin 100)) (Some "CALL") (Some (Fin 100))
    (Fin 0) (Fin 5) (Fin 0) None None None None (Some "S2") None.

Definition closed_put : position :=
  Position "AAPL260117P00100000" None (Some "OPTION") (Some "AAPL")
    (Some "2026-01-17") (Some (Fin 100)) (Some "PUT") (Some (Fin 100))
    (Fin 0) (Fin 4) (Fin 0) None None None None (Some "S2") None.

End Samples.

(** ** Shapes of texts *)

Module Shapes.
Import JsString.

(** No white space in front. *)
Definition clean_start (s : string) : Prop :=
  match s with String c _ => is_space c = false | EmptyString => True end.

(** [YYYY-MM-DD] *)
Definition iso_date (y1 y2 y3 y4 m1 m2 d1 d2 : ascii) : string :=
  String y1 (String y2 (String y3 (String y4 (String "-"
    (String m1 (String m2 (String "-" (String d1 (String d2 ""))))))))).

(** [MM?DD?YYYY] for a separator [?]. *)
Definition mdy4 (sep m1 m2 d1 d2 y1 y2 y3 y4 : ascii) : string :=
  String m1 (String m2 (String sep (String d1 (String d2 (String sep
    (String y1 (String y2 (String y3 (String y4 ""))))))))).

(** [MM?DD?YY] for a separator [?]. *)
Definition mdy2 (sep m1 m2 d1 d2 y1 y2 : ascii) : string :=
  String m1 (String m2 (String sep (String d1 (String d2 (String sep
    (String y1 (String y2 ""))))))).

(** Digits and the two separators. *)
Definition date_char (c : ascii) : bool :=
  is_digit c || Ascii.eqb c "-" || Ascii.eqb c "/".

End Shapes.

(** ** Writing delimited text *)

Module CsvWriter.
Import JsString Csv.

(** A cell between double quotes, every double quote inside it doubled:
    the quoting the scanner of [parseCsvRows] undoes. *)
Fixpoint escape (cell : string) : string :=
  match cell with
  | EmptyString => EmptyString
  | String c cell' =>
      if Ascii.eqb c quote then String quote (String quote (escape cell'))
      else String c (escape cell')
  end.

Definition quoted (cell : string) : string :=
  String quote (escape cell ++ String quote "").

(** A character that can stand in a cell written without quotes. *)
Definition plain_char (c : ascii) : bool :=
  negb (Ascii.eqb c quote || Ascii.eqb c comma || Ascii.eqb c lf || Ascii.eqb c cr).

(** A way of writing cells: each cell is quoted, or written as it is when
    it holds no double quote, comma or line break. *)
Definition writes (w : string -> string) : Prop :=
  forall cell,
    w cell = quoted cell \/ (w cell = cell /\ all_chars plain_char cell = true).

(** Quotes only where they are needed. *)
Definition minimal (cell : string) : string :=
  if all_chars plain_char cell then cell else quoted cell.

(** The cells of a row as [w] writes them, with commas between them. *)
Fixpoint cells (w : string -> string) (row : list string) : string :=
  match row with
  | [] => EmptyString
  | [c] => w c
  | c :: row' => w c ++ String comma (cells w row')
  end.

(** Every row on a line of its own, closed by [eol]. *)
Fixpoint document (w : string -> string) (eol : string)
    (rows : list (list string)) : string :=
  match rows with
  | [] => EmptyString
  | row :: rows' => cells w row ++ eol ++ document w eol rows'
  end.

(** The characters of [s] that do not satisfy [p]. *)
Fixpoint strip (p : ascii -> bool) (s : string) : string :=
  match s with
  | EmptyString => EmptyString
  | String c s' => if p c then strip p s' else String c (strip p s')
  end.

(** Text that does not go on with a double quote. *)
Definition closes (rest : string) : Prop :=
  match rest with
  | String c _ => Ascii.eqb c quote = false
  | EmptyString => True
  end.

(** A digit or one of the marks [parseNumber] deletes. *)
Definition amount_char (c : ascii) : bool := is_digit c || is_money_mark c.

(** The step of the loop over the header in [parseCsv]:
    [data[key] = cols[idx] ?? ""]. *)
Definition assign_column (cols : list string) (data : object)
    (e : nat * string) : object :=
  let '(idx, key) := e in obj_set key (col_or_empty cols idx) data.

End CsvWriter.

(** ** Collapsing strategies *)

Module Toggles.
Import JsString Netting.

(** [toggleStrategy]: nothing for an empty id, otherwise
    [{ ...prev, [strategyId]: !prev[strategyId] }]. *)
Definition toggleStrategy (strategyId : string) (prev : gmap string bool)
  : gmap string bool :=
  if negb (JsString.truthy strategyId) then prev
  else <[strategyId := expanded prev strategyId]> prev.

(** The rows written for the legs of a summarized strategy. *)
Definition is_leg_row (x : display_row) : bool :=
  match x with StrategyLeg _ _ _ => true | _ => false end.

(** The position a row of the table shows, if it shows one. *)
Definition shown (x : display_row) : option position :=
  match x with
  | Plain row => Some row
  | StrategyLeg leg _ _ => Some leg
  | StrategySummary _ => None
  end.

End Toggles.

(** ** What an import sends *)

Module Traffic.
Import JsString ImportFlow.

Definition is_post (e : effect) : bool :=
  match e with Post _ _ => true | _ => false end.

(** What a handler adds to the log: nothing, or one upload and, after it,
    no further upload; nothing at all after an upload that was rejected, and
    a refresh after one that was accepted, the CSV error left as it was. *)
Definition one_upload (respond : list effect -> effect -> response)
    {X : Type} (m : M X) (st : app_state) : Prop :=
  exists new,
    log (after m st) = (log st ++ new)%list /\
    (new = [] \/
     exists url body tail,
       new = Post url body :: tail /\
       forallb (fun e => negb (is_post e)) tail = true /\
       match respond (log st) (Post url body) with
       | Rejected _ => tail = []
       | Resolved _ =>
           In RefreshAll tail /\ csvError (after m st) = csvError st
       end).

End Traffic.

(** ** The watch list *)

Module Watchlist.
Import JsString.

(** The two pieces of state the watch-list handlers touch. *)
Record watch_state : Type := WatchState {
  watchlistInput : string;
  watchlistSymbols : list string
}.

(** [prev.includes(symbol)] *)
Definition listed (symbol : string) (l : list string) : bool :=
  existsb (String.eqb symbol) l.

Definition addWatchSymbol (st : watch_state) : watch_state :=
  let symbol := toUpperCase (trim (watchlistInput st)) in
  if negb (JsString.truthy symbol) then st
  else
    WatchState ""
      (if listed symbol (watchlistSymbols st) then watchlistSymbols st
       else (watchlistSymbols st ++ [symbol])%list).

Definition removeWatchSymbol (symbol : string) (st : watch_state) : watch_state :=
  WatchState (watchlistInput st)
    (List.filter (fun s => negb (String.eqb s symbol)) (watchlistSymbols st)).

End Watchlist.

(** ** Option legs of the trade ticket *)

Module Legs.
Import JsString JsNum Codec.

(** A leg as typed in the ticket: every field is text. *)
Record trade_leg : Type := TradeLeg {
  leg_id : string;
  leg_symbol : string;
  leg_underlying : string;
  leg_expiry : string;
  leg_right : string;
  leg_strike : string;
  leg_side : string;
  leg_qty : string;
  leg_price : string
}.

(** A leg ready to be priced and submitted. *)
Record normalized_leg : Type := NormalizedLeg {
  nl_id : string;
  nl_symbol : string;
  nl_side : string;
  nl_qty : number;
  nl_price : number;
  nl_underlying : string;
  nl_expiry : string;
  nl_option_type : string;
  nl_strike : number
}.

(** [a <= b]; false as soon as one side is NaN. *)
Definition le (a b : number) : bool :=
  match a, b with
  | NaN, _ | _, NaN => false
  | _, _ => negb (lt b a)
  end.

(** [["BUY", "SELL"].includes(side)] *)
Definition is_side (side : string) : bool :=
  String.eqb side "BUY" || String.eqb side "SELL".

(** [rightRaw.startsWith("P") ? "P" : rightRaw.startsWith("C") ? "C" : rightRaw] *)
Definition right_letter_of (rightRaw : string) : string :=
  if startsWith "P" rightRaw then "P"
  else if startsWith "C" rightRaw then "C" else rightRaw.

(** The verdict of [validateLegInputs]: [ok] and [message]. *)
Record verdict : Type := Verdict { ok : bool; message : string }.

(** The checks of [validateLegInputs] on one leg; [None] when it passes. *)
Definition leg_problem (leg : trade_leg) : option string :=
  let side := toUpperCase (JsString.or_else (leg_side leg) "") in
  if negb (is_side side) then Some "Each leg needs BUY or SELL."
  else
    let qty := Number (leg_qty leg) in
    if negb (isFinite qty) || le qty (Fin 0) then Some "Each leg needs a qty > 0."
    else
      let rawSymbol := toUpperCase (trim (leg_symbol leg)) in
      if JsString.truthy rawSymbol then
        match parseOsiSymbol rawSymbol with
        | None => Some ("Invalid OSI symbol: " ++ rawSymbol)
        | Some _ => None
        end
      else
        let underlying := toUpperCase (trim (leg_underlying leg)) in
        let expiry := normalizeExpiryInput (trim (leg_expiry leg)) in
        let rgt := right_letter_of (toUpperCase (trim (leg_right leg))) in
        let strike := Number (leg_strike leg) in
        if negb (JsString.truthy underlying) || negb (JsString.truthy expiry)
           || negb (JsString.truthy rgt) || negb (isFinite strike)
           || le strike (Fin 0)
        then Some "Each leg needs underlying, expiry, right, and strike."
        else None.

(** The loop of [validateLegInputs]: the first leg with a problem decides. *)
Fixpoint first_problem (legs : list trade_leg) : option string :=
  match legs with
  | [] => None
  | leg :: rest =>
      match leg_problem leg with
      | Some msg => Some msg
      | None => first_problem rest
      end
  end.

Definition validateLegInputs (legs : list trade_leg) : verdict :=
  match legs with
  | [] => Verdict false "Add at least one leg."
  | _ =>
      match first_problem legs with
      | Some msg => Verdict false msg
      | None => Verdict true ""
      end
  end.

(** What [normalizeLeg] returns or throws. *)
Inductive outcome : Type :=
| Returned (leg : normalized_leg)
| Thrown (msg : string).

Definition normalizeLeg (leg : trade_leg) (allowMissingPrice : bool) : outcome :=
  let qty := Number (leg_qty leg) in
  let price := Number (leg_price leg) in
  let side := toUpperCase (JsString.or_else (leg_side leg) "") in
  if negb (is_side side) then Thrown "Each leg needs BUY or SELL."
  else if negb (JsNum.truthy qty) || le qty (Fin 0)
  then Thrown "Each leg needs a qty > 0."
  else if (negb (JsNum.truthy price) || le price (Fin 0)) && negb allowMissingPrice
  then Thrown "Each leg needs a limit price > 0 (or Fetch Marks)."
  else
    let rawSymbol := toUpperCase (trim (leg_symbol leg)) in
    if JsString.truthy rawSymbol then
      match parseOsiSymbol rawSymbol with
      | None => Thrown ("Invalid OSI symbol: " ++ rawSymbol)
      | Some parsed =>
          Returned
            (NormalizedLeg (leg_id leg) rawSymbol side qty
               (JsNum.or_else price (Fin 0)) (osi_underlying parsed)
               (osi_expiry parsed) (osi_option_type parsed) (osi_strike parsed))
      end
    else
      let underlying := toUpperCase (trim (leg_underlying leg)) in
      let expiry := normalizeExpiryInput (trim (leg_expiry leg)) in
      let rgt := right_letter_of (toUpperCase (trim (leg_right leg))) in
      let strike := Number (leg_strike leg) in
      if negb (JsString.truthy underlying) || negb (JsString.truthy expiry)
         || negb (JsString.truthy rgt) || negb (JsNum.truthy strike)
      then Thrown "Each leg needs underlying, expiry, right, and strike (or an OSI symbol)."
      else
        let symbol := buildOsiSymbol underlying expiry rgt strike in
        if negb (JsString.truthy symbol)
        then Thrown "Could not build OSI symbol for a leg. Check expiry/right/strike."
        else
          Returned
            (NormalizedLeg (leg_id leg) symbol side qty
               (JsNum.or_else price (Fin 0)) underlying expiry
               (if String.eqb rgt "P" then "PUT" else "CALL") strike).

End Legs.

(** ** Sample legs *)

Module LegSamples.
Import Legs.

(** A leg entered by its fields, with the date as Americans write it. *)
Definition typed_leg : trade_leg :=
  TradeLeg "leg-1" "" " aapl " "01/17/2026" "call" "150" "buy" "2" "".

(** The same kind of leg with a date no format recognises. *)
Definition vague_leg : trade_leg :=
  TradeLeg "leg-2" "" "AAPL" "next friday" "C" "150" "BUY" "1" "".

End LegSamples.

(** ** Canonical header names *)

Module HeaderShape.
Import JsString Regex Csv.

(** Every run of characters satisfying [p] replaced by one underscore;
    [in_run] tells that the run has been written already. *)
Fixpoint squeeze (p : ascii -> bool) (in_run : bool) (s : string) : string :=
  match s with
  | EmptyString => EmptyString
  | String c s' =>
      if p c then
        if in_run then squeeze p true s' else String "_" (squeeze p true s')
      else String c (squeeze p false s')
  end.

(** Without the underscores in front. *)
Fixpoint drop_underscores (s : string) : string :=
  match s with
  | String c s' => if is_underscore c then drop_underscores s' else s
  | EmptyString => EmptyString
  end.

(** Without the underscores at the end. *)
Fixpoint chop_underscores (s : string) : string :=
  match s with
  | EmptyString => EmptyString
  | String c s' =>
      match chop_underscores s' with
      | EmptyString => if is_underscore c then EmptyString else String c EmptyString
      | t => String c t
      end
  end.

(** A lower-case letter, a digit or an underscore. *)
Definition key_char (c : ascii) : bool :=
  is_lower c || is_digit c || is_underscore c.

Definition starts_with_underscore (s : string) : bool :=
  match s with String c _ => is_underscore c | EmptyString => false end.

Fixpoint ends_with_underscore (s : string) : bool :=
  match s with
  | EmptyString => false
  | String c EmptyString => is_underscore c
  | String _ s' => ends_with_underscore s'
  end.

(** No two underscores in a row. *)
Fixpoint isolated (s : string) : bool :=
  match s with
  | String a s' => negb (is_underscore a && starts_with_underscore s') && isolated s'
  | EmptyString => true
  end.

(** A header name in the form [normalizeHeader] gives: lower-case
    letters and digits, in groups joined by single underscores. *)
Definition canonical_key (k : string) : bool :=
  all_chars key_char k && negb (starts_with_underscore k)
  && negb (ends_with_underscore k) && isolated k.

(** [/^_+|_+$/] *)
Definition edges : re :=
  Alt (Seq Bol (plus is_underscore)) (Seq (plus is_underscore) Eol).

End HeaderShape.

(** ** Resetting the portfolio *)

Module Reset.
Import JsString JsNum Regex ImportFlow Legs.

(** What [resetPortfolio] sends and calls. *)
Inductive reset_effect : Type :=
| PostReset (start_cash : number)
| ResetRefreshAll
| ResetFetchNav.

(** The state [resetPortfolio] reads and writes; [reset_log] lists the
    effects issued so far, oldest first. *)
Record reset_state : Type := ResetState {
  resetCash : string;
  reset_toast : string;
  reset_log : list reset_effect
}.

(** The class of [/[$,\\s]/g]: a dollar sign, a comma, a backslash and the
    letter s. *)
Definition is_reset_mark (c : ascii) : bool :=
  Ascii.eqb c "$" || Ascii.eqb c "," || Ascii.eqb c (ascii_of_nat 92)
  || Ascii.eqb c "s".

Definition reset_notify (msg : string) (st : reset_state) : reset_state :=
  ResetState (resetCash st) msg (reset_log st).

Definition reset_emit (e : reset_effect) (st : reset_state) : reset_state :=
  ResetState (resetCash st) (reset_toast st) (reset_log st ++ [e]).

Definition resetPortfolio (respond : list reset_effect -> reset_effect -> response)
    (st : reset_state) : reset_state :=
  if String.eqb (trim (resetCash st)) "" then
    reset_notify "Enter a reset cash value." st
  else
    let cleaned := replace_g (Cls is_reset_mark) "" (resetCash st) in
    let value := Number cleaned in
    if negb (isFinite value) || le value (Fin 0) then
      reset_notify "Reset cash must be > 0." st
    else
      let request := PostReset value in
      match respond (reset_log st) request with
      | Resolved _ =>
          reset_notify "Portfolio reset complete"
            (reset_emit ResetFetchNav
               (reset_emit ResetRefreshAll (reset_emit request st)))
      | Rejected err =>
          reset_notify (nullish (detail err) "Reset failed")
            (reset_emit request st)
      end.

(** A digit or one of the characters the reset form deletes. *)
Definition reset_char (c : ascii) : bool := is_digit c || is_reset_mark c.

End Reset.

(** ** Rows of a statement section *)

Module Recovery.
Import JsString JsNum Regex Csv Extract.

(** The tests that end the inner loop of
    [parseAccountStatementPositions] ([break]): a blank row, a section
    header, a total line. *)
Definition ends_section (row : list string) : bool :=
  negb (has_content row) || isSectionHeader row
  || test total_re (trim (cell row 1)).

(** The tests that pass over a row ([continue]): no symbol, or a quantity
    that is not finite or is zero. *)
Definition passed_over (c : columns) (row : list string) : bool :=
  negb (JsString.truthy (trim (cell row (symbolIdx c))))
  || (negb (isFinite (parseNumber (cell row (qtyIdx c))))
      || strict_eq (parseNumber (cell row (qtyIdx c))) (Fin 0)).

(** The position pushed for a row that is read, and the asset class the
    section has afterwards. *)
Definition pushed (c : columns) (assetClass : string) (row : list string)
  : position_row * string :=
  statement_row c assetClass row (trim (cell row (symbolIdx c)))
    (parseNumber (cell row (qtyIdx c))).

(** The tests of the outer loop on a section row and the header row after
    it: the header names a symbol, a quantity and a price column, and the
    section name holds one of the position labels. *)
Definition opens_section (section headerRow : list string) : bool :=
  let header := map normalizeHeader headerRow in
  has "symbol" header && has "qty" header
  && (has "mark" header || has "last" header || has "trade_price" header
      || has "price" header)
  && existsb (fun label => includes label (toUpperCase (trim (cell section 0))))
       position_sections.

(** The [filter] test of the generic branch, on the row as read from the
    file. *)
Definition usable_record (raw : object) : bool := usable_row (payload_row raw).

End Recovery.

(** * Properties *)

(** ** Facts about strings *)

Module JsStringFacts.
Import JsString.

Lemma code_lt_256 (c : ascii) : (code c < 256)%nat.
Proof. apply nat_ascii_bounded. Qed.

Lemma code_inj (a b : ascii) : code a = code b -> a = b.
Proof.
  unfold code; intros H.
  rewrite <- (ascii_nat_embedding a), <- (ascii_nat_embedding b), H; reflexivity.
Qed.

Lemma code_ascii_of_nat (n : nat) : (n < 256)%nat -> code (ascii_of_nat n) = n.
Proof. apply nat_ascii_embedding. Qed.

Lemma between_true (lo hi : nat) (c : ascii) :
  between lo hi c = true <-> (lo <= code c <= hi)%nat.
Proof.
  unfold between. rewrite andb_true_iff, !Nat.leb_le. tauto.
Qed.

Lemma eqb_code (a b : ascii) : Ascii.eqb a b = (code a =? code b)%nat.
Proof.
  destruct (Ascii.eqb_spec a b) as [->|Hne].
  - symmetry; apply Nat.eqb_refl.
  - symmetry; apply Nat.eqb_neq; intros H; apply Hne, code_inj, H.
Qed.

Lemma length_append (a b : string) :
  String.length (a ++ b) = (String.length a + String.length b)%nat.
Proof. induction a as [|c a IH]; simpl; [reflexivity | now rewrite IH]. Qed.

Lemma append_nil_r (a : string) : a ++ "" = a.
Proof. induction a as [|c a IH]; simpl; [reflexivity | now rewrite IH]. Qed.

Lemma append_assoc (a b c : string) : (a ++ b) ++ c = a ++ b ++ c.
Proof. induction a as [|x a IH]; simpl; [reflexivity | now rewrite IH]. Qed.

Lemma take_append (a b : string) : take (String.length a) (a ++ b) = a.
Proof. induction a as [|c a IH]; simpl; [now destruct b | now rewrite IH]. Qed.

Lemma drop_append (a b : string) : drop (String.length a) (a ++ b) = b.
Proof. induction a as [|c a IH]; simpl; [reflexivity | exact IH]. Qed.

Lemma take_all (a : string) : take (String.length a) a = a.
Proof. induction a as [|c a IH]; simpl; [reflexivity | now rewrite IH]. Qed.

Lemma length_map_chars (f : ascii -> ascii) (s : string) :
  String.length (map_chars f s) = String.length s.
Proof. induction s as [|c s IH]; simpl; [reflexivity | now rewrite IH]. Qed.

Lemma map_chars_nil_inv (f : ascii -> ascii) (s : string) :
  map_chars f s = "" -> s = "".
Proof. destruct s; simpl; [reflexivity | discriminate]. Qed.

Lemma all_chars_append (p : ascii -> bool) (a b : string) :
  all_chars p (a ++ b) = all_chars p a && all_chars p b.
Proof.
  induction a as [|c a IH]; simpl; [reflexivity|].
  now rewrite IH, andb_assoc.
Qed.

Lemma all_chars_impl (p q : ascii -> bool) (s : string) :
  (forall c, p c = true -> q c = true) ->
  all_chars p s = true -> all_chars q s = true.
Proof.
  intros Hpq; induction s as [|c s IH]; simpl; [reflexivity|].
  rewrite !andb_true_iff; intros [Hc Hs]; split; auto.
Qed.

Lemma all_chars_repeat (p : ascii -> bool) (c : ascii) (n : nat) :
  p c = true -> all_chars p (repeat_char c n) = true.
Proof. intros Hc; induction n as [|n IH]; simpl; [reflexivity | now rewrite Hc]. Qed.

Lemma length_repeat_char (c : ascii) (n : nat) :
  String.length (repeat_char c n) = n.
Proof. induction n as [|n IH]; simpl; [reflexivity | now rewrite IH]. Qed.

(** White space and the first and last character of a trimmed string. *)
Lemma trimStart_id (s : string) :
  all_chars (fun c => negb (is_space c)) s = true -> trimStart s = s.
Proof.
  destruct s as [|c s]; simpl; [reflexivity|].
  rewrite andb_true_iff; intros [Hc _].
  now destruct (is_space c).
Qed.

Lemma trimEnd_id (s : string) :
  all_chars (fun c => negb (is_space c)) s = true -> trimEnd s = s.
Proof.
  induction s as [|c s IH]; simpl; [reflexivity|].
  rewrite andb_true_iff; intros [Hc Hs].
  rewrite (IH Hs). destruct s; [|reflexivity].
  now destruct (is_space c).
Qed.

Lemma trim_id (s : string) :
  all_chars (fun c => negb (is_space c)) s = true -> trim s = s.
Proof.
  intros H; unfold trim. rewrite (trimStart_id _ H). now apply trimEnd_id.
Qed.

Lemma get_append_cons (a b : string) (c : ascii) :
  String.get (String.length a) (a ++ String c b) = Some c.
Proof. induction a as [|x a IH]; simpl; [reflexivity | exact IH]. Qed.

End JsStringFacts.

(** ** Facts about the matcher *)

Module RegexFacts.
Import JsString JsStringFacts Regex.

Section Rep.
Context {A : Type}.
Implicit Types (k : option ascii -> string -> option A).

(** A repetition with equal bounds reads exactly that many characters. *)
Lemma rep_exact p n prev a b k :
  String.length a = n -> all_chars p a = true ->
  rep p n (Some n) prev (a ++ b) k = k (last_char a prev) b.
Proof.
  revert n prev. induction a as [|c a IH]; intros n prev Hn Hp.
  - simpl in Hn; subst n. simpl. now destruct b.
  - simpl in Hn; subst n. simpl in Hp. apply andb_true_iff in Hp as [Hc Ha].
    simpl. rewrite Hc. rewrite (IH _ (Some c) eq_refl Ha).
    now destruct (k (last_char a (Some c)) b).
Qed.

Lemma rep_sound p lo hi prev s k x :
  rep p lo hi prev s k = Some x ->
  exists a b, s = a ++ b /\ all_chars p a = true /\
    (lo <= String.length a)%nat /\ within (String.length a) hi /\
    k (last_char a prev) b = Some x.
Proof.
  revert lo hi prev. induction s as [|c s IH]; intros lo hi prev H.
  - exists "", "". simpl in H.
    assert (Hstop : match lo with O => k prev "" | S _ => None end = Some x)
      by (destruct (hi_zero hi); exact H).
    destruct lo; [|discriminate].
    repeat split; simpl; auto. destruct hi; simpl; lia.
  - simpl in H.
    assert (Hstop : match lo with O => k prev (String c s) | S _ => None end = Some x ->
                    exists a b, String c s = a ++ b /\ all_chars p a = true /\
                      (lo <= String.length a)%nat /\ within (String.length a) hi /\
                      k (last_char a prev) b = Some x).
    { intros Hs. destruct lo; [|discriminate].
      exists "", (String c s). repeat split; simpl; auto. destruct hi; simpl; lia. }
    destruct (hi_zero hi) eqn:Hz; [auto|].
    destruct (p c) eqn:Hc; [|auto].
    destruct (rep p (pred lo) (hi_pred hi) (Some c) s k) as [y|] eqn:Hr; [|auto].
    injection H as ->.
    destruct (IH _ _ _ Hr) as (a & b & -> & Ha & Hlo & Hhi & Hk).
    exists (String c a), b. simpl. rewrite Hc, Ha. repeat split; auto; [lia|].
    destruct hi as [[|h]|]; simpl in *; try discriminate; auto. lia.
Qed.

(** Greedy choice: the longest admissible prefix at which the continuation
    succeeds is the one taken. *)
Lemma rep_first p lo hi prev a b k x :
  all_chars p a = true ->
  (lo <= String.length a)%nat -> within (String.length a) hi ->
  k (last_char a prev) b = Some x ->
  (forall a' b', a ++ b = a' ++ b' ->
     (String.length a < String.length a')%nat ->
     k (last_char a' prev) b' = None) ->
  rep p lo hi prev (a ++ b) k = Some x.
Proof.
  revert lo hi prev. induction a as [|c a IH]; intros lo hi prev Hp Hlo Hhi Hk Hlong.
  - simpl in *. assert (lo = O) by lia; subst lo.
    destruct b as [|c b]; simpl.
    + now destruct (hi_zero hi).
    + destruct (hi_zero hi); [exact Hk|].
      destruct (p c) eqn:Hc; [|exact Hk].
      destruct (rep p 0 (hi_pred hi) (Some c) b k) as [y|] eqn:Hr; [|exact Hk].
      destruct (rep_sound _ _ _ _ _ _ _ Hr) as (a1 & b1 & -> & _ & _ & _ & Hk1).
      specialize (Hlong (String c a1) b1 eq_refl). simpl in Hlong.
      rewrite Hlong in Hk1 by lia. discriminate.
  - simpl in Hp. apply andb_true_iff in Hp as [Hc Ha]. simpl in Hlo, Hhi.
    simpl. assert (Hz : hi_zero hi = false).
    { destruct hi as [[|h]|]; simpl in *; auto. lia. }
    rewrite Hz, Hc.
    rewrite (IH (pred lo) (hi_pred hi) (Some c)); auto.
    + lia.
    + destruct hi as [h|]; simpl in *; auto. lia.
    + intros a' b' Heq Hlen. apply (Hlong (String c a') b').
      * simpl. now rewrite Heq.
      * simpl. lia.
Qed.

End Rep.

(** The matcher only succeeds along a path the declarative reading allows. *)
Lemma rmatch_sound {A : Type} (r : re) :
  forall (st : mstate) (k : mstate -> option A) (x : A),
    rmatch r st k = Some x ->
    exists st', matches r st st' /\ k st' = Some x.
Proof.
  induction r as [|p|a IHa b IHb|a IHa b IHb|a IHa|p lo hi|i a IHa| | |];
    intros st k x H; simpl in H.
  - exists st; split; [constructor | exact H].
  - destruct st as [pv s cs]; simpl in H.
    destruct s as [|c s]; [discriminate|].
    destruct (p c) eqn:Hc; [|discriminate].
    eexists; split; [now constructor | exact H].
  - apply IHa in H as (st1 & H1 & H).
    apply IHb in H as (st2 & H2 & H).
    exists st2; split; [econstructor; eauto | exact H].
  - destruct (rmatch a st k) as [y|] eqn:Ha.
    + injection H as ->. apply IHa in Ha as (st1 & H1 & Hk).
      exists st1; split; [now apply M_AltL | exact Hk].
    + apply IHb in H as (st1 & H1 & Hk).
      exists st1; split; [now apply M_AltR | exact Hk].
  - destruct (rmatch a st k) as [y|] eqn:Ha.
    + injection H as ->. apply IHa in Ha as (st1 & H1 & Hk).
      exists st1; split; [now apply M_OptSome | exact Hk].
    + exists st; split; [apply M_OptNone | exact H].
  - apply rep_sound in H as (a & b & Hs & Hp & Hlo & Hhi & Hk).
    eexists; split; [|exact Hk]. now apply M_Rep.
  - apply IHa in H as (st1 & H1 & Hk).
    eexists; split; [|exact Hk]. now constructor.
  - destruct (before st) eqn:Hb; [discriminate|].
    exists st; split; [now constructor | exact H].
  - destruct (rest st) eqn:Hr; [|discriminate].
    exists st; split; [now constructor | exact H].
  - destruct (xorb _ _) eqn:Hx; [|discriminate].
    exists st; split; [now constructor | exact H].
Qed.

Lemma matches_width r st st' :
  matches r st st' ->
  exists w, String.length (rest st) = (w + String.length (rest st'))%nat /\
            (min_width r <= w)%nat /\ within w (max_width r).
Proof.
  induction 1; simpl.
  - exists O; repeat split; simpl; lia.
  - exists 1%nat; repeat split; simpl; lia.
  - destruct IHmatches1 as (w1 & E1 & L1 & U1), IHmatches2 as (w2 & E2 & L2 & U2).
    exists (w1 + w2)%nat; split; [lia|]; split; [lia|].
    destruct (max_width a), (max_width b); simpl in *; auto. lia.
  - destruct IHmatches as (w & E & L & U). exists w; split; [lia|]; split; [lia|].
    destruct (max_width a), (max_width b); simpl in *; auto. lia.
  - destruct IHmatches as (w & E & L & U). exists w; split; [lia|]; split; [lia|].
    destruct (max_width a), (max_width b); simpl in *; auto. lia.
  - destruct IHmatches as (w & E & L & U). exists w; split; [lia|]; split; [lia|auto].
  - exists O; split; [lia|]; split; [lia|].
    destruct (max_width a); simpl; auto. lia.
  - exists (String.length a); split; [|split; auto].
    rewrite H. apply length_append.
  - destruct IHmatches as (w & E & L & U). exists w; auto.
  - exists O; repeat split; simpl; lia.
  - exists O; repeat split; simpl; lia.
  - exists O; repeat split; simpl; lia.
Qed.

Lemma matches_eol r st st' :
  matches r st st' -> ends_with_eol r = true -> rest st' = "".
Proof.
  induction 1; simpl; intros E; try discriminate; auto.
Qed.

(** A fixed-width pattern closed by [$] fails on any text of another
    length. *)
Lemma rmatch_fixed_width {A : Type} r w st (k : mstate -> option A) :
  ends_with_eol r = true -> min_width r = w -> max_width r = Some w ->
  String.length (rest st) <> w ->
  rmatch r st k = None.
Proof.
  intros He Hmin Hmax Hlen.
  destruct (rmatch r st k) as [x|] eqn:H; [|reflexivity].
  apply rmatch_sound in H as (st' & Hm & _).
  pose proof (matches_eol _ _ _ Hm He) as Hr.
  destruct (matches_width _ _ _ Hm) as (w' & E & L & U).
  rewrite Hmax in U; simpl in U. rewrite Hr in E; simpl in E. lia.
Qed.

End RegexFacts.

(** ** Facts about numbers and their decimal form *)

Module JsNumFacts.
Import JsString JsStringFacts JsNum.

Local Open Scope Z_scope.

Lemma code_digit_char (d : Z) :
  0 <= d < 10 -> code (digit_char d) = (48 + Z.to_nat d)%nat.
Proof. intros H. unfold digit_char. apply code_ascii_of_nat. lia. Qed.

Lemma is_digit_digit_char (d : Z) : 0 <= d < 10 -> is_digit (digit_char d) = true.
Proof.
  intros H. apply between_true. rewrite (code_digit_char d H). lia.
Qed.

Lemma digits_value_append (v : Z) (a b : string) :
  digits_value v (a ++ b) = digits_value (digits_value v a) b.
Proof. revert v; induction a as [|c a IH]; intros v; simpl; auto. Qed.

Lemma digits_value_zeros (v : Z) (m : nat) :
  digits_value v (repeat_char "0" m) = v * 10 ^ Z.of_nat m.
Proof.
  revert v; induction m as [|m IH]; intros v.
  - simpl. lia.
  - cbn [repeat_char digits_value]. rewrite IH.
    replace (Z.of_nat (code "0" - 48)) with 0 by reflexivity.
    rewrite Nat2Z.inj_succ, Z.pow_succ_r by lia. lia.
Qed.

Lemma digits_go_spec (fuel : nat) :
  forall n acc, 0 <= n < 2 ^ Z.of_nat fuel ->
  exists ds,
    digits_go fuel n acc = ds ++ acc /\
    all_chars is_digit ds = true /\
    (forall v, digits_value v ds = v * 10 ^ Z.of_nat (String.length ds) + n) /\
    (forall d, (1 <= d)%nat -> n < 10 ^ Z.of_nat d -> (String.length ds <= d)%nat).
Proof.
  induction fuel as [|f IH]; intros n acc Hn.
  - exists "". simpl in *. repeat split; intros; auto; lia.
  - cbn [digits_go]. destruct (n <? 10) eqn:Hlt.
    + apply Z.ltb_lt in Hlt.
      exists (String (digit_char (n mod 10)) ""). rewrite Z.mod_small by lia.
      repeat split.
      * cbn [all_chars]. now rewrite is_digit_digit_char by lia.
      * intros v. cbn [digits_value String.length].
        rewrite code_digit_char by lia. lia.
      * intros d Hd _. cbn [String.length]. lia.
    + apply Z.ltb_ge in Hlt.
      assert (Hdiv : 0 <= n / 10 < 2 ^ Z.of_nat f).
      { rewrite Nat2Z.inj_succ, Z.pow_succ_r in Hn by lia.
        split; [apply Z.div_pos; lia|].
        apply Z.div_lt_upper_bound; lia. }
      destruct (IH (n / 10) (String (digit_char (n mod 10)) acc) Hdiv)
        as (ds & E & Hd & Hv & Hl).
      assert (Hm : 0 <= n mod 10 < 10) by (apply Z.mod_pos_bound; lia).
      exists (ds ++ String (digit_char (n mod 10)) ""). repeat split.
      * rewrite E, append_assoc. reflexivity.
      * rewrite all_chars_append, Hd. cbn [all_chars andb].
        now rewrite is_digit_digit_char.
      * intros v. rewrite digits_value_append, Hv. cbn [digits_value].
        rewrite code_digit_char by lia. rewrite length_append.
        cbn [String.length].
        rewrite Nat2Z.inj_add, Z.pow_add_r by lia.
        pose proof (Z.div_mod n 10 ltac:(lia)).
        change (Z.of_nat 1) with 1. rewrite Z.pow_1_r. lia.
      * intros d Hd1 Hnd. rewrite length_append. cbn [String.length].
        destruct d as [|[|d]]; [lia | change (10 ^ Z.of_nat 1) with 10 in Hnd; lia |].
        assert (String.length ds <= S d)%nat; [|lia].
        apply Hl; [lia|].
        rewrite (Nat2Z.inj_succ (S d)), Z.pow_succ_r in Hnd by lia.
        apply Z.div_lt_upper_bound; lia.
Qed.

Lemma digits_of_spec (n : Z) :
  0 <= n ->
  all_chars is_digit (digits_of n) = true /\
  digits_value 0 (digits_of n) = n /\
  (forall d, (1 <= d)%nat -> n < 10 ^ Z.of_nat d ->
     (String.length (digits_of n) <= d)%nat).
Proof.
  intros Hn. unfold digits_of.
  assert (Hfuel : 0 <= n < 2 ^ Z.of_nat (S (Z.to_nat (Z.log2 n)))).
  { split; [lia|]. rewrite Nat2Z.inj_succ, Z2Nat.id by apply Z.log2_nonneg.
    destruct (Z.eq_dec n 0) as [->|Hne]; [reflexivity|].
    apply Z.log2_spec. lia. }
  destruct (digits_go_spec _ n "" Hfuel) as (ds & E & Hd & Hv & Hl).
  rewrite E, append_nil_r. split; [exact Hd|]. split; [|exact Hl].
  rewrite Hv. lia.
Qed.

(** The zero-padded eight-digit field of an integer below 10^8. *)
Lemma pad8_spec (n : Z) :
  0 <= n < 10 ^ 8 ->
  let f := padStart 8 "0" (digits_of n) in
  String.length f = 8%nat /\ all_chars is_digit f = true /\ digits_value 0 f = n.
Proof.
  intros Hn.
  destruct (digits_of_spec n (proj1 Hn)) as (Hd & Hv & Hl).
  specialize (Hl 8%nat ltac:(lia) (proj2 Hn)).
  unfold padStart. cbv zeta. repeat split.
  - rewrite length_append, length_repeat_char. lia.
  - rewrite all_chars_append, Hd, all_chars_repeat; reflexivity.
  - rewrite digits_value_append, digits_value_zeros. simpl. exact Hv.
Qed.

Local Open Scope Q_scope.

Lemma Qltb_lt (a b : Q) : Qltb a b = true <-> a < b.
Proof.
  unfold Qltb. rewrite Qlt_alt. destruct (a ?= b); split; congruence.
Qed.

Lemma Qltb_ge (a b : Q) : Qltb a b = false <-> b <= a.
Proof.
  rewrite <- not_true_iff_false, Qltb_lt. split; [apply Qnot_lt_le | apply Qle_not_lt].
Qed.

Lemma Qle_bool_false (a b : Q) : Qle_bool a b = false <-> b < a.
Proof.
  rewrite <- not_true_iff_false, Qle_bool_iff.
  split; [apply Qnot_le_lt | apply Qlt_not_le].
Qed.

Lemma fin_proper (p q : Q) : p == q -> fin p = fin q.
Proof.
  intros H. unfold fin, Qltb.
  assert (Ha : Qabs p == Qabs q) by now rewrite H.
  rewrite (Qcompare_comp _ _ H _ _ (Qeq_refl 0)).
  rewrite (Qleb_comp _ _ (Qeq_refl _) _ _ Ha), (Qleb_comp _ _ Ha _ _ (Qeq_refl _)).
  destruct (Qle_bool overflow_bound (Qabs q)); [reflexivity|].
  destruct (Qle_bool (Qabs q) underflow_bound); [reflexivity|].
  f_equal. now apply Qred_complete.
Qed.

Lemma overflow_bound_big : inject_Z (10 ^ 8) < overflow_bound.
Proof. unfold overflow_bound. rewrite <- Zlt_Qlt. reflexivity. Qed.

Lemma underflow_bound_small : underflow_bound < 1 # 2.
Proof. reflexivity. Qed.

Lemma fin_in_range (q : Q) :
  Qabs q < overflow_bound -> underflow_bound < Qabs q -> fin q = Fin (Qred q).
Proof.
  intros Ho Hu. unfold fin.
  now rewrite (proj2 (Qle_bool_false _ _) Ho), (proj2 (Qle_bool_false _ _) Hu).
Qed.

Lemma Qabs_inject_Z (k : Z) : Qabs (inject_Z k) = inject_Z (Z.abs k).
Proof. reflexivity. Qed.

Lemma Qred_inject_Z (k : Z) : Qred (inject_Z k) = inject_Z k.
Proof.
  unfold Qred, inject_Z.
  pose proof (Z.ggcd_gcd k 1) as Hg.
  pose proof (Z.ggcd_correct_divisors k 1) as Hd.
  destruct (Z.ggcd k 1) as (g, (aa, bb)). simpl in Hg, Hd |- *.
  rewrite Z.gcd_1_r in Hg. subst g. destruct Hd as [H1 H2].
  replace aa with k by lia. replace bb with 1%Z by lia. reflexivity.
Qed.

Lemma of_Z_small (k : Z) : (0 <= k < 10 ^ 8)%Z -> of_Z k = Fin (inject_Z k).
Proof.
  intros Hk. unfold of_Z.
  destruct (Z.eq_dec k 0%Z) as [->|Hne]; [vm_compute; reflexivity|].
  rewrite fin_in_range, Qred_inject_Z; auto.
  - rewrite Qabs_inject_Z. eapply Qle_lt_trans; [|apply overflow_bound_big].
    rewrite <- Zle_Qle. lia.
  - rewrite Qabs_inject_Z. eapply Qlt_le_trans; [apply underflow_bound_small|].
    apply Qle_trans with (inject_Z 1); [discriminate|].
    rewrite <- Zle_Qle. lia.
Qed.

Lemma fraction_digits_zero (n : nat) (q : Q) :
  q == 0 -> fraction_digits n q = repeat_char "0" n.
Proof.
  revert q; induction n as [|n IH]; intros q Hq; [reflexivity|].
  cbn [fraction_digits repeat_char].
  assert (E : Qred (q * 10) = 0).
  { change 0 with (Qred 0). apply Qred_complete. rewrite Hq. reflexivity. }
  rewrite E. change (Qfloor 0) with 0%Z. change (digit_char 0) with "0"%char.
  f_equal. apply IH. reflexivity.
Qed.

Lemma strip_trailing_zeros_repeat (n : nat) :
  strip_trailing_zeros (repeat_char "0" n) = "".
Proof. induction n as [|n IH]; simpl; [reflexivity | now rewrite IH]. Qed.

(** Integers in the range of a strike field print as their digits. *)
Lemma toString_small (k : Z) :
  (0 <= k < 10 ^ 8)%Z -> toString (Fin (inject_Z k)) = digits_of k.
Proof.
  intros Hk. unfold toString.
  rewrite Qabs_inject_Z, Z.abs_eq, Qfloor_Z by lia.
  rewrite fraction_digits_zero by (unfold Qminus; apply Qplus_opp_r).
  rewrite strip_trailing_zeros_repeat.
  assert (Hs : Qltb (inject_Z k) 0 = false).
  { apply Qltb_ge. change 0 with (inject_Z 0). rewrite <- Zle_Qle. lia. }
  rewrite Hs. unfold nonneg_int_toString.
  assert (Hlt : (k <? 10 ^ 21)%Z = true) by (apply Z.ltb_lt; lia).
  rewrite Hlt. cbn [JsString.truthy]. simpl. apply append_nil_r.
Qed.

(** Rounding a strike times one thousand. *)
Lemma round_scaled (q : Q) (k : Z) :
  k = Qfloor (q * 1000 + (1 # 2)) -> (0 <= k < 10 ^ 8)%Z ->
  Math_round (mul (Fin q) (Fin 1000)) = Fin (inject_Z k).
Proof.
  intros Ek Hk. cbn [mul]. set (x := q * 1000) in *.
  pose proof (Qfloor_le (x + (1 # 2))) as Hlo.
  pose proof (Qlt_floor (x + (1 # 2))) as Hhi.
  rewrite <- Ek in Hlo, Hhi. rewrite inject_Z_plus in Hhi.
  change (inject_Z 1) with 1 in Hhi.
  assert (H0 : 0 <= inject_Z k)
    by (change 0 with (inject_Z 0); rewrite <- Zle_Qle; lia).
  assert (H8 : inject_Z k <= 99999999)
    by (change 99999999 with (inject_Z 99999999); rewrite <- Zle_Qle; lia).
  assert (Hx1 : - (1 # 2) <= x) by lra.
  assert (Hx2 : x < 100000000) by lra.
  assert (Habs : Qabs x < overflow_bound).
  { eapply Qlt_trans; [|apply overflow_bound_big].
    change (inject_Z (10 ^ 8)) with 100000000.
    apply Qabs_case; intros _; lra. }
  unfold fin. rewrite (proj2 (Qle_bool_false _ _) Habs).
  destruct (Qle_bool (Qabs x) underflow_bound) eqn:Hu.
  - apply Qle_bool_iff in Hu.
    assert (Hk0 : k = 0%Z).
    { assert (Hlt1 : inject_Z k < inject_Z 1).
      { pose proof underflow_bound_small as Hs. pose proof (Qle_Qabs x) as Hq.
        change (inject_Z 1) with 1. lra. }
      rewrite <- Zlt_Qlt in Hlt1. lia. }
    rewrite Hk0. vm_compute. reflexivity.
  - cbn [Math_round].
    assert (E : Qfloor (Qred x + (1 # 2)) = k).
    { rewrite Ek. apply Qfloor_comp. now rewrite Qred_correct. }
    rewrite E. now apply of_Z_small.
Qed.

Lemma class_sep (p : ascii -> bool) (c x : ascii) :
  p c = true -> p x = false -> Ascii.eqb c x = false.
Proof.
  intros Hc Hx. destruct (Ascii.eqb_spec c x) as [->|]; congruence.
Qed.

Lemma digit_not_space (c : ascii) : is_digit c = true -> negb (is_space c) = true.
Proof.
  unfold is_digit, is_space. rewrite !between_true.
  intros H. apply negb_true_iff, orb_false_iff. split.
  - apply not_true_iff_false. rewrite between_true. lia.
  - apply Nat.eqb_neq. lia.
Qed.

Lemma span_all (p : ascii -> bool) (s : string) :
  all_chars p s = true -> span p s = (s, "").
Proof.
  induction s as [|c s IH]; simpl; [reflexivity|].
  rewrite andb_true_iff; intros [Hc Hs]. now rewrite Hc, (IH Hs).
Qed.

(** [Number] on a non-empty run of digits is its decimal value. *)
Lemma Number_digits (t : string) :
  t <> "" -> all_chars is_digit t = true ->
  Number t = of_Z (digits_value 0 t).
Proof.
  intros Hne Hd. unfold Number.
  rewrite trim_id by (eapply all_chars_impl; [apply digit_not_space | exact Hd]).
  destruct t as [|c t]; [congruence|]. cbn [JsString.truthy negb].
  pose proof Hd as Hd'. cbn [all_chars] in Hd'. apply andb_true_iff in Hd' as [Hc Ht].
  assert (Hrp : radix_prefix (String c t) = None).
  { cbn [radix_prefix]. destruct t as [|r ds]; [reflexivity|].
    destruct (Ascii.eqb c "0" && JsString.truthy ds); [|reflexivity].
    cbn [all_chars] in Ht. apply andb_true_iff in Ht as [Hr _].
    unfold radix_of.
    now rewrite !(class_sep is_digit r _ Hr) by reflexivity. }
  rewrite Hrp. unfold parse_signed_decimal, split_sign.
  rewrite !(class_sep is_digit c _ Hc) by reflexivity.
  assert (Hinf : String.eqb (String c t) "Infinity" = false).
  { cbn [String.eqb]. now rewrite (class_sep is_digit c _ Hc) by reflexivity. }
  rewrite Hinf. unfold parse_unsigned_decimal.
  rewrite (span_all _ _ Hd). cbn [JsString.truthy orb parse_exponent].
  unfold of_Z. apply fin_proper.
  rewrite append_nil_r. cbn [String.length]. change (pow10 (0 - Z.of_nat 0)) with 1.
  apply Qmult_1_r.
Qed.

End JsNumFacts.

(** ** The contract symbol codec *)

Module CodecFacts.
Import JsString JsStringFacts JsNum JsNumFacts Regex RegexFacts Codec.

Lemma or_else_empty (a : string) : JsString.or_else a "" = a.
Proof. now destruct a. Qed.

Lemma truthy_false (a : string) : JsString.truthy a = false <-> a = "".
Proof. destruct a; simpl; split; congruence. Qed.

Lemma toUpperCase_empty (a : string) : toUpperCase a = "" <-> a = "".
Proof. unfold toUpperCase. destruct a; simpl; split; congruence. Qed.

Lemma append_empty (a b : string) : a ++ b = "" -> a = "".
Proof. destruct a; simpl; [reflexivity | discriminate]. Qed.

(** When no guard fires the symbol is the four fields in a row. *)
Lemma build_fields (u e r : string) (s : number) :
  trim u <> "" -> trim e <> "" -> r <> "" -> isFinite s = true ->
  String.length (compact_date e) = 6%nat ->
  buildOsiSymbol u e r s =
    toUpperCase (trim u) ++ compact_date e ++ right_letter r ++ strike_field s.
Proof.
  intros Hu He Hr Hs Hd. unfold buildOsiSymbol. rewrite !or_else_empty.
  assert (Tu : JsString.truthy (toUpperCase (trim u)) = true).
  { apply not_false_iff_true. rewrite truthy_false, toUpperCase_empty. exact Hu. }
  assert (Te : JsString.truthy (trim e) = true)
    by (apply not_false_iff_true; now rewrite truthy_false).
  assert (Tr : JsString.truthy r = true)
    by (apply not_false_iff_true; now rewrite truthy_false).
  rewrite Tu, Te, Tr, Hs. cbn [negb orb].
  fold (compact_date e). rewrite Hd. reflexivity.
Qed.

Lemma build_failure_iff (u e r : string) (s : number) :
  buildOsiSymbol u e r s = "" <->
  trim u = "" \/ trim e = "" \/ r = "" \/ isFinite s = false \/
  String.length (compact_date e) <> 6%nat.
Proof.
  split.
  - intros H.
    destruct (string_dec (trim u) "") as [|Hu]; [auto|].
    destruct (string_dec (trim e) "") as [|He]; [auto|].
    destruct (string_dec r "") as [|Hr]; [auto|].
    destruct (isFinite s) eqn:Hs; [|auto].
    destruct (Nat.eq_dec (String.length (compact_date e)) 6) as [Hd|]; [|auto 6].
    rewrite build_fields in H by assumption.
    apply append_empty in H. apply (proj1 (toUpperCase_empty _)) in H.
    contradiction.
  - unfold buildOsiSymbol. rewrite !or_else_empty. fold (compact_date e).
    intros [H|[H|[H|[H|H]]]].
    + rewrite H. reflexivity.
    + rewrite H. cbn [JsString.truthy negb orb]. now rewrite orb_true_r.
    + rewrite H. cbn [JsString.truthy negb orb]. now rewrite !orb_true_r.
    + rewrite H. cbn [negb]. now rewrite !orb_true_r.
    + destruct (_ || _); [reflexivity|].
      apply Nat.eqb_neq in H. now rewrite H.
Qed.

(** *** Character classes under case mapping and trimming *)

Lemma upper_alnum_not_lower (c : ascii) :
  is_upper_alnum c = true -> is_lower c = false.
Proof.
  unfold is_upper_alnum, is_upper, is_digit, is_lower.
  rewrite orb_true_iff, !between_true. intros H.
  apply not_true_iff_false. rewrite between_true. lia.
Qed.

Lemma upper_alnum_not_space (c : ascii) :
  is_upper_alnum c = true -> negb (is_space c) = true.
Proof.
  unfold is_upper_alnum, is_upper, is_digit, is_space.
  rewrite orb_true_iff, !between_true. intros H.
  apply negb_true_iff, orb_false_iff. split.
  - apply not_true_iff_false. rewrite between_true. lia.
  - apply Nat.eqb_neq. lia.
Qed.

Lemma alnum_not_space (c : ascii) : is_alnum c = true -> negb (is_space c) = true.
Proof.
  unfold is_alnum, is_alpha, is_upper, is_lower, is_digit, is_space.
  rewrite !orb_true_iff, !between_true. intros H.
  apply negb_true_iff, orb_false_iff. split.
  - apply not_true_iff_false. rewrite between_true. lia.
  - apply Nat.eqb_neq. lia.
Qed.

Lemma upper_char_alnum (c : ascii) :
  is_alnum c = true -> is_upper_alnum (upper_char c) = true.
Proof.
  unfold upper_char. destruct (is_lower c) eqn:Hl.
  - intros _. apply between_true in Hl.
    unfold is_upper_alnum, is_upper. apply orb_true_iff; left.
    apply between_true. rewrite code_ascii_of_nat by lia. lia.
  - unfold is_alnum, is_alpha, is_upper_alnum. rewrite Hl, orb_false_r. auto.
Qed.

Lemma toUpperCase_alnum (s : string) :
  all_chars is_alnum s = true -> all_chars is_upper_alnum (toUpperCase s) = true.
Proof.
  unfold toUpperCase. induction s as [|c s IH]; cbn [map_chars all_chars];
    [reflexivity|].
  rewrite !andb_true_iff. intros [Hc Hs]. split; [now apply upper_char_alnum | auto].
Qed.

Lemma toUpperCase_fixed (s : string) :
  all_chars is_upper_alnum s = true -> toUpperCase s = s.
Proof.
  unfold toUpperCase. induction s as [|c s IH]; cbn [map_chars all_chars];
    [reflexivity|].
  rewrite andb_true_iff. intros [Hc Hs]. rewrite (IH Hs). f_equal.
  unfold upper_char. now rewrite (upper_alnum_not_lower c Hc).
Qed.

Lemma digit_upper_alnum (c : ascii) : is_digit c = true -> is_upper_alnum c = true.
Proof. unfold is_upper_alnum. intros ->. apply orb_true_r. Qed.

Lemma cp_upper_alnum (c : ascii) : is_cp c = true -> is_upper_alnum c = true.
Proof.
  unfold is_cp. rewrite orb_true_iff. intros [H|H];
    apply Ascii.eqb_eq in H; subst c; reflexivity.
Qed.

(** *** Dates of this century in ISO form *)

Lemma compact_date_iso20 (y1 y2 m1 m2 d1 d2 : ascii) :
  all_chars is_digit (six y1 y2 m1 m2 d1 d2) = true ->
  compact_date (iso20 y1 y2 m1 m2 d1 d2) = six y1 y2 m1 m2 d1 d2.
Proof.
  cbn [six all_chars]. rewrite !andb_true_iff.
  intros (Hy1 & Hy2 & Hm1 & Hm2 & Hd1 & Hd2 & _).
  unfold compact_date. rewrite trim_id.
  - unfold replaceAll, iso20. cbn [String.append String.length].
    cbn [replaceAll_go startsWith drop String.length].
    assert (Hne : forall c, is_digit c = true -> Ascii.eqb "-" c = false).
    { intros c Hc. rewrite eqb_code, Nat.eqb_sym, <- eqb_code.
      now apply (class_sep is_digit). }
    repeat first
      [ progress rewrite ?(Hne y1 Hy1), ?(Hne y2 Hy2), ?(Hne m1 Hm1),
          ?(Hne m2 Hm2), ?(Hne d1 Hd1), ?(Hne d2 Hd2)
      | progress cbn ].
    reflexivity.
  - unfold iso20. cbn [String.append all_chars].
    rewrite (digit_not_space y1 Hy1), (digit_not_space y2 Hy2),
      (digit_not_space m1 Hm1), (digit_not_space m2 Hm2),
      (digit_not_space d1 Hd1), (digit_not_space d2 Hd2).
    reflexivity.
Qed.

Lemma trim_iso20 (y1 y2 m1 m2 d1 d2 : ascii) :
  all_chars is_digit (six y1 y2 m1 m2 d1 d2) = true ->
  trim (iso20 y1 y2 m1 m2 d1 d2) = iso20 y1 y2 m1 m2 d1 d2.
Proof.
  cbn [six all_chars]. rewrite !andb_true_iff.
  intros (Hy1 & Hy2 & Hm1 & Hm2 & Hd1 & Hd2 & _).
  apply trim_id. unfold iso20. cbn [String.append all_chars].
  rewrite (digit_not_space y1 Hy1), (digit_not_space y2 Hy2),
    (digit_not_space m1 Hm1), (digit_not_space m2 Hm2),
    (digit_not_space d1 Hd1), (digit_not_space d2 Hd2).
  reflexivity.
Qed.

(** *** Matching a well-formed symbol *)

Lemma exec_here (r : re) (s : string) (st : mstate) :
  match_here r None s = Some st -> exec r s = Some st.
Proof. unfold exec. intros H. destruct s; simpl; now rewrite H. Qed.

Lemma consumed_append (pv pv' : option ascii) (a b : string)
    (cs cs' : list (nat * string)) :
  consumed (MState pv (a ++ b) cs) (MState pv' b cs') = a.
Proof.
  unfold consumed. cbn [rest]. rewrite length_append.
  replace (String.length a + String.length b - String.length b)%nat
    with (String.length a) by lia.
  apply take_append.
Qed.

Section Steps.
Context {A : Type}.
Implicit Types (k : mstate -> option A).

Lemma rmatch_seq a b st k :
  rmatch (Seq a b) st k = rmatch a st (fun st' => rmatch b st' k).
Proof. reflexivity. Qed.

(** A capture group of fixed width reads its text and records it. *)
Lemma rmatch_grp_exact i p n pv a b cs k :
  String.length a = n -> all_chars p a = true ->
  rmatch (Grp i (times p n)) (MState pv (a ++ b) cs) k =
    k (MState (last_char a pv) b ((i, a) :: cs)).
Proof.
  intros Hn Hp. cbn [rmatch times before rest caps].
  rewrite (rep_exact p n pv a b _ Hn Hp).
  unfold set_cap. cbn [before rest caps]. now rewrite consumed_append.
Qed.

Lemma rmatch_grp_cls i p pv c s cs k :
  p c = true ->
  rmatch (Grp i (Cls p)) (MState pv (String c s) cs) k =
    k (MState (Some c) s ((i, String c "") :: cs)).
Proof.
  intros Hc. cbn [rmatch rest caps]. rewrite Hc.
  unfold set_cap. cbn [before rest caps].
  pose proof (consumed_append pv (Some c) (String c "") s cs cs) as E.
  cbn [String.append] in E. now rewrite E.
Qed.

(** A greedy capture group settles on the longest prefix after which the
    rest of the pattern succeeds. *)
Lemma rmatch_grp_first i p lo hi pv a b cs k x :
  all_chars p a = true ->
  (lo <= String.length a)%nat -> within (String.length a) hi ->
  k (MState (last_char a pv) b ((i, a) :: cs)) = Some x ->
  (forall a' b' st', a ++ b = a' ++ b' ->
     (String.length a < String.length a')%nat -> rest st' = b' ->
     k st' = None) ->
  rmatch (Grp i (Rep p lo hi)) (MState pv (a ++ b) cs) k = Some x.
Proof.
  intros Hp Hlo Hhi Hk Hlong. cbn [rmatch before rest caps].
  apply rep_first; auto.
  - unfold set_cap. cbn [before rest caps]. now rewrite consumed_append.
  - intros a' b' Heq Hlen. now apply (Hlong a' b').
Qed.

End Steps.

Lemma osi_match (U D F : string) (rc : ascii) :
  (1 <= String.length U <= 6)%nat -> all_chars is_upper_alnum U = true ->
  String.length D = 6%nat -> all_chars is_digit D = true ->
  is_cp rc = true ->
  String.length F = 8%nat -> all_chars is_digit F = true ->
  exec osi_re (U ++ D ++ String rc F) =
    Some (MState (last_char F (Some rc)) ""
            [(4, F); (3, String rc ""); (2, D); (1, U)]%nat).
Proof.
  intros HU HUa HD HDa Hrc HF HFa.
  apply exec_here. unfold match_here.
  change (rmatch osi_re (MState None (U ++ D ++ String rc F) []) Some)
    with (rmatch (Grp 1 (Rep is_upper_alnum 1 (Some 6)))
            (MState None (U ++ D ++ String rc F) [])
            (fun st' => rmatch osi_tail st' Some)).
  apply rmatch_grp_first; [exact HUa | lia | simpl; lia | |].
  - unfold osi_tail. cbn [seq].
    rewrite rmatch_seq, (rmatch_grp_exact 2 is_digit 6) by assumption.
    rewrite rmatch_seq, (rmatch_grp_cls 3) by assumption.
    rewrite rmatch_seq. rewrite <- (append_nil_r F) at 1.
    rewrite (rmatch_grp_exact 4 is_digit 8) by assumption.
    reflexivity.
  - intros a' b' st' Heq Hlen Hrest.
    apply (rmatch_fixed_width osi_tail 15); try reflexivity.
    rewrite Hrest. apply (f_equal String.length) in Heq.
    rewrite !length_append in Heq. cbn [String.length] in Heq. lia.
Qed.

(** Parsing the four fields written in a row. *)
Lemma parse_fields (U F : string) (y1 y2 m1 m2 d1 d2 rc : ascii) :
  (1 <= String.length U <= 6)%nat -> all_chars is_upper_alnum U = true ->
  all_chars is_digit (six y1 y2 m1 m2 d1 d2) = true ->
  is_cp rc = true ->
  String.length F = 8%nat -> all_chars is_digit F = true ->
  parseOsiSymbol (U ++ six y1 y2 m1 m2 d1 d2 ++ String rc F) =
    Some (Osi U (iso20 y1 y2 m1 m2 d1 d2)
              (if Ascii.eqb rc "C" then "CALL" else "PUT")
              (div (of_Z (digits_value 0 F)) (Fin 1000))).
Proof.
  intros HU HUa HDa Hrc HF HFa. unfold parseOsiSymbol.
  set (D := six y1 y2 m1 m2 d1 d2) in *.
  assert (Hall : all_chars is_upper_alnum (U ++ D ++ String rc F) = true).
  { rewrite !all_chars_append. cbn [all_chars].
    rewrite HUa, (cp_upper_alnum rc Hrc).
    rewrite (all_chars_impl _ _ D digit_upper_alnum HDa).
    now rewrite (all_chars_impl _ _ F digit_upper_alnum HFa). }
  rewrite trim_id
    by (eapply all_chars_impl; [apply upper_alnum_not_space | exact Hall]).
  rewrite (toUpperCase_fixed _ Hall).
  rewrite (osi_match U D F rc) by (auto; reflexivity).
  unfold group. cbn [caps lookup_cap Nat.eqb].
  rewrite Number_digits; [|destruct F; [discriminate HF | discriminate] | exact HFa].
  f_equal. f_equal.
  cbn [String.eqb]. now destruct (Ascii.eqb rc "C").
Qed.

(** The thousandths of a strike that is not negative. *)
Lemma thousandths_nonneg (q : Q) :
  (0 <= q)%Q -> (0 <= Qfloor (q * 1000 + (1 # 2)))%Z.
Proof.
  intros Hq. change 0%Z with (Qfloor 0). apply Qfloor_resp_le. lra.
Qed.

(** The strike field of a strike that is not negative: eight digits that
    spell its rounded thousandths. *)
Lemma strike_field_digits (q : Q) :
  (0 <= q)%Q -> (Qfloor (q * 1000 + (1 # 2)) < 10 ^ 8)%Z ->
  String.length (strike_field (Fin q)) = 8%nat /\
  all_chars is_digit (strike_field (Fin q)) = true /\
  digits_value 0 (strike_field (Fin q)) = Qfloor (q * 1000 + (1 # 2)).
Proof.
  intros Hq Hk.
  assert (Hr : (0 <= Qfloor (q * 1000 + (1 # 2)) < 10 ^ 8)%Z)
    by (split; [now apply thousandths_nonneg | exact Hk]).
  unfold strike_field. rewrite (round_scaled q _ eq_refl Hr).
  rewrite toString_small by exact Hr. exact (pad8_spec _ Hr).
Qed.

Lemma build_guard_fails (u e r : string) (s : number) :
  trim u = "" \/ trim e = "" \/ r = "" \/ isFinite s = false \/
  String.length (compact_date e) <> 6%nat ->
  buildOsiSymbol u e r s = "".
Proof. exact (proj2 (build_failure_iff u e r s)). Qed.

Lemma build_finite_failure (u e r : string) (q : Q) :
  buildOsiSymbol u e r (Fin q) = "" <->
  trim u = "" \/ trim e = "" \/ r = "" \/
  String.length (compact_date e) <> 6%nat.
Proof.
  rewrite build_failure_iff. cbn [isFinite].
  split; [intros [H|[H|[H|[H|H]]]]; auto; discriminate | intros [H|[H|[H|H]]]; auto 6].
Qed.

End CodecFacts.

Module CodecClaims.
Import JsString JsStringFacts JsNum JsNumFacts Regex RegexFacts Codec CodecFacts.

(** Claim C1, as amended.  For an underlying of one to six letters or
    digits, an expiry [20YY-MM-DD], a non-empty right and a finite strike
    whose thousandths round to an integer [k] with [0 <= k < 10^8],
    [parseOsiSymbol] of the built symbol succeeds; it returns the underlying
    in upper case, the expiry, PUT when the right is the single letter P (in
    either case) and CALL for every other right, and the strike
    [Math.round(strike * 1000) / 1000]. *)
Theorem osi_round_trip (u r : string) (y1 y2 m1 m2 d1 d2 : ascii) (q : Q) :
  (1 <= String.length u <= 6)%nat ->
  all_chars is_alnum u = true ->
  all_chars is_digit (six y1 y2 m1 m2 d1 d2) = true ->
  r <> "" ->
  (0 <= Qfloor (q * 1000 + (1 # 2)) < 10 ^ 8)%Z ->
  parseOsiSymbol (buildOsiSymbol u (iso20 y1 y2 m1 m2 d1 d2) r (Fin q)) =
    Some (Osi (toUpperCase u) (iso20 y1 y2 m1 m2 d1 d2)
              (if String.eqb (toUpperCase r) "P" then "PUT" else "CALL")
              (div (Math_round (mul (Fin q) (Fin 1000))) (Fin 1000))).
Proof.
  intros Hlen Hu Hd Hr Hk.
  set (k := Qfloor (q * 1000 + (1 # 2))) in *.
  assert (Htu : trim u = u)
    by (apply trim_id; eapply all_chars_impl; [apply alnum_not_space | exact Hu]).
  assert (Hune : u <> "") by (destruct u; [simpl in Hlen; lia | discriminate]).
  rewrite build_fields.
  - rewrite Htu, compact_date_iso20 by exact Hd.
    unfold strike_field. rewrite (round_scaled q k eq_refl Hk).
    rewrite toString_small by exact Hk.
    destruct (pad8_spec k Hk) as (HF & HFa & HFv).
    unfold right_letter.
    destruct (String.eqb (toUpperCase r) "P");
      cbn [String.append];
      (rewrite parse_fields;
       [ rewrite HFv, of_Z_small by exact Hk; reflexivity
       | unfold toUpperCase; rewrite length_map_chars; exact Hlen
       | now apply toUpperCase_alnum
       | exact Hd | reflexivity | exact HF | exact HFa ]).
  - now rewrite Htu.
  - rewrite trim_iso20 by exact Hd. discriminate.
  - exact Hr.
  - reflexivity.
  - now rewrite compact_date_iso20.
Qed.

Lemma osi_round_trip_witness :
  parseOsiSymbol (buildOsiSymbol "aapl" "2026-01-17" "p" (Fin (3011 # 20))) =
    Some (Osi "AAPL" "2026-01-17" "PUT" (Fin (3011 # 20))).
Proof.
  apply (osi_round_trip "aapl" "p" "2" "6" "0" "1" "1" "7" (3011 # 20));
    first [ discriminate | reflexivity | vm_compute; split; [discriminate | reflexivity] | simpl; lia ].
Defined.

(** Claim C1 as stated fails: with the right spelled PUT the symbol built is
    a call, and parsing it returns CALL. *)
Lemma osi_round_trip_counterexample :
  buildOsiSymbol "AAPL" "2026-01-17" "PUT" (Fin 150) = "AAPL260117C00150000" /\
  parseOsiSymbol (buildOsiSymbol "AAPL" "2026-01-17" "PUT" (Fin 150)) =
    Some (Osi "AAPL" "2026-01-17" "CALL" (Fin 150)).
Proof. split; vm_compute; reflexivity. Qed.

(** Claim C8, as amended.  [buildOsiSymbol] returns its failure value, the
    empty string, whenever the underlying or the expiry is empty after
    trimming, the right is empty, the strike is not finite, or the expiry
    without its dashes and its first two characters is not six characters
    long.  For a finite strike that is zero or positive, with rounded
    thousandths below [10^8], these are the only failures: in every other
    case the symbol is built, and its strike field is the eight digits that
    spell [Math.round(strike * 1000)].  A zero strike builds the field
    [00000000]. *)
Theorem build_fails_on_missing_parts (u e r : string) :
  (forall s,
     trim u = "" \/ trim e = "" \/ r = "" \/ isFinite s = false \/
     String.length (compact_date e) <> 6%nat ->
     buildOsiSymbol u e r s = "") /\
  (forall q,
     (0 <= q)%Q -> (Qfloor (q * 1000 + (1 # 2)) < 10 ^ 8)%Z ->
     (buildOsiSymbol u e r (Fin q) = "" <->
        trim u = "" \/ trim e = "" \/ r = "" \/
        String.length (compact_date e) <> 6%nat) /\
     (buildOsiSymbol u e r (Fin q) <> "" ->
        buildOsiSymbol u e r (Fin q) =
          toUpperCase (trim u) ++ compact_date e ++ right_letter r
            ++ strike_field (Fin q) /\
        String.length (strike_field (Fin q)) = 8%nat /\
        all_chars is_digit (strike_field (Fin q)) = true /\
        digits_value 0 (strike_field (Fin q)) = Qfloor (q * 1000 + (1 # 2)))) /\
  (buildOsiSymbol u e r (Fin 0) <> "" ->
     buildOsiSymbol u e r (Fin 0) =
       toUpperCase (trim u) ++ compact_date e ++ right_letter r ++ "00000000").
Proof.
  assert (Hb : forall q, buildOsiSymbol u e r (Fin q) <> "" ->
            buildOsiSymbol u e r (Fin q) =
              toUpperCase (trim u) ++ compact_date e ++ right_letter r
                ++ strike_field (Fin q)).
  { intros q Hne.
    destruct (Nat.eq_dec (String.length (compact_date e)) 6) as [Hd|Hd];
      [|exfalso; apply Hne, build_finite_failure; auto].
    apply build_fields; [| | | reflexivity | exact Hd];
      intros H; apply Hne, build_finite_failure; auto. }
  split; [|split].
  - intros s. apply build_guard_fails.
  - intros q Hq Hk. split; [apply build_finite_failure|].
    intros Hne. split; [now apply Hb|]. now apply strike_field_digits.
  - intros Hne. now apply Hb.
Qed.

Lemma build_fails_on_missing_parts_witness :
  buildOsiSymbol "AAPL" "2026-01-17" "C" NaN = "" /\
  buildOsiSymbol "AAPL" "  " "C" (Fin 150) = "" /\
  String.length (strike_field (Fin (3011 # 20))) = 8%nat /\
  buildOsiSymbol "AAPL" "2026-01-17" "C" (Fin 0) = "AAPL260117C00000000".
Proof.
  split; [|split; [|split]].
  - apply (proj1 (build_fails_on_missing_parts "AAPL" "2026-01-17" "C") NaN).
    right; right; right; left. reflexivity.
  - apply (proj1 (build_fails_on_missing_parts "AAPL" "  " "C") (Fin 150)).
    right; left. reflexivity.
  - refine (proj1 (proj2 (proj2 (proj1 (proj2
              (build_fails_on_missing_parts "AAPL" "2026-01-17" "P"))
              (3011 # 20) _ _) _))).
    + unfold Qle; simpl; lia.
    + vm_compute; reflexivity.
    + vm_compute; discriminate.
  - apply (proj2 (proj2 (build_fails_on_missing_parts "AAPL" "2026-01-17" "C"))).
    vm_compute; discriminate.
Defined.

(** Claim C8 as stated fails: a zero strike is a strike like another.  The
    symbol is built, with the strike field [00000000], and
    [parseOsiSymbol] reads it back. *)
Lemma build_zero_strike_counterexample :
  buildOsiSymbol "AAPL" "2026-01-17" "C" (Fin 0) = "AAPL260117C00000000" /\
  parseOsiSymbol "AAPL260117C00000000"
    = Some (Osi "AAPL" "2026-01-17" "CALL" (Fin 0)).
Proof. split; vm_compute; reflexivity. Qed.

(** A negative strike is outside the claim as amended.  [buildOsiSymbol]
    does not test the sign, and [padStart] then pads a text that starts with
    a minus sign: the strike field is not eight digits and [parseOsiSymbol]
    rejects the symbol.  [updateLeg] and [validateLegInputs] test
    [strike > 0] before they build a symbol. *)
Lemma negative_strike_field :
  buildOsiSymbol "AAPL" "2026-01-17" "C" (Fin (-5)) = "AAPL260117C000-5000" /\
  parseOsiSymbol "AAPL260117C000-5000" = None.
Proof. split; vm_compute; reflexivity. Qed.

Lemma get_field_letter (a b d : string) (c : ascii) :
  String.get (String.length a + String.length b) (a ++ b ++ String c d) = Some c.
Proof.
  rewrite <- length_append, <- append_assoc. apply get_append_cons.
Qed.

(** Claim C10.  In every symbol [buildOsiSymbol] produces, the character
    after the underlying and the six date digits is P when the right, in
    upper case, is the single letter P, and C for every other right; a
    non-empty right other than P builds the same symbol as the right C, the
    full word PUT included. *)
Theorem right_letter_encoding :
  (forall u e r s,
     buildOsiSymbol u e r s <> "" ->
     String.get (String.length (toUpperCase (trim u)) + 6)
                (buildOsiSymbol u e r s)
       = Some (if String.eqb (toUpperCase r) "P" then "P" else "C")%char) /\
  (forall u e r s,
     r <> "" -> toUpperCase r <> "P" ->
     buildOsiSymbol u e r s = buildOsiSymbol u e "C" s) /\
  buildOsiSymbol "AAPL" "2026-01-17" "PUT" (Fin 150) = "AAPL260117C00150000" /\
  buildOsiSymbol "AAPL" "2026-01-17" "p" (Fin 150) = "AAPL260117P00150000".
Proof.
  split; [|split; [|split; vm_compute; reflexivity]].
  - intros u e r s Hne.
    assert (Hg : ~ (trim u = "" \/ trim e = "" \/ r = "" \/ isFinite s = false \/
                    String.length (compact_date e) <> 6%nat))
      by (intros Hg; apply Hne, build_failure_iff, Hg).
    destruct (Nat.eq_dec (String.length (compact_date e)) 6) as [Hd|Hd];
      [|exfalso; apply Hg; auto 6].
    rewrite build_fields.
    + rewrite <- Hd. unfold right_letter.
      destruct (String.eqb (toUpperCase r) "P"); cbn [String.append];
        apply get_field_letter.
    + intros H; apply Hg; auto.
    + intros H; apply Hg; auto.
    + intros H; apply Hg; auto.
    + destruct (isFinite s); [reflexivity | exfalso; apply Hg; auto 6].
    + exact Hd.
  - intros u e r s Hr Hp. unfold buildOsiSymbol.
    assert (Tr : JsString.truthy r = true) by (destruct r; [congruence | reflexivity]).
    assert (Ep : String.eqb (toUpperCase r) "P" = false) by now apply String.eqb_neq.
    rewrite Tr, Ep. reflexivity.
Qed.

Lemma right_letter_encoding_witness :
  String.get 10 (buildOsiSymbol "AAPL" "2026-01-17" "PUT" (Fin 150)) = Some "C"%char /\
  buildOsiSymbol "AAPL" "2026-01-17" "PUT" (Fin 150)
    = buildOsiSymbol "AAPL" "2026-01-17" "C" (Fin 150).
Proof.
  split.
  - apply (proj1 right_letter_encoding "AAPL" "2026-01-17" "PUT" (Fin 150)).
    vm_compute; discriminate.
  - apply (proj1 (proj2 right_letter_encoding)); [discriminate | vm_compute; discriminate].
Defined.

End CodecClaims.

(** ** Option descriptions *)

Module OptionDescriptionClaims.
Import JsString JsNum Codec OptionDescription.

(** With the underlying in the text the description parses without a
    fallback. *)
Lemma description_with_underlying :
  parseOptionDescription "3 AAPL 01/17/2026 150 CALL" None =
    Some (ParsedOption "AAPL260117C00150000" "AAPL" "2026-01-17" (Fin 150) "CALL").
Proof. vm_compute. reflexivity. Qed.

(** Without a leading quantity the fallback underlying decides. *)
Lemma description_without_quantity :
  parseOptionDescription "01/17/2026 150 CALL" (Some "AAPL") =
    Some (ParsedOption "AAPL260117C00150000" "AAPL" "2026-01-17" (Fin 150) "CALL") /\
  parseOptionDescription "01/17/2026 150 CALL" None = None.
Proof. split; vm_compute; reflexivity. Qed.

(** Claim C7, at the input where the code departs from it.  On
    ["3 01/17/2026 150 CALL"] the pattern with an underlying matches first
    and takes the leading quantity 3 for the underlying: the parse succeeds
    without a fallback, and a supplied fallback is not used. *)
Theorem description_quantity_read_as_underlying :
  parseOptionDescription "3 01/17/2026 150 CALL" None =
    Some (ParsedOption "3260117C00150000" "3" "2026-01-17" (Fin 150) "CALL") /\
  parseOptionDescription "3 01/17/2026 150 CALL" (Some "AAPL") =
    Some (ParsedOption "3260117C00150000" "3" "2026-01-17" (Fin 150) "CALL").
Proof. split; vm_compute; reflexivity. Qed.

End OptionDescriptionClaims.

(** ** NAV snapshots *)

Module NavStoreClaims.
Import JsNum NavStore.

(** Claim C4.  After [storeSnapshot] the row of the key holds the NAV it was
    given; its benchmark is a level [b] exactly when the caller supplied [b]
    and [b] is strictly positive, so a missing benchmark is stored as NULL
    whatever the NAV; rows of other keys are untouched. *)
Theorem stored_bench_is_null_unless_positive
    (account date : string) (nav0 : number) (bench0 : option number)
    (table : gmap (string * string) snapshot) :
  (exists s,
     storeSnapshot account date nav0 bench0 table !! (account, date) = Some s /\
     nav s = nav0 /\
     (forall b, bench s = Some b <-> bench0 = Some b /\ gt b (Fin 0) = true) /\
     (bench0 = None -> bench s = None)) /\
  (forall key, key <> (account, date) ->
     storeSnapshot account date nav0 bench0 table !! key = table !! key).
Proof.
  split.
  - eexists. split; [apply lookup_insert_eq|]. cbn [nav bench].
    split; [reflexivity|]. split.
    + intros b. destruct bench0 as [b0|]; [|split; [discriminate | intros [? _]; discriminate]].
      destruct (gt b0 (Fin 0)) eqn:Hb; split.
      * intros [= <-]. auto.
      * intros [[= <-] _]. reflexivity.
      * discriminate.
      * intros [[= <-] H]. congruence.
    + intros ->. reflexivity.
  - intros key Hkey. unfold storeSnapshot. now apply lookup_insert_ne.
Qed.

Lemma stored_bench_is_null_unless_positive_witness :
  exists s,
    storeSnapshot "ACC1" "2026-01-17" (Fin 250000) None ∅ !! ("ACC1", "2026-01-17")
      = Some s /\
    nav s = Fin 250000 /\ bench s = None.
Proof.
  destruct (stored_bench_is_null_unless_positive
              "ACC1" "2026-01-17" (Fin 250000) None ∅)
    as [(s & Hs & Hn & _ & Hb) _].
  exists s. split; [exact Hs|]. split; [exact Hn|]. apply Hb. reflexivity.
Defined.

End NavStoreClaims.

(** ** Strategy netting *)

Module NettingFacts.
Import JsString JsNum Netting.

Lemma legs_of_snoc (id : string) (rows : list position) (row : position) :
  legs_of id (rows ++ [row]) =
    (legs_of id rows ++
       (if grouped_leg row && String.eqb (strategyId_of row) id then [row] else []))%list.
Proof. unfold legs_of. rewrite List.filter_app. reflexivity. Qed.

Lemma collected_start : collected [] (∅, []).
Proof.
  split; [|split]; simpl.
  - intros id. apply lookup_empty.
  - intros id. split; [intros [] | congruence].
  - intros r. split; [intros [] | intros [[] _]].
Qed.

Lemma snoc_not_nil {X : Type} (l : list X) (x : X) : (l ++ [x])%list <> [].
Proof. destruct l; discriminate. Qed.

Lemma match_snoc {X : Type} (l : list X) (x : X) :
  match (l ++ [x])%list with [] => None | l' => Some l' end = Some (l ++ [x])%list.
Proof. destruct l; reflexivity. Qed.

Lemma collected_step (done : list position) acc (row : position) :
  collected done acc -> collected (done ++ [row]) (collect_step acc row).
Proof.
  destruct acc as [g o]. intros (Hg & Ho & Hr). simpl in Hg, Ho, Hr.
  unfold collect_step. destruct (grouped_leg row) eqn:Hrow.
  - set (id0 := strategyId_of row).
    assert (Hlegs : forall id,
              legs_of id (done ++ [row]) =
                if String.eqb id0 id then (legs_of id done ++ [row])%list
                else legs_of id done).
    { intros id. rewrite legs_of_snoc, Hrow. fold id0. simpl.
      destruct (String.eqb id0 id); [reflexivity | apply app_nil_r]. }
    assert (Hrows : forall r, In r (done ++ [row]) /\ grouped_leg r = false <->
                              In r done /\ grouped_leg r = false).
    { intros r. rewrite in_app_iff. simpl. split; [|tauto].
      intros [[H|[<-|[]]] Hf]; [tauto | congruence]. }
    destruct (g !! id0) as [legs|] eqn:Hid.
    + assert (Hl0 : legs_of id0 done = legs /\ legs <> []).
      { specialize (Hg id0). rewrite Hid in Hg.
        destruct (legs_of id0 done); [discriminate|].
        injection Hg as Hg. subst legs. split; [reflexivity | discriminate]. }
      destruct Hl0 as [Hl0 Hne]. split; [|split]; simpl.
      * intros id. rewrite Hlegs. destruct (String.eqb_spec id0 id) as [<-|Hneq].
        -- rewrite lookup_insert_eq, Hl0. symmetry. apply match_snoc.
        -- rewrite lookup_insert_ne by exact Hneq. apply Hg.
      * intros id. rewrite Hlegs, Ho.
        destruct (String.eqb_spec id0 id) as [<-|Hneq]; [|tauto].
        split; intros _; [apply snoc_not_nil | congruence].
      * intros r. rewrite Hrows. apply Hr.
    + assert (Hl0 : legs_of id0 done = []).
      { specialize (Hg id0). rewrite Hid in Hg.
        destruct (legs_of id0 done); [reflexivity | discriminate]. }
      split; [|split]; simpl.
      * intros id. rewrite Hlegs. destruct (String.eqb_spec id0 id) as [<-|Hneq].
        -- rewrite lookup_insert_eq, Hl0. reflexivity.
        -- rewrite lookup_insert_ne by exact Hneq. apply Hg.
      * intros id. rewrite in_app_iff, Hlegs, Ho. simpl.
        destruct (String.eqb_spec id0 id) as [<-|Hneq].
        -- split; intros _; [apply snoc_not_nil | auto].
        -- split; [intros [H|[H|[]]]; [exact H | congruence] | auto].
      * intros r. rewrite in_app_iff, Hrows, Hr. simpl.
        split; [intros [H|[H|[]]]; [exact H | discriminate] | auto].
  - assert (Hlegs : forall id, legs_of id (done ++ [row]) = legs_of id done).
    { intros id. rewrite legs_of_snoc, Hrow. simpl. apply app_nil_r. }
    split; [|split]; simpl.
    + intros id. rewrite Hlegs. apply Hg.
    + intros id. rewrite in_app_iff, Hlegs, Ho. simpl.
      split; [intros [H|[H|[]]]; [exact H | discriminate] | auto].
    + intros r. rewrite !in_app_iff, Hr. simpl. split.
      * intros [H|[[= <-]|[]]]; tauto.
      * intros [[H|[<-|[]]] Hf]; [tauto | auto].
Qed.

Lemma collected_fold (rows done : list position) acc :
  collected done acc ->
  collected (done ++ rows) (fold_left collect_step rows acc).
Proof.
  revert done acc. induction rows as [|row rows IH]; intros done acc H; simpl.
  - now rewrite app_nil_r.
  - replace (done ++ row :: rows)%list with ((done ++ [row]) ++ rows)%list
      by (rewrite <- app_assoc; reflexivity).
    apply IH. now apply collected_step.
Qed.

Lemma collect_spec (rows : list position) : collected rows (collect rows).
Proof. apply (collected_fold rows [] _ collected_start). Qed.

End NettingFacts.

Module NettingClaims.
Import JsString JsNum Netting NettingFacts Samples.

Lemma display_unfold (positions : list position)
    (collapsedStrategies : gmap string bool) (strategyFilter : string) :
  positionsDisplay positions collapsedStrategies strategyFilter =
    flat_map
      (emit_entry (fst (collect (filter_by_strategy strategyFilter positions)))
                  collapsedStrategies)
      (snd (collect (filter_by_strategy strategyFilter positions))).
Proof. unfold positionsDisplay. now destruct (collect _). Qed.

(** Claim C5.  Take the rows that survive the strategy filter and the legs
    among them that carry strategy id [id].  When these are fewer than two,
    the output holds no summary row and no leg row for [id], and each of
    those legs appears in it as an ordinary row; so does every row that is
    not grouped at all. *)
Theorem small_group_is_not_summarized (positions : list position)
    (collapsedStrategies : gmap string bool) (strategyFilter id : string) :
  let filtered := filter_by_strategy strategyFilter positions in
  let out := positionsDisplay positions collapsedStrategies strategyFilter in
  (length (legs_of id filtered) < 2)%nat ->
  (forall s, In (StrategySummary s) out -> sm_strategy_id s <> id) /\
  (forall leg sid name, In (StrategyLeg leg sid name) out -> sid <> id) /\
  (forall leg, In leg (legs_of id filtered) -> In (Plain leg) out) /\
  (forall row, In row filtered -> grouped_leg row = false -> In (Plain row) out).
Proof.
  intros filtered out Hsmall. subst out. rewrite display_unfold. fold filtered.
  destruct (collect_spec filtered) as (Hg & Ho & Hr).
  destruct (collect filtered) as [g o]. simpl in Hg, Ho, Hr |- *.
  assert (Hgroup : forall x id',
            In x (emit_entry g collapsedStrategies (GroupEntry id')) ->
            id' = id ->
            match x with Plain _ => True | _ => False end).
  { intros x id' Hx ->. cbn [emit_entry] in Hx. rewrite (Hg id) in Hx.
    destruct (legs_of id filtered) as [|l1 [|l2 rest]]; simpl in Hsmall; try lia.
    - destruct Hx.
    - destruct Hx as [<-|[]]. exact I. }
  repeat split.
  - intros s Hin Hid. apply in_flat_map in Hin as (e & He & Hin).
    destruct e as [row|id'].
    + destruct Hin as [H|[]]; discriminate.
    + destruct (String.eqb_spec id' id) as [->|Hne].
      * exact (Hgroup _ _ Hin eq_refl).
      * apply Hne. rewrite <- Hid. cbn [emit_entry] in Hin.
        destruct (match g !! id' with Some l => l | None => [] end) as [|l1 [|l2 rest]].
        -- destruct Hin.
        -- destruct Hin as [H|[]]; discriminate.
        -- destruct Hin as [[= <-]|Hin]; [reflexivity|].
           destruct (expanded collapsedStrategies id'); [|destruct Hin].
           apply in_map_iff in Hin as (? & ? & _). discriminate.
  - intros leg sid name Hin Hid. apply in_flat_map in Hin as (e & He & Hin).
    destruct e as [row|id'].
    + destruct Hin as [H|[]]; discriminate.
    + destruct (String.eqb_spec id' id) as [->|Hne].
      * exact (Hgroup _ _ Hin eq_refl).
      * apply Hne. rewrite <- Hid. cbn [emit_entry] in Hin.
        destruct (match g !! id' with Some l => l | None => [] end) as [|l1 [|l2 rest]].
        -- destruct Hin.
        -- destruct Hin as [H|[]]; discriminate.
        -- destruct Hin as [H|Hin]; [discriminate|].
           destruct (expanded collapsedStrategies id'); [|destruct Hin].
           apply in_map_iff in Hin as (? & [= _ <- _] & _). reflexivity.
  - intros leg Hleg. apply in_flat_map. exists (GroupEntry id). split.
    + apply Ho. intros E. rewrite E in Hleg. destruct Hleg.
    + cbn [emit_entry]. rewrite (Hg id).
      destruct (legs_of id filtered) as [|l1 [|l2 rest]]; simpl in Hsmall; try lia.
      * destruct Hleg.
      * destruct Hleg as [<-|[]]. now left.
  - intros row Hin Hrow. apply in_flat_map. exists (RowEntry row). split.
    + apply Hr. auto.
    + now left.
Qed.

Lemma small_group_is_not_summarized_witness :
  In (Plain lone_leg) (positionsDisplay [lone_leg] ∅ "").
Proof.
  destruct (small_group_is_not_summarized [lone_leg] ∅ "" "S1")
    as (_ & _ & H & _).
  - vm_compute. lia.
  - apply H. vm_compute. now left.
Defined.

(** Claim C3.  Two option legs sharing a strategy id, the first with
    quantity 1 at price 5 and the second with quantity -1 at price 2, both
    with multiplier 100, are summarized, whatever their other fields, in a
    row with 1 unit, net price 3 and side LONG. *)
Theorem two_leg_spread_nets_long (l1 l2 : position) (id : string)
    (collapsedStrategies : gmap string bool) :
  grouped_leg l1 = true -> grouped_leg l2 = true ->
  strategyId_of l1 = id -> strategyId_of l2 = id ->
  qty l1 = Fin 1 -> price l1 = Fin 5 -> multiplier l1 = Some (Fin 100) ->
  qty l2 = Fin (-1) -> price l2 = Fin 2 -> multiplier l2 = Some (Fin 100) ->
  exists s rest,
    positionsDisplay [l1; l2] collapsedStrategies "" = StrategySummary s :: rest /\
    sm_qty s = Fin 1 /\ sm_price s = Fin 3 /\ sm_position_side s = "LONG" /\
    sm_legCount s = 2%nat.
Proof.
  intros G1 G2 I1 I2 Q1 P1 M1 Q2 P2 M2.
  assert (E1 : collect_step (∅, []) l1 = (<[id := [l1]]> ∅, [GroupEntry id]))
    by (unfold collect_step; rewrite G1, I1, lookup_empty; reflexivity).
  assert (E2 : collect_step (<[id := [l1]]> ∅, [GroupEntry id]) l2 =
               (<[id := [l1; l2]]> (<[id := [l1]]> ∅), [GroupEntry id]))
    by (unfold collect_step; rewrite G2, I2, lookup_insert_eq; reflexivity).
  unfold positionsDisplay, filter_by_strategy, collect.
  cbn [JsString.truthy fold_left]. rewrite E1, E2.
  cbn [flat_map emit_entry]. rewrite lookup_insert_eq. cbn [app].
  eexists _, _. split; [reflexivity|].
  assert (Hp1 : leg_price l1 = Fin 5) by (unfold leg_price; rewrite P1; reflexivity).
  assert (Hp2 : leg_price l2 = Fin 2) by (unfold leg_price; rewrite P2; reflexivity).
  unfold summarize, units_of, baseMultiplier_of, first_qty.
  cbn [sm_qty sm_price sm_position_side sm_legCount map fold_left add_leg
       netValue netAvgValue netMv netPnl netDay length].
  unfold leg_multiplier. rewrite Q1, Q2, M1, M2, Hp1, Hp2.
  repeat split; vm_compute; reflexivity.
Qed.

(** The side of a summary is SHORT exactly when the net notional is
    negative. *)
Lemma summary_side (id : string) (first : position) (legs : list position) :
  sm_position_side (summarize id first legs) =
    if lt (netValue (fold_left (add_leg (baseMultiplier_of legs)) legs
                       (Totals (Fin 0) (Fin 0) (Fin 0) (Fin 0) (Fin 0))))
          (Fin 0)
    then "SHORT" else "LONG".
Proof. reflexivity. Qed.

Lemma two_leg_spread_nets_long_witness :
  exists s rest,
    positionsDisplay [long_call; short_call] ∅ "" = StrategySummary s :: rest /\
    sm_qty s = Fin 1 /\ sm_price s = Fin 3 /\ sm_position_side s = "LONG" /\
    sm_legCount s = 2%nat.
Proof.
  apply (two_leg_spread_nets_long long_call short_call "S1" ∅); reflexivity.
Defined.

End NettingClaims.

(** ** Imports *)

Module ImportFacts.
Import JsString JsNum Regex Csv Extract ImportFlow.

Ltac run :=
  unfold starts_with, silent, same_inputs; unfold after;
  cbn [bind ret modify read setCsvError setNavPasteError setToast setBenchStart
       notify emit request api_post api_get fetchAccounts refreshAll fetchNav
       set_slot upload_failed with_csvError with_navPasteError with_toast
       with_benchStart with_effect log accountId navLimit navPasteText csvError
       navPasteError toast benchStart fst snd].

Ltac close_log :=
  eexists; rewrite <- ?app_assoc; cbn [app]; reflexivity.

Lemma requireAccount_named (action : string) (slot : error_slot) (st : app_state) :
  accountId st <> "" -> accountId st <> "ALL" ->
  requireAccount action slot st = (Some (accountId st), st).
Proof.
  intros H1 H2. unfold requireAccount. run.
  destruct (accountId st) as [|c a] eqn:E; [congruence|].
  cbn [JsString.truthy negb orb].
  destruct (String.eqb_spec (String c a) "ALL"); [congruence | reflexivity].
Qed.

Lemma requireAccount_all (action : string) (slot : error_slot) (st : app_state) :
  accountId st = "ALL" ->
  requireAccount action slot st =
    (None, with_toast (scope_message action)
             (snd (set_slot slot (scope_message action) st))).
Proof.
  intros H. unfold requireAccount. run. rewrite H. cbn [JsString.truthy negb orb String.eqb].
  unfold scope_message. destruct slot; reflexivity.
Qed.

Section Handlers.
Variable respond : list effect -> effect -> response.

Lemma importBalances_starts (file : string) (st : app_state) :
  starts_with (importBalances respond file) st
    (Post "/admin/import-balances" (FormFile file)).
Proof.
  unfold importBalances. run.
  destruct (respond _ _); run; close_log.
Qed.

Lemma importPositionsReport_starts (file : string) (st : app_state) :
  accountId st <> "" -> accountId st <> "ALL" ->
  starts_with (importPositionsReport respond file) st
    (Post ("/admin/import-positions?account=" ++ encodeURIComponent (accountId st))
          (FormFile file)).
Proof.
  intros H1 H2. unfold importPositionsReport, starts_with, after, bind.
  rewrite (requireAccount_named _ _ _ H1 H2). run.
  destruct (respond _ _); run; close_log.
Qed.

Lemma importTransactions_starts (file : string) (st : app_state) :
  accountId st <> "" -> accountId st <> "ALL" ->
  starts_with (importTransactions respond file) st
    (Post ("/admin/import-transactions?account=" ++ encodeURIComponent (accountId st))
          (FormFile file)).
Proof.
  intros H1 H2. unfold importTransactions, starts_with, after, bind.
  rewrite (requireAccount_named _ _ _ H1 H2). run.
  destruct (respond _ _); run; [|close_log].
  destruct (respond _ _) as [b|]; run; [|close_log].
  destruct (bench_start b) as [v|]; run; [|close_log].
  destruct (JsString.truthy v); run; close_log.
Qed.

Lemma importAccountStatement_outcome (rawRows : list (list string)) (st : app_state) :
  accountId st <> "" -> accountId st <> "ALL" ->
  upload_outcome (importAccountStatement respond rawRows) st
    (usable_rows (parseAccountStatementPositions rawRows)).
Proof.
  intros H1 H2. unfold importAccountStatement, upload_outcome, starts_with, silent, after, bind.
  rewrite (requireAccount_named _ _ _ H1 H2).
  destruct (usable_rows _) as [|r kept]; run.
  - split; [reflexivity | discriminate].
  - destruct (respond _ _); run; close_log.
Qed.

Lemma importGenericCsv_outcome (text : string) (st : app_state) :
  accountId st <> "" -> accountId st <> "ALL" ->
  upload_outcome (importGenericCsv respond text) st
    (usable_rows (positionsPayload (parseCsv text))).
Proof.
  intros H1 H2. unfold importGenericCsv, upload_outcome, starts_with, silent, after, bind.
  destruct (parseCsv text) as [|o rows]; run.
  - split; [reflexivity | discriminate].
  - destruct (usable_rows _) as [|r kept]; run.
    + split; [reflexivity | discriminate].
    + rewrite (requireAccount_named _ _ _ H1 H2). run.
      destruct (respond _ _); run; close_log.
Qed.

Lemma importPositionsReport_all (file : string) (st : app_state) :
  accountId st = "ALL" ->
  refused (importPositionsReport respond file) st "import positions CSV".
Proof.
  intros H. unfold importPositionsReport, refused, silent, same_inputs, after, bind.
  rewrite (requireAccount_all _ _ _ H). run. repeat split; reflexivity.
Qed.

Lemma importTransactions_all (file : string) (st : app_state) :
  accountId st = "ALL" ->
  refused (importTransactions respond file) st "import transactions CSV".
Proof.
  intros H. unfold importTransactions, refused, silent, same_inputs, after, bind.
  rewrite (requireAccount_all _ _ _ H). run. repeat split; reflexivity.
Qed.

Lemma importAccountStatement_all (rawRows : list (list string)) (st : app_state) :
  accountId st = "ALL" ->
  refused (importAccountStatement respond rawRows) st
    "import positions from account statement".
Proof.
  intros H. unfold importAccountStatement, refused, silent, same_inputs, after, bind.
  rewrite (requireAccount_all _ _ _ H). run. repeat split; reflexivity.
Qed.

(** The generic branch validates the rows before it asks for the account. *)
Lemma importGenericCsv_all (text : string) (st : app_state) :
  accountId st = "ALL" ->
  silent (importGenericCsv respond text) st /\
  same_inputs st (after (importGenericCsv respond text) st) /\
  benchStart (after (importGenericCsv respond text) st) = benchStart st /\
  csvError (after (importGenericCsv respond text) st) <> "" /\
  (usable_rows (positionsPayload (parseCsv text)) <> [] ->
   csvError (after (importGenericCsv respond text) st)
     = scope_message "import positions CSV").
Proof.
  intros H. unfold importGenericCsv, silent, same_inputs, after, bind.
  destruct (parseCsv text) as [|o rows]; run.
  - repeat split; try reflexivity; [discriminate | simpl; congruence].
  - destruct (usable_rows _) as [|r kept]; run.
    + repeat split; try reflexivity; [discriminate | congruence].
    + rewrite (requireAccount_all _ _ _ H). run.
      repeat split; try reflexivity. discriminate.
Qed.

Lemma importNavText_all (st : app_state) :
  accountId st = "ALL" ->
  silent (importNavText respond) st /\
  same_inputs st (after (importNavText respond) st) /\
  navPasteError (after (importNavText respond) st)
    = scope_message "import NAV history".
Proof.
  intros H.
  assert (E : importNavText respond st =
              (tt, with_toast (scope_message "import NAV history")
                     (with_navPasteError (scope_message "import NAV history")
                        (with_navPasteError "" st)))).
  { unfold importNavText, bind. unfold setNavPasteError at 1, modify.
    rewrite (requireAccount_all _ _ (with_navPasteError "" st) H). reflexivity. }
  unfold silent, same_inputs, after. rewrite E. repeat split; reflexivity.
Qed.

(** [importCsvFile] clears the error, then dispatches on the flags. *)
Lemma importCsvFile_dispatch (file : string) (st : app_state) :
  importCsvFile respond file st =
    let st1 := with_csvError "" st in
    match parseCsvRows file with
    | [] => setCsvError "CSV file is empty." st1
    | rawRows =>
        if isBalancesReport rawRows then importBalances respond file st1
        else if isPositionsReport rawRows then importPositionsReport respond file st1
        else if isTransactionsCsv rawRows then importTransactions respond file st1
        else if isAccountStatement rawRows
             then importAccountStatement respond rawRows st1
        else importGenericCsv respond file st1
    end.
Proof.
  unfold importCsvFile, bind, setCsvError at 1, modify.
  destruct (parseCsvRows file) as [|row rows]; [reflexivity|]. cbv zeta.
  destruct (isBalancesReport (row :: rows)); [reflexivity|].
  destruct (isPositionsReport (row :: rows)); [reflexivity|].
  destruct (isTransactionsCsv (row :: rows)); [reflexivity|].
  destruct (isAccountStatement (row :: rows)); reflexivity.
Qed.

End Handlers.

Lemma strict_eq_zero (x : number) : strict_eq x (Fin 0) = is_zero x.
Proof. destruct x; reflexivity. Qed.

Lemma usable_row_iff (r : position_row) :
  usable_row r = true <->
  symbol r <> "" /\ isFinite (qty r) = true /\ is_zero (qty r) = false.
Proof.
  unfold usable_row. rewrite strict_eq_zero, !andb_true_iff, negb_true_iff.
  destruct (symbol r); simpl; intuition congruence.
Qed.

(** The statement extractor itself keeps no row whose quantity is not a
    finite non-zero number. *)
Lemma section_rows_quantities (c : columns) (rows : list (list string)) :
  forall assetClass r, In r (section_rows c assetClass rows) ->
    isFinite (qty r) = true /\ is_zero (qty r) = false.
Proof.
  induction rows as [|row rows IH]; intros assetClass r Hin; simpl in Hin; [destruct Hin|].
  destruct (negb (has_content row)); [destruct Hin|].
  destruct (isSectionHeader row); [destruct Hin|].
  destruct (test total_re _); [destruct Hin|].
  destruct (negb (JsString.truthy _)); [eauto|].
  destruct (negb (isFinite _) || strict_eq _ (Fin 0)) eqn:Hq; [eauto|].
  apply orb_false_iff in Hq as [Hf Hz]. apply negb_false_iff in Hf.
  rewrite strict_eq_zero in Hz.
  destruct (statement_row c assetClass row _ _) as [pos assetClass'] eqn:Hrow.
  destruct Hin as [<-|Hin]; [|eauto].
  unfold statement_row in Hrow.
  repeat match type of Hrow with
         | context [let '(_, _) := ?x in _] => destruct x
         end.
  injection Hrow as <- _. simpl. auto.
Qed.

Lemma statement_quantities (rows : list (list string)) :
  forall r, In r (parseAccountStatementPositions rows) ->
    isFinite (qty r) = true /\ is_zero (qty r) = false.
Proof.
  induction rows as [|section rest IH]; intros r Hin; simpl in Hin; [destruct Hin|].
  destruct rest as [|headerRow body]; [destruct Hin|].
  apply in_app_iff in Hin as [Hin|Hin]; [|auto].
  unfold statement_section in Hin.
  repeat match type of Hin with
         | In _ (if ?b then [] else _) => destruct b; [destruct Hin|]
         end.
  eapply section_rows_quantities; eauto.
Qed.

(** The first effect of [importCsvFile], branch by branch. *)
Lemma importCsvFile_first_effect (respond : list effect -> effect -> response)
    (file : string) (st : app_state) :
  accountId st <> "" -> accountId st <> "ALL" ->
  parseCsvRows file <> [] ->
  let rows := parseCsvRows file in
  let m := importCsvFile respond file in
  if isBalancesReport rows then
    starts_with m st (Post "/admin/import-balances" (FormFile file))
  else if isPositionsReport rows then
    starts_with m st
      (Post ("/admin/import-positions?account=" ++ encodeURIComponent (accountId st))
            (FormFile file))
  else if isTransactionsCsv rows then
    starts_with m st
      (Post ("/admin/import-transactions?account=" ++ encodeURIComponent (accountId st))
            (FormFile file))
  else if isAccountStatement rows then
    upload_outcome m st (usable_rows (parseAccountStatementPositions rows))
  else
    upload_outcome m st (usable_rows (positionsPayload (parseCsv file))).
Proof.
  intros H1 H2 Hrows. cbv zeta.
  assert (Hst : forall (h : M unit) e,
            starts_with h (with_csvError "" st) e ->
            importCsvFile respond file st = h (with_csvError "" st) ->
            starts_with (importCsvFile respond file) st e).
  { intros h e [rest Hl] E. exists rest. unfold after in *. rewrite E. exact Hl. }
  assert (Hup : forall (h : M unit) kept,
            upload_outcome h (with_csvError "" st) kept ->
            importCsvFile respond file st = h (with_csvError "" st) ->
            upload_outcome (importCsvFile respond file) st kept).
  { intros h kept Hk E. unfold upload_outcome, starts_with, silent, after in *.
    rewrite E. exact Hk. }
  pose proof (importCsvFile_dispatch respond file st) as E. cbv zeta in E.
  destruct (parseCsvRows file) as [|row rows'] eqn:Er; [congruence|].
  destruct (isBalancesReport (row :: rows')).
  { eapply Hst; [apply importBalances_starts | exact E]. }
  destruct (isPositionsReport (row :: rows')).
  { eapply Hst; [apply (importPositionsReport_starts respond file (with_csvError "" st) H1 H2) | exact E]. }
  destruct (isTransactionsCsv (row :: rows')).
  { eapply Hst; [apply (importTransactions_starts respond file (with_csvError "" st) H1 H2) | exact E]. }
  destruct (isAccountStatement (row :: rows')).
  { eapply Hup; [apply (importAccountStatement_outcome respond _ (with_csvError "" st) H1 H2) | exact E]. }
  eapply Hup; [apply (importGenericCsv_outcome respond file (with_csvError "" st) H1 H2) | exact E].
Qed.

End ImportFacts.

Module ImportClaims.
Import JsString JsNum Regex Csv Extract ImportFlow ImportFacts Samples.

(** Claim C2 as stated fails: a file whose header satisfies the transactions
    test is imported as a balances report when a scanned row holds the
    balances marker, and as a positions report when one holds the positions
    marker. *)
Lemma detection_order_counterexample :
  isTransactionsCsv (parseCsvRows transactions_with_balances_marker) = true /\
  log (after (importCsvFile quiet_server transactions_with_balances_marker)
             (named_state "ACC1"))
    = [Post "/admin/import-balances" (FormFile transactions_with_balances_marker);
       FetchAccounts; RefreshAll] /\
  isTransactionsCsv (parseCsvRows transactions_with_positions_marker) = true /\
  log (after (importCsvFile quiet_server transactions_with_positions_marker)
             (named_state "ACC1"))
    = [Post "/admin/import-positions?account=ACC1"
            (FormFile transactions_with_positions_marker);
       FetchAccounts; RefreshAll; FetchNav 365].
Proof. repeat split; vm_compute; reflexivity. Qed.

(** Claim C2, as amended.  With one account selected and a file that is not
    empty, the first request [importCsvFile] issues follows this order,
    first match winning: a balances report, then a positions report, then a
    transactions report, then an account statement, then the generic CSV.
    In the last two the request carries the usable rows, and none is issued
    when there is no usable row. *)
Theorem detection_order (respond : list effect -> effect -> response)
    (file : string) (st : app_state) :
  accountId st <> "" -> accountId st <> "ALL" ->
  parseCsvRows file <> [] ->
  let rows := parseCsvRows file in
  let m := importCsvFile respond file in
  if isBalancesReport rows then
    starts_with m st (Post "/admin/import-balances" (FormFile file))
  else if isPositionsReport rows then
    starts_with m st
      (Post ("/admin/import-positions?account=" ++ encodeURIComponent (accountId st))
            (FormFile file))
  else if isTransactionsCsv rows then
    starts_with m st
      (Post ("/admin/import-transactions?account=" ++ encodeURIComponent (accountId st))
            (FormFile file))
  else if isAccountStatement rows then
    upload_outcome m st (usable_rows (parseAccountStatementPositions rows))
  else
    upload_outcome m st (usable_rows (positionsPayload (parseCsv file))).
Proof. exact (importCsvFile_first_effect respond file st). Qed.

Lemma detection_order_witness :
  starts_with (importCsvFile quiet_server transactions_with_statement_marker)
    (named_state "ACC1")
    (Post "/admin/import-transactions?account=ACC1"
          (FormFile transactions_with_statement_marker)).
Proof.
  refine (detection_order quiet_server transactions_with_statement_marker
            (named_state "ACC1") _ _ _); vm_compute; discriminate.
Defined.

(** Claim C9.  With every account selected (["ALL"]): an import that is not
    a balances report issues no request and no refresh, leaves the account,
    the NAV limit, the pasted text and the benchmark start as they were, and
    sets a non-empty error, which for a positions report, a transactions
    report and an account statement is the request to select one account;
    a balances report is posted all the same; the NAV-history paste is
    refused in the same way. *)
Theorem all_accounts_scope_is_rejected
    (respond : list effect -> effect -> response) (file : string)
    (st : app_state) :
  accountId st = "ALL" ->
  let rows := parseCsvRows file in
  let m := importCsvFile respond file in
  (isBalancesReport rows = false ->
     silent m st /\ same_inputs st (after m st) /\
     benchStart (after m st) = benchStart st /\
     csvError (after m st) <> "") /\
  (isBalancesReport rows = false -> isPositionsReport rows = true ->
     csvError (after m st) = scope_message "import positions CSV") /\
  (isBalancesReport rows = false -> isPositionsReport rows = false ->
   isTransactionsCsv rows = true ->
     csvError (after m st) = scope_message "import transactions CSV") /\
  (isBalancesReport rows = false -> isPositionsReport rows = false ->
   isTransactionsCsv rows = false -> isAccountStatement rows = true ->
     csvError (after m st)
       = scope_message "import positions from account statement") /\
  (isBalancesReport rows = true ->
     starts_with m st (Post "/admin/import-balances" (FormFile file))) /\
  (silent (importNavText respond) st /\
   same_inputs st (after (importNavText respond) st) /\
   navPasteError (after (importNavText respond) st)
     = scope_message "import NAV history").
Proof.
  intros Hall. cbv zeta.
  pose proof (importCsvFile_dispatch respond file st) as E. cbv zeta in E.
  set (st1 := with_csvError "" st) in *.
  assert (Hall1 : accountId st1 = "ALL") by exact Hall.
  pose proof (importPositionsReport_all respond file st1 Hall1) as Hp.
  pose proof (importTransactions_all respond file st1 Hall1) as Ht.
  pose proof (importAccountStatement_all respond (parseCsvRows file) st1 Hall1) as Hs.
  pose proof (importGenericCsv_all respond file st1 Hall1) as Hg.
  pose proof (importBalances_starts respond file st1) as Hb.
  pose proof (importNavText_all respond st Hall) as Hn.
  assert (Hmsg : forall a, scope_message a <> "") by (intros a; discriminate).
  repeat (split; [|try exact Hn]);
    unfold refused, silent, same_inputs, starts_with, after in *;
    rewrite E; clear E;
    (destruct (parseCsvRows file) as [|row rows'] eqn:Er;
     [ try discriminate; intros; repeat split; try reflexivity; discriminate |]);
    (destruct (isBalancesReport (row :: rows'));
     [ try discriminate; intros; exact Hb |]);
    (destruct (isPositionsReport (row :: rows'));
     [ try discriminate; intros; destruct Hp as (L & (A & N & T) & B & C & _);
       repeat split; auto; rewrite C; apply Hmsg |]);
    (destruct (isTransactionsCsv (row :: rows'));
     [ try discriminate; intros; destruct Ht as (L & (A & N & T) & B & C & _);
       repeat split; auto; rewrite C; apply Hmsg |]);
    (destruct (isAccountStatement (row :: rows'));
     [ try discriminate; intros; destruct Hs as (L & (A & N & T) & B & C & _);
       repeat split; auto; rewrite C; apply Hmsg |]);
    try discriminate; intros; destruct Hg as (L & (A & N & T) & B & C & _);
    repeat split; auto.
Qed.

Lemma all_accounts_scope_is_rejected_witness :
  silent (importCsvFile quiet_server statement_file) (named_state "ALL") /\
  csvError (after (importCsvFile quiet_server statement_file) (named_state "ALL"))
    = scope_message "import positions from account statement".
Proof.
  pose proof (all_accounts_scope_is_rejected quiet_server statement_file
                (named_state "ALL") eq_refl) as H.
  cbv zeta in H. destruct H as (H1 & _ & _ & H4 & _).
  split.
  - apply H1. vm_compute. reflexivity.
  - apply H4; vm_compute; reflexivity.
Defined.

End ImportClaims.

(** ** Further facts about strings *)

Module TrimFacts.
Import JsString JsStringFacts Shapes.

Lemma upper_char_space (c : ascii) : is_space (upper_char c) = is_space c.
Proof.
  unfold upper_char. destruct (is_lower c) eqn:Hl; [|reflexivity].
  apply between_true in Hl.
  assert (Hc : code (ascii_of_nat (code c - 32)) = (code c - 32)%nat)
    by (apply code_ascii_of_nat; lia).
  unfold is_space, between. rewrite Hc.
  repeat match goal with
         | |- context [(?a <=? ?b)%nat] => destruct (Nat.leb_spec a b)
         | |- context [(?a =? ?b)%nat] => destruct (Nat.eqb_spec a b)
         end; simpl; try reflexivity; lia.
Qed.

Lemma upper_char_idempotent (c : ascii) : upper_char (upper_char c) = upper_char c.
Proof.
  unfold upper_char at 1. destruct (is_lower (upper_char c)) eqn:Hl; [|reflexivity].
  exfalso. unfold upper_char in Hl. destruct (is_lower c) eqn:Hc; [|congruence].
  apply between_true in Hc. apply between_true in Hl.
  rewrite code_ascii_of_nat in Hl by lia. lia.
Qed.

Lemma toUpperCase_idempotent (s : string) : toUpperCase (toUpperCase s) = toUpperCase s.
Proof.
  unfold toUpperCase. induction s as [|c s IH]; cbn [map_chars]; [reflexivity|].
  now rewrite upper_char_idempotent, IH.
Qed.

Lemma trimStart_upper (s : string) : trimStart (toUpperCase s) = toUpperCase (trimStart s).
Proof.
  unfold toUpperCase. induction s as [|c s IH]; cbn [map_chars trimStart]; [reflexivity|].
  rewrite upper_char_space. destruct (is_space c); [exact IH | reflexivity].
Qed.

Lemma trimEnd_upper (s : string) : trimEnd (toUpperCase s) = toUpperCase (trimEnd s).
Proof.
  unfold toUpperCase. induction s as [|c s IH]; cbn [map_chars trimEnd]; [reflexivity|].
  rewrite IH, upper_char_space.
  destruct (trimEnd s); cbn [map_chars]; [|reflexivity].
  destruct (is_space c); reflexivity.
Qed.

Lemma trim_upper (s : string) : trim (toUpperCase s) = toUpperCase (trim s).
Proof. unfold trim. now rewrite trimStart_upper, trimEnd_upper. Qed.

Lemma trimStart_clean (s : string) : clean_start (trimStart s).
Proof.
  induction s as [|c s IH]; cbn [trimStart]; [exact I|].
  destruct (is_space c) eqn:Hc; [exact IH | exact Hc].
Qed.

Lemma trimStart_fixed (s : string) : clean_start s -> trimStart s = s.
Proof. destruct s as [|c s]; simpl; [reflexivity | now intros ->]. Qed.

Lemma trimEnd_clean_start (s : string) : clean_start s -> clean_start (trimEnd s).
Proof.
  destruct s as [|c s]; cbn [trimEnd clean_start]; [auto|]. intros Hc.
  destruct (trimEnd s); [rewrite Hc|]; exact Hc.
Qed.

Lemma trimEnd_idempotent (s : string) : trimEnd (trimEnd s) = trimEnd s.
Proof.
  induction s as [|c s IH]; cbn [trimEnd]; [reflexivity|].
  destruct (trimEnd s) as [|d t] eqn:E.
  - destruct (is_space c) eqn:Hc; cbn [trimEnd]; [reflexivity | now rewrite Hc].
  - cbn [trimEnd]. cbn [trimEnd] in IH. now rewrite IH.
Qed.

Lemma trim_clean_start (s : string) : clean_start (trim s).
Proof. apply trimEnd_clean_start, trimStart_clean. Qed.

Lemma trim_idempotent (s : string) : trim (trim s) = trim s.
Proof.
  unfold trim at 1. rewrite (trimStart_fixed (trim s) (trim_clean_start s)).
  unfold trim. apply trimEnd_idempotent.
Qed.

(** Upper-casing a trimmed string leaves it trimmed. *)
Lemma canonical_fixed (s : string) :
  toUpperCase (trim (toUpperCase (trim s))) = toUpperCase (trim s).
Proof. now rewrite trim_upper, trim_idempotent, toUpperCase_idempotent. Qed.

Lemma trim_nonempty_head (s : string) :
  trim s <> "" -> exists c t, trim s = String c t /\ is_space c = false.
Proof.
  intros Hne. pose proof (trim_clean_start s) as Hc.
  destruct (trim s) as [|c t]; [congruence|]. now exists c, t.
Qed.

End TrimFacts.

(** ** Reading a successful match backwards *)

Module MatchInversion.
Import JsString JsStringFacts Regex RegexFacts CodecFacts.

Lemma matches_seq_inv a b st st'' :
  matches (Seq a b) st st'' ->
  exists st', matches a st st' /\ matches b st' st''.
Proof. inversion 1; subst; eauto. Qed.

Lemma matches_bol_inv st st' : matches Bol st st' -> st' = st /\ before st = None.
Proof. inversion 1; subst; auto. Qed.

Lemma matches_eol_inv st st' : matches Eol st st' -> st' = st /\ rest st = "".
Proof. inversion 1; subst; auto. Qed.

Lemma matches_cls_inv p st st' :
  matches (Cls p) st st' ->
  exists c s, rest st = String c s /\ p c = true /\
              st' = MState (Some c) s (caps st).
Proof. inversion 1; subst; simpl; eauto. Qed.

Lemma matches_rep_inv p lo hi st st' :
  matches (Rep p lo hi) st st' ->
  exists a b, rest st = a ++ b /\ all_chars p a = true /\
    (lo <= String.length a)%nat /\ within (String.length a) hi /\
    st' = MState (last_char a (before st)) b (caps st).
Proof. inversion 1; subst; eauto 10. Qed.

Lemma consumed_of (st st' : mstate) (a : string) :
  rest st = a ++ rest st' -> consumed st st' = a.
Proof.
  intros E. unfold consumed. rewrite E, length_append.
  replace (String.length a + String.length (rest st') - String.length (rest st'))%nat
    with (String.length a) by lia.
  apply take_append.
Qed.

(** A capture group around a repetition records what the repetition read. *)
Lemma matches_grp_rep_inv i p lo hi st st' :
  matches (Grp i (Rep p lo hi)) st st' ->
  exists a b, rest st = a ++ b /\ all_chars p a = true /\
    (lo <= String.length a)%nat /\ within (String.length a) hi /\
    st' = MState (last_char a (before st)) b ((i, a) :: caps st).
Proof.
  inversion 1 as [| | | | | | | |? ? ? st1 Hm| | |]; subst.
  apply matches_rep_inv in Hm as (a & b & E & Hp & Hlo & Hhi & ->).
  exists a, b. repeat split; auto.
  unfold set_cap. cbn [before rest caps]. f_equal. f_equal. f_equal.
  now apply consumed_of.
Qed.

Lemma matches_grp_cls_inv i p st st' :
  matches (Grp i (Cls p)) st st' ->
  exists c s, rest st = String c s /\ p c = true /\
    st' = MState (Some c) s ((i, String c "") :: caps st).
Proof.
  inversion 1 as [| | | | | | | |? ? ? st1 Hm| | |]; subst.
  apply matches_cls_inv in Hm as (c & s & E & Hp & ->).
  exists c, s. repeat split; auto.
  unfold set_cap. cbn [before rest caps]. f_equal. f_equal. f_equal.
  apply consumed_of. cbn [rest]. now rewrite E.
Qed.

(** A pattern that opens with [^] matches at the first position or not at
    all. *)
Lemma exec_from_bol r c s : exec_from (Seq Bol r) (Some c) s = None.
Proof.
  revert c. induction s as [|d s IH]; intros c; simpl; [reflexivity | apply IH].
Qed.

Lemma exec_anchored r s :
  exec (Seq Bol r) s = match_here (Seq Bol r) None s.
Proof.
  unfold exec. destruct s as [|c s]; cbn [exec_from].
  - now destruct (match_here _ _ _).
  - destruct (match_here _ _ _); [reflexivity | apply exec_from_bol].
Qed.

Lemma exec_anchored_sound r s m :
  exec (Seq Bol r) s = Some m -> matches r (MState None s []) m.
Proof.
  rewrite exec_anchored. unfold match_here. intros H.
  apply rmatch_sound in H as (st' & Hm & [= ->]).
  apply matches_seq_inv in Hm as (st1 & Hb & Hr).
  apply matches_bol_inv in Hb as [-> _]. exact Hr.
Qed.

(** Length of a text an anchored pattern accepts. *)
Lemma exec_anchored_width r s m :
  exec (Seq Bol r) s = Some m -> ends_with_eol r = true ->
  (min_width r <= String.length s)%nat /\ within (String.length s) (max_width r).
Proof.
  intros H He. apply exec_anchored_sound in H.
  pose proof (matches_eol _ _ _ H He) as Hr.
  destruct (matches_width _ _ _ H) as (w & E & L & U).
  cbn [rest] in E. rewrite Hr in E. cbn [String.length] in E.
  replace (String.length s) with w by lia. auto.
Qed.

End MatchInversion.

(** ** More on the symbol codec *)

Module CodecMore.
Import JsString JsStringFacts JsNum JsNumFacts Regex RegexFacts Codec CodecFacts.
Import TrimFacts MatchInversion.

Local Open Scope Z_scope.

Lemma length6_inv (D : string) :
  String.length D = 6%nat ->
  exists y1 y2 m1 m2 d1 d2, D = six y1 y2 m1 m2 d1 d2.
Proof.
  destruct D as [|a [|b [|c [|d [|e [|f [|g D]]]]]]]; try discriminate.
  intros _. now exists a, b, c, d, e, f.
Qed.

Lemma digit_range (c : ascii) :
  is_digit c = true -> 0 <= Z.of_nat (code c - 48) <= 9.
Proof. unfold is_digit. rewrite between_true. lia. Qed.

Lemma digit_code_inj (c d : ascii) :
  is_digit c = true -> is_digit d = true ->
  Z.of_nat (code c - 48) = Z.of_nat (code d - 48) -> c = d.
Proof.
  unfold is_digit. rewrite !between_true. intros Hc Hd E.
  apply code_inj. lia.
Qed.

(** Two runs of digits of one length with one value are the same text. *)
Lemma digits_value_inj (a : string) :
  forall (b : string) (v w : Z),
    String.length a = String.length b ->
    all_chars is_digit a = true -> all_chars is_digit b = true ->
    digits_value v a = digits_value w b -> v = w /\ a = b.
Proof.
  induction a as [|c a IH]; intros [|d b] v w Hl Ha Hb E;
    try discriminate Hl.
  - now split.
  - cbn [all_chars] in Ha, Hb. apply andb_true_iff in Ha as [Hc Ha].
    apply andb_true_iff in Hb as [Hd Hb].
    cbn [digits_value] in E. injection Hl as Hl.
    destruct (IH b _ _ Hl Ha Hb E) as [Ev ->].
    pose proof (digit_range c Hc). pose proof (digit_range d Hd).
    assert (v = w) by lia. subst w.
    split; [reflexivity|]. f_equal. apply digit_code_inj; auto. lia.
Qed.

Lemma digits_value_bound (a : string) :
  forall v, all_chars is_digit a = true -> 0 <= v ->
    v * 10 ^ Z.of_nat (String.length a) <= digits_value v a
      < (v + 1) * 10 ^ Z.of_nat (String.length a).
Proof.
  induction a as [|c a IH]; intros v Ha Hv.
  - cbn [digits_value String.length]. change (10 ^ Z.of_nat 0) with 1. lia.
  - cbn [all_chars] in Ha. apply andb_true_iff in Ha as [Hc Ha].
    pose proof (digit_range c Hc) as Hd.
    cbn [digits_value String.length].
    specialize (IH (10 * v + Z.of_nat (code c - 48)) Ha ltac:(lia)).
    rewrite Nat2Z.inj_succ, Z.pow_succ_r by lia.
    assert (0 < 10 ^ Z.of_nat (String.length a)) by (apply Z.pow_pos_nonneg; lia).
    nia.
Qed.

Lemma eight_digits_range (F : string) :
  String.length F = 8%nat -> all_chars is_digit F = true ->
  0 <= digits_value 0 F < 10 ^ 8.
Proof.
  intros HF Ha. pose proof (digits_value_bound F 0 Ha ltac:(lia)) as H.
  rewrite HF in H. change (Z.of_nat 8) with 8 in H. lia.
Qed.

(** An eight-digit field is the padded decimal of its own value. *)
Lemma pad8_of_value (F : string) :
  String.length F = 8%nat -> all_chars is_digit F = true ->
  padStart 8 "0" (digits_of (digits_value 0 F)) = F.
Proof.
  intros HF Ha. pose proof (eight_digits_range F HF Ha) as Hk.
  destruct (pad8_spec _ Hk) as (Hl & Hd & Hv).
  apply (digits_value_inj _ F 0 0); auto. congruence.
Qed.

Lemma floor_half (k : Z) (x : Q) :
  (x == inject_Z k + (1 # 2))%Q -> Qfloor x = k.
Proof.
  intros E. pose proof (Qfloor_le x) as Hlo. pose proof (Qlt_floor x) as Hhi.
  rewrite inject_Z_plus in Hhi. change (inject_Z 1) with 1%Q in Hhi.
  assert (H1 : (inject_Z (Qfloor x) < inject_Z (k + 1))%Q)
    by (rewrite inject_Z_plus; change (inject_Z 1) with 1%Q; lra).
  assert (H2 : (inject_Z k < inject_Z (Qfloor x + 1))%Q)
    by (rewrite inject_Z_plus; change (inject_Z 1) with 1%Q; lra).
  rewrite <- Zlt_Qlt in H1, H2. lia.
Qed.

Lemma underflow_below_thousandth : (underflow_bound < 1 # 1000)%Q.
Proof. vm_compute. reflexivity. Qed.

(** A count of thousandths below [10^8] is a finite number. *)
Lemma thousandths (k : Z) :
  0 <= k < 10 ^ 8 ->
  exists q, div (Fin (inject_Z k)) (Fin 1000) = Fin q /\
            (q == inject_Z k / 1000)%Q.
Proof.
  intros Hk. cbn [div]. change (Qeq_bool 1000 0) with false. cbv iota.
  destruct (Z.eq_dec k 0) as [->|Hne].
  - exists 0%Q. split; [vm_compute; reflexivity | reflexivity].
  - exists (Qred (inject_Z k / 1000)). split; [|apply Qred_correct].
    assert (H1 : (1 <= inject_Z k)%Q)
      by (change 1%Q with (inject_Z 1); rewrite <- Zle_Qle; lia).
    assert (H8 : (inject_Z k <= 99999999)%Q)
      by (change 99999999%Q with (inject_Z 99999999); rewrite <- Zle_Qle; lia).
    assert (E : (inject_Z k / 1000 == inject_Z k * (1 # 1000))%Q) by reflexivity.
    assert (Hp : (0 <= inject_Z k / 1000)%Q) by (rewrite E; lra).
    apply fin_in_range; rewrite (Qabs_pos _ Hp), E.
    + eapply Qlt_trans; [|apply overflow_bound_big].
      change (inject_Z (10 ^ 8)) with 100000000%Q. lra.
    + eapply Qlt_le_trans; [apply underflow_below_thousandth|]. lra.
Qed.

(** The strike field of a parsed strike is the field it was read from. *)
Lemma strike_field_parsed (F : string) :
  String.length F = 8%nat -> all_chars is_digit F = true ->
  strike_field (div (of_Z (digits_value 0 F)) (Fin 1000)) = F.
Proof.
  intros HF Ha. pose proof (eight_digits_range F HF Ha) as Hk.
  rewrite of_Z_small by exact Hk.
  destruct (thousandths _ Hk) as (q & -> & Eq).
  unfold strike_field.
  rewrite (round_scaled q (digits_value 0 F)); [| |exact Hk].
  - rewrite toString_small by exact Hk. now apply pad8_of_value.
  - symmetry. apply floor_half. rewrite Eq. field.
Qed.

(** *** What the OSI pattern accepts *)

Lemma osi_re_inv (t : string) (m : mstate) :
  exec osi_re t = Some m ->
  exists U D rc F,
    t = U ++ D ++ String rc F /\
    (1 <= String.length U <= 6)%nat /\ all_chars is_upper_alnum U = true /\
    String.length D = 6%nat /\ all_chars is_digit D = true /\
    is_cp rc = true /\
    String.length F = 8%nat /\ all_chars is_digit F = true.
Proof.
  intros H.
  change osi_re with (Seq Bol (seq [Grp 1 (range is_upper_alnum 1 6);
    Grp 2 (times is_digit 6); Grp 3 (Cls is_cp); Grp 4 (times is_digit 8); Eol])) in H.
  apply exec_anchored_sound in H. cbn [seq] in H. unfold range, times in H.
  apply matches_seq_inv in H as (s1 & H1 & H).
  apply matches_grp_rep_inv in H1 as (U & b1 & E1 & HU & Hlo & Hhi & ->).
  apply matches_seq_inv in H as (s2 & H2 & H).
  apply matches_grp_rep_inv in H2 as (D & b2 & E2 & HD & HDlo & HDhi & ->).
  apply matches_seq_inv in H as (s3 & H3 & H).
  apply matches_grp_cls_inv in H3 as (rc & s & E3 & Hrc & ->).
  apply matches_seq_inv in H as (s4 & H4 & H).
  apply matches_grp_rep_inv in H4 as (F & b4 & E4 & HF & HFlo & HFhi & ->).
  apply matches_eol_inv in H as [_ E5].
  cbn [rest within] in *. subst b4. rewrite append_nil_r in E4. subst.
  exists U, D, rc, F. repeat split; auto; lia.
Qed.

Lemma parse_canonical_eq (s : string) :
  parseOsiSymbol (toUpperCase (trim s)) = parseOsiSymbol s.
Proof. unfold parseOsiSymbol. now rewrite canonical_fixed. Qed.

(** A successful parse, read backwards. *)
Lemma parse_inv (s : string) (o : osi) :
  parseOsiSymbol s = Some o ->
  exists U y1 y2 m1 m2 d1 d2 rc F,
    toUpperCase (trim s) = U ++ six y1 y2 m1 m2 d1 d2 ++ String rc F /\
    (1 <= String.length U <= 6)%nat /\ all_chars is_upper_alnum U = true /\
    all_chars is_digit (six y1 y2 m1 m2 d1 d2) = true /\
    is_cp rc = true /\
    String.length F = 8%nat /\ all_chars is_digit F = true /\
    o = Osi U (iso20 y1 y2 m1 m2 d1 d2)
            (if Ascii.eqb rc "C" then "CALL" else "PUT")
            (div (of_Z (digits_value 0 F)) (Fin 1000)).
Proof.
  intros H.
  assert (exists m, exec osi_re (toUpperCase (trim s)) = Some m) as [m Hm].
  { unfold parseOsiSymbol in H.
    destruct (exec osi_re (toUpperCase (trim s))) as [m|]; [eauto | discriminate]. }
  apply osi_re_inv in Hm as (U & D & rc & F & E & HU & HUa & HD & HDa & Hrc & HF & HFa).
  destruct (length6_inv D HD) as (y1 & y2 & m1 & m2 & d1 & d2 & ->).
  rewrite <- parse_canonical_eq, E in H.
  rewrite parse_fields in H by assumption.
  exists U, y1, y2, m1, m2, d1, d2, rc, F. repeat split; auto; try lia.
  congruence.
Qed.

Lemma cp_cases (rc : ascii) : is_cp rc = true -> rc = "C"%char \/ rc = "P"%char.
Proof.
  unfold is_cp. rewrite orb_true_iff. intros [H|H]; apply Ascii.eqb_eq in H; auto.
Qed.

Lemma upper_alnum_trim (U : string) :
  all_chars is_upper_alnum U = true -> trim U = U.
Proof.
  intros H. apply trim_id. eapply all_chars_impl; [apply upper_alnum_not_space | exact H].
Qed.

(** Rebuilding from the fields of a parse, the right given as its letter. *)
Lemma rebuild_parsed (U F : string) (y1 y2 m1 m2 d1 d2 rc : ascii) :
  (1 <= String.length U <= 6)%nat -> all_chars is_upper_alnum U = true ->
  all_chars is_digit (six y1 y2 m1 m2 d1 d2) = true ->
  is_cp rc = true ->
  String.length F = 8%nat -> all_chars is_digit F = true ->
  buildOsiSymbol U (iso20 y1 y2 m1 m2 d1 d2)
    (if String.eqb (if Ascii.eqb rc "C" then "CALL" else "PUT") "PUT"
     then "P" else "C")
    (div (of_Z (digits_value 0 F)) (Fin 1000))
  = U ++ six y1 y2 m1 m2 d1 d2 ++ String rc F.
Proof.
  intros HU HUa HDa Hrc HF HFa.
  pose proof (eight_digits_range F HF HFa) as Hk.
  assert (HUne : U <> "") by (destruct U; [simpl in HU; lia | discriminate]).
  rewrite build_fields.
  - rewrite (upper_alnum_trim U HUa), (toUpperCase_fixed U HUa).
    rewrite compact_date_iso20 by exact HDa.
    rewrite strike_field_parsed by assumption.
    destruct (cp_cases rc Hrc) as [-> | ->]; reflexivity.
  - now rewrite (upper_alnum_trim U HUa).
  - rewrite trim_iso20 by exact HDa. discriminate.
  - destruct (cp_cases rc Hrc) as [-> | ->]; discriminate.
  - rewrite of_Z_small by exact Hk.
    destruct (thousandths _ Hk) as (q & -> & _). reflexivity.
  - now rewrite compact_date_iso20.
Qed.

(** The ranges of the fields of a parse. *)
Lemma parse_ranges (s : string) (o : osi) :
  parseOsiSymbol s = Some o ->
  (1 <= String.length (osi_underlying o) <= 6)%nat /\
  String.length (osi_expiry o) = 10%nat /\
  (osi_option_type o = "CALL" \/ osi_option_type o = "PUT") /\
  exists (k : Z) (q : Q),
    osi_strike o = Fin q /\ (0 <= k < 10 ^ 8)%Z /\ (q == inject_Z k / 1000)%Q.
Proof.
  intros H. apply parse_inv in H
    as (U & y1 & y2 & m1 & m2 & d1 & d2 & rc & F & _ & HU & _ & _ & Hrc & HF & HFa & ->).
  cbn [osi_underlying osi_expiry osi_option_type osi_strike].
  split; [exact HU|]. split; [reflexivity|]. split.
  - destruct (Ascii.eqb rc "C"); auto.
  - pose proof (eight_digits_range F HF HFa) as Hk.
    exists (digits_value 0 F). rewrite of_Z_small by exact Hk.
    destruct (thousandths _ Hk) as (q & -> & Eq). now exists q.
Qed.

(** *** Lengths *)

Lemma osi_length (s : string) (o : osi) :
  parseOsiSymbol s = Some o ->
  (16 <= String.length (toUpperCase (trim s)) <= 21)%nat.
Proof.
  intros H. apply parse_inv in H
    as (U & y1 & y2 & m1 & m2 & d1 & d2 & rc & F & E & HU & _ & _ & _ & HF & _).
  rewrite E, !length_append. cbn [six String.length]. lia.
Qed.

Lemma future_length (t : string) :
  test future_re t = true -> (4 <= String.length t <= 7)%nat.
Proof.
  unfold test. destruct (exec future_re t) as [m|] eqn:H; [intros _ | discriminate].
  change future_re with (Seq Bol (seq [range is_upper_alnum 1 4;
    Cls is_month_code; times is_digit 2; Eol])) in H.
  apply exec_anchored_width in H; [|reflexivity].
  cbn in H. lia.
Qed.

End CodecMore.

(** ** Expiry dates as typed *)

Module ExpiryFacts.
Import JsString JsStringFacts JsNum JsNumFacts Regex RegexFacts Codec CodecFacts.
Import Shapes TrimFacts MatchInversion CodecMore.

Lemma normalize_unfold (raw : string) :
  trim raw = raw -> raw <> "" ->
  normalizeExpiryInput raw =
    if test iso_date_re raw then raw
    else
      match exec (mdy_re dash 4) raw with
      | Some m => group 3 m ++ "-" ++ group 1 m ++ "-" ++ group 2 m
      | None =>
      match exec (mdy_re dash 2) raw with
      | Some m => "20" ++ group 3 m ++ "-" ++ group 1 m ++ "-" ++ group 2 m
      | None =>
      match exec (mdy_re slash 4) raw with
      | Some m => group 3 m ++ "-" ++ group 1 m ++ "-" ++ group 2 m
      | None =>
      match exec (mdy_re slash 2) raw with
      | Some m => "20" ++ group 3 m ++ "-" ++ group 1 m ++ "-" ++ group 2 m
      | None => raw
      end end end end.
Proof.
  intros Ht Hne. unfold normalizeExpiryInput. rewrite or_else_empty, Ht.
  destruct raw; [congruence | reflexivity].
Qed.

Lemma iso_date_re_anchored :
  iso_date_re = Seq Bol (seq [times is_digit 4; dash; times is_digit 2; dash;
                              times is_digit 2; Eol]).
Proof. reflexivity. Qed.

Lemma mdy_re_anchored (sep : re) (w : nat) :
  mdy_re sep w = Seq Bol (seq [Grp 1 (times is_digit 2); sep;
    Grp 2 (times is_digit 2); sep; Grp 3 (times is_digit w); Eol]).
Proof. reflexivity. Qed.

Lemma iso_test (y1 y2 y3 y4 m1 m2 d1 d2 : ascii) :
  is_digit y1 = true -> is_digit y2 = true -> is_digit y3 = true ->
  is_digit y4 = true -> is_digit m1 = true -> is_digit m2 = true ->
  is_digit d1 = true -> is_digit d2 = true ->
  test iso_date_re (iso_date y1 y2 y3 y4 m1 m2 d1 d2) = true.
Proof.
  intros Hy1 Hy2 Hy3 Hy4 Hm1 Hm2 Hd1 Hd2.
  unfold test. rewrite iso_date_re_anchored, exec_anchored.
  unfold match_here, iso_date, times, dash, chr.
  cbn [seq rmatch rep before rest caps hi_zero hi_pred pred].
  rewrite Hy1. cbn [seq rmatch rep before rest caps hi_zero hi_pred pred].
  rewrite Hy2. cbn [seq rmatch rep before rest caps hi_zero hi_pred pred].
  rewrite Hy3. cbn [seq rmatch rep before rest caps hi_zero hi_pred pred].
  rewrite Hy4. cbn [seq rmatch rep before rest caps hi_zero hi_pred pred].
  cbn.
  rewrite Hm1. cbn. rewrite Hm2. cbn. rewrite Hd1. cbn. rewrite Hd2. cbn.
  reflexivity.
Qed.

Ltac read_digits :=
  repeat first
    [ match goal with
      | H : is_digit ?c = true |- context [is_digit ?c] => rewrite H
      end
    | progress cbn ].

Ltac anchored :=
  unfold test;
  rewrite ?iso_date_re_anchored, ?mdy_re_anchored, ?exec_anchored;
  unfold match_here, times, dash, slash, chr.

Lemma trim_digits_and (p : ascii -> bool) (s : string) :
  (forall c, p c = true -> is_space c = false) ->
  all_chars p s = true -> trim s = s.
Proof.
  intros Hp H. apply trim_id. eapply all_chars_impl; [|exact H].
  intros c Hc. cbv beta. now rewrite (Hp c Hc).
Qed.

Lemma date_char_not_space (c : ascii) : date_char c = true -> is_space c = false.
Proof.
  unfold date_char. rewrite !orb_true_iff. intros [[H|H]|H].
  - apply negb_true_iff. now apply digit_not_space.
  - apply Ascii.eqb_eq in H. now subst.
  - apply Ascii.eqb_eq in H. now subst.
Qed.

Lemma date_char_digit (c : ascii) : is_digit c = true -> date_char c = true.
Proof. unfold date_char. now intros ->. Qed.

Ltac date_chars :=
  cbn [all_chars];
  repeat match goal with
         | H : is_digit ?c = true |- context [date_char ?c] =>
             rewrite (date_char_digit c H)
         end;
  reflexivity.

Section Formats.
Variables m1 m2 d1 d2 y1 y2 y3 y4 : ascii.
Hypothesis Hm1 : is_digit m1 = true.
Hypothesis Hm2 : is_digit m2 = true.
Hypothesis Hd1 : is_digit d1 = true.
Hypothesis Hd2 : is_digit d2 = true.
Hypothesis Hy1 : is_digit y1 = true.
Hypothesis Hy2 : is_digit y2 = true.
Hypothesis Hy3 : is_digit y3 = true.
Hypothesis Hy4 : is_digit y4 = true.

Lemma normalize_iso :
  normalizeExpiryInput (iso_date y1 y2 y3 y4 m1 m2 d1 d2)
    = iso_date y1 y2 y3 y4 m1 m2 d1 d2.
Proof.
  rewrite normalize_unfold; [| |discriminate].
  - now rewrite iso_test.
  - apply (trim_digits_and date_char); [apply date_char_not_space|].
    unfold iso_date. date_chars.
Qed.

Lemma normalize_dash4 :
  normalizeExpiryInput (mdy4 "-" m1 m2 d1 d2 y1 y2 y3 y4)
    = iso_date y1 y2 y3 y4 m1 m2 d1 d2.
Proof.
  rewrite normalize_unfold; [| |discriminate].
  - anchored. unfold mdy4. read_digits. reflexivity.
  - apply (trim_digits_and date_char); [apply date_char_not_space|].
    unfold mdy4. date_chars.
Qed.

Lemma normalize_slash4 :
  normalizeExpiryInput (mdy4 "/" m1 m2 d1 d2 y1 y2 y3 y4)
    = iso_date y1 y2 y3 y4 m1 m2 d1 d2.
Proof.
  rewrite normalize_unfold; [| |discriminate].
  - anchored. unfold mdy4. read_digits. reflexivity.
  - apply (trim_digits_and date_char); [apply date_char_not_space|].
    unfold mdy4. date_chars.
Qed.

Lemma normalize_dash2 :
  normalizeExpiryInput (mdy2 "-" m1 m2 d1 d2 y1 y2)
    = iso_date "2" "0" y1 y2 m1 m2 d1 d2.
Proof.
  rewrite normalize_unfold; [| |discriminate].
  - anchored. unfold mdy2. read_digits. reflexivity.
  - apply (trim_digits_and date_char); [apply date_char_not_space|].
    unfold mdy2. date_chars.
Qed.

Lemma normalize_slash2 :
  normalizeExpiryInput (mdy2 "/" m1 m2 d1 d2 y1 y2)
    = iso_date "2" "0" y1 y2 m1 m2 d1 d2.
Proof.
  rewrite normalize_unfold; [| |discriminate].
  - anchored. unfold mdy2. read_digits. reflexivity.
  - apply (trim_digits_and date_char); [apply date_char_not_space|].
    unfold mdy2. date_chars.
Qed.

End Formats.

Lemma length2_inv (a : string) :
  String.length a = 2%nat -> exists x y, a = String x (String y "").
Proof.
  destruct a as [|x [|y [|z a]]]; try discriminate. intros _. now exists x, y.
Qed.

Lemma length4_inv (a : string) :
  String.length a = 4%nat ->
  exists x y z w, a = String x (String y (String z (String w ""))).
Proof.
  destruct a as [|x [|y [|z [|w [|u a]]]]]; try discriminate.
  intros _. now exists x, y, z, w.
Qed.

(** What a month-day-year pattern accepts, and what it captures. *)
Lemma mdy_inv (sepc : ascii) (w : nat) (t : string) (m : mstate) :
  exec (mdy_re (chr sepc) w) t = Some m ->
  exists a b c,
    String.length a = 2%nat /\ all_chars is_digit a = true /\
    String.length b = 2%nat /\ all_chars is_digit b = true /\
    String.length c = w /\ all_chars is_digit c = true /\
    t = a ++ String sepc (b ++ String sepc c) /\
    group 1 m = a /\ group 2 m = b /\ group 3 m = c.
Proof.
  intros H. rewrite mdy_re_anchored in H. apply exec_anchored_sound in H.
  cbn [seq] in H. unfold times, chr in H.
  apply matches_seq_inv in H as (s1 & H1 & H).
  apply matches_grp_rep_inv in H1 as (a & r1 & E1 & Ha & Hal & Hah & ->).
  apply matches_seq_inv in H as (s2 & H2 & H).
  apply matches_cls_inv in H2 as (x & r2 & E2 & Hx & ->).
  apply matches_seq_inv in H as (s3 & H3 & H).
  apply matches_grp_rep_inv in H3 as (b & r3 & E3 & Hb & Hbl & Hbh & ->).
  apply matches_seq_inv in H as (s4 & H4 & H).
  apply matches_cls_inv in H4 as (y & r4 & E4 & Hy & ->).
  apply matches_seq_inv in H as (s5 & H5 & H).
  apply matches_grp_rep_inv in H5 as (c & r5 & E5 & Hc & Hcl & Hch & ->).
  apply matches_eol_inv in H as [-> E6].
  cbn [rest within caps before] in *.
  apply Ascii.eqb_eq in Hx, Hy. subst x y r5.
  rewrite append_nil_r in E5. subst.
  exists a, b, c. repeat split; auto; lia.
Qed.

Lemma normalize_trim (v : string) :
  normalizeExpiryInput v = normalizeExpiryInput (trim v).
Proof.
  unfold normalizeExpiryInput. now rewrite !or_else_empty, trim_idempotent.
Qed.

Lemma two_digits (a : string) :
  String.length a = 2%nat -> all_chars is_digit a = true ->
  exists x y, a = String x (String y "") /\ is_digit x = true /\ is_digit y = true.
Proof.
  intros Hl Ha. destruct (length2_inv a Hl) as (x & y & ->).
  cbn [all_chars] in Ha. rewrite !andb_true_iff in Ha.
  exists x, y. tauto.
Qed.

Lemma four_digits (a : string) :
  String.length a = 4%nat -> all_chars is_digit a = true ->
  exists x y z w, a = String x (String y (String z (String w ""))) /\
    is_digit x = true /\ is_digit y = true /\ is_digit z = true /\
    is_digit w = true.
Proof.
  intros Hl Ha. destruct (length4_inv a Hl) as (x & y & z & w & ->).
  cbn [all_chars] in Ha. rewrite !andb_true_iff in Ha.
  exists x, y, z, w. tauto.
Qed.

(** The text a month-day-year match is rewritten to is an ISO date. *)
Lemma mdy_rewritten (sepc : ascii) (w : nat) (t century : string) (m : mstate) :
  exec (mdy_re (chr sepc) w) t = Some m ->
  String.length century = (4 - w)%nat -> all_chars is_digit century = true ->
  (w <= 4)%nat ->
  exists y1 y2 y3 y4 m1 m2 d1 d2,
    century ++ group 3 m ++ "-" ++ group 1 m ++ "-" ++ group 2 m
      = iso_date y1 y2 y3 y4 m1 m2 d1 d2 /\
    all_chars is_digit
      (String y1 (String y2 (String y3 (String y4
        (String m1 (String m2 (String d1 (String d2 ""))))))))  = true.
Proof.
  intros H Hcl Hca Hw.
  apply mdy_inv in H as (a & b & c & Hal & Ha & Hbl & Hb & Hcl' & Hc & _ & -> & -> & ->).
  destruct (two_digits a Hal Ha) as (m1 & m2 & -> & Hm1 & Hm2).
  destruct (two_digits b Hbl Hb) as (d1 & d2 & -> & Hd1 & Hd2).
  assert (Hy : String.length (century ++ c) = 4%nat)
    by (rewrite length_append; lia).
  assert (Hya : all_chars is_digit (century ++ c) = true)
    by (now rewrite all_chars_append, Hca, Hc).
  destruct (four_digits _ Hy Hya) as (y1 & y2 & y3 & y4 & E & Hy1 & Hy2 & Hy3 & Hy4).
  exists y1, y2, y3, y4, m1, m2, d1, d2. split.
  - rewrite <- append_assoc, E. reflexivity.
  - cbn [all_chars]. now rewrite Hy1, Hy2, Hy3, Hy4, Hm1, Hm2, Hd1, Hd2.
Qed.

Lemma normalize_iso_digits (y1 y2 y3 y4 m1 m2 d1 d2 : ascii) :
  all_chars is_digit
    (String y1 (String y2 (String y3 (String y4
      (String m1 (String m2 (String d1 (String d2 "")))))))) = true ->
  normalizeExpiryInput (iso_date y1 y2 y3 y4 m1 m2 d1 d2)
    = iso_date y1 y2 y3 y4 m1 m2 d1 d2.
Proof.
  cbn [all_chars]. rewrite !andb_true_iff.
  intros (Hy1 & Hy2 & Hy3 & Hy4 & Hm1 & Hm2 & Hd1 & Hd2 & _).
  now apply normalize_iso.
Qed.

Lemma normalize_fixed (v : string) :
  normalizeExpiryInput (normalizeExpiryInput v) = normalizeExpiryInput v.
Proof.
  rewrite (normalize_trim v).
  pose proof (trim_idempotent v) as Ht. set (raw := trim v) in *.
  destruct (string_dec raw "") as [->|Hne]; [reflexivity|].
  rewrite (normalize_unfold raw Ht Hne).
  destruct (test iso_date_re raw) eqn:Hiso.
  { now rewrite (normalize_unfold raw Ht Hne), Hiso. }
  destruct (exec (mdy_re dash 4) raw) as [m|] eqn:H1.
  { destruct (mdy_rewritten "-" 4 raw "" m H1 eq_refl eq_refl (le_n 4))
      as (y1 & y2 & y3 & y4 & m1 & m2 & d1 & d2 & E & Hd).
    cbn [String.append] in E |- *. rewrite E. now apply normalize_iso_digits. }
  destruct (exec (mdy_re dash 2) raw) as [m|] eqn:H2.
  { destruct (mdy_rewritten "-" 2 raw "20" m H2 eq_refl eq_refl ltac:(lia))
      as (y1 & y2 & y3 & y4 & m1 & m2 & d1 & d2 & E & Hd).
    cbn [String.append] in E |- *. rewrite E. now apply normalize_iso_digits. }
  destruct (exec (mdy_re slash 4) raw) as [m|] eqn:H3.
  { destruct (mdy_rewritten "/" 4 raw "" m H3 eq_refl eq_refl (le_n 4))
      as (y1 & y2 & y3 & y4 & m1 & m2 & d1 & d2 & E & Hd).
    cbn [String.append] in E |- *. rewrite E. now apply normalize_iso_digits. }
  destruct (exec (mdy_re slash 2) raw) as [m|] eqn:H4.
  { destruct (mdy_rewritten "/" 2 raw "20" m H4 eq_refl eq_refl ltac:(lia))
      as (y1 & y2 & y3 & y4 & m1 & m2 & d1 & d2 & E & Hd).
    cbn [String.append] in E |- *. rewrite E. now apply normalize_iso_digits. }
  now rewrite (normalize_unfold raw Ht Hne), Hiso, H1, H2, H3, H4.
Qed.

End ExpiryFacts.

(** ** Properties of the symbol codec *)

Module CodecProperties.
Import JsString JsStringFacts JsNum JsNumFacts Regex RegexFacts Codec CodecFacts.
Import Shapes TrimFacts MatchInversion CodecMore ExpiryFacts.

(** Property X1.  [parseOsiSymbol] returns a result exactly for the texts
    that, once trimmed and put in upper case, are one to six upper-case
    letters or digits, six digits, the letter C or P and eight digits, with
    nothing before or after.  The result is then the leading run as
    underlying, the six digits as [20YY-MM-DD], CALL for C and PUT for P,
    and the eight digits read as a number and divided by 1000. *)
Theorem parse_reads_fields (s : string) (o : osi) :
  parseOsiSymbol s = Some o <->
  exists U y1 y2 m1 m2 d1 d2 rc F,
    toUpperCase (trim s) = U ++ six y1 y2 m1 m2 d1 d2 ++ String rc F /\
    (1 <= String.length U <= 6)%nat /\ all_chars is_upper_alnum U = true /\
    all_chars is_digit (six y1 y2 m1 m2 d1 d2) = true /\
    is_cp rc = true /\
    String.length F = 8%nat /\ all_chars is_digit F = true /\
    o = Osi U (iso20 y1 y2 m1 m2 d1 d2)
            (if Ascii.eqb rc "C" then "CALL" else "PUT")
            (div (of_Z (digits_value 0 F)) (Fin 1000)).
Proof.
  split; [apply parse_inv|].
  intros (U & y1 & y2 & m1 & m2 & d1 & d2 & rc & F & E & HU & HUa & HD & Hrc & HF & HFa & ->).
  rewrite <- parse_canonical_eq, E. now apply parse_fields.
Qed.

Lemma parse_reads_fields_witness :
  parseOsiSymbol "  aapl260117p00150500 "
    = Some (Osi "AAPL" "2026-01-17" "PUT" (Fin (301 # 2))).
Proof.
  apply (proj2 (parse_reads_fields "  aapl260117p00150500 "
                  (Osi "AAPL" "2026-01-17" "PUT" (Fin (301 # 2))))).
  exists "AAPL", "2"%char, "6"%char, "0"%char, "1"%char, "1"%char, "7"%char,
         "P"%char, "00150500".
  repeat split; try (vm_compute; reflexivity); simpl; lia.
Defined.

(** Property X2.  Whatever [parseOsiSymbol] returns has an underlying of one
    to six characters, an expiry of ten characters, the option type CALL or
    PUT, and a strike that is a finite number: a whole count of thousandths
    between 0 and 99999.999. *)
Theorem parse_result_ranges (s : string) (o : osi) :
  parseOsiSymbol s = Some o ->
  (1 <= String.length (osi_underlying o) <= 6)%nat /\
  String.length (osi_expiry o) = 10%nat /\
  (osi_option_type o = "CALL" \/ osi_option_type o = "PUT") /\
  exists (k : Z) (q : Q),
    osi_strike o = Fin q /\ (0 <= k < 10 ^ 8)%Z /\ (q == inject_Z k / 1000)%Q.
Proof. exact (parse_ranges s o). Qed.

Lemma parse_result_ranges_witness :
  String.length (osi_expiry (Osi "SPY" "2025-12-19" "CALL" (Fin 600))) = 10%nat.
Proof.
  exact (proj1 (proj2 (parse_result_ranges "spy251219c00600000"
    (Osi "SPY" "2025-12-19" "CALL" (Fin 600)) eq_refl))).
Defined.

(** Property X3.  A parsed symbol can be written back: building a symbol
    from the parsed underlying, expiry and strike, with the right given as
    the letter P for a PUT and C otherwise, gives the trimmed, upper-case
    form of the text that was parsed, and parsing that symbol returns the
    same fields. *)
Theorem rebuild_gives_canonical_symbol (s : string) (o : osi) :
  parseOsiSymbol s = Some o ->
  let right := if String.eqb (osi_option_type o) "PUT" then "P" else "C" in
  let built :=
    buildOsiSymbol (osi_underlying o) (osi_expiry o) right (osi_strike o) in
  built = toUpperCase (trim s) /\ parseOsiSymbol built = Some o.
Proof.
  intros H. pose proof H as H'. apply parse_inv in H'
    as (U & y1 & y2 & m1 & m2 & d1 & d2 & rc & F & E & HU & HUa & HD & Hrc & HF & HFa & ->).
  cbv zeta. cbn [osi_underlying osi_expiry osi_option_type osi_strike].
  rewrite rebuild_parsed by assumption. rewrite <- E. split; [reflexivity|].
  now rewrite parse_canonical_eq.
Qed.

Lemma rebuild_gives_canonical_symbol_witness :
  buildOsiSymbol "AAPL" "2026-01-17" "P" (Fin (301 # 2)) = "AAPL260117P00150500" /\
  parseOsiSymbol (buildOsiSymbol "AAPL" "2026-01-17" "P" (Fin (301 # 2)))
    = Some (Osi "AAPL" "2026-01-17" "PUT" (Fin (301 # 2))).
Proof.
  exact (rebuild_gives_canonical_symbol " aapl260117p00150500"
           (Osi "AAPL" "2026-01-17" "PUT" (Fin (301 # 2))) eq_refl).
Defined.

(** Property X4.  No text is both an option symbol and a futures symbol:
    when [parseOsiSymbol] accepts a text, [isFutureSymbol] rejects it. *)
Theorem osi_symbol_is_not_future (s : string) (o : osi) :
  parseOsiSymbol s = Some o -> isFutureSymbol s = false.
Proof.
  intros H. apply osi_length in H. unfold isFutureSymbol.
  rewrite or_else_empty.
  destruct (JsString.truthy (toUpperCase (trim s))); [|reflexivity].
  cbn [negb]. destruct (test future_re (toUpperCase (trim s))) eqn:Ht;
    [|reflexivity].
  apply future_length in Ht. lia.
Qed.

Lemma osi_symbol_is_not_future_witness :
  isFutureSymbol "ES260117C00150000" = false.
Proof.
  exact (osi_symbol_is_not_future "ES260117C00150000"
           (Osi "ES" "2026-01-17" "CALL" (Fin 150)) eq_refl).
Defined.

(** Property X5.  [normalizeExpiryInput] is idempotent: a date that has
    been normalised once is left as it is by a second pass. *)
Theorem normalize_expiry_idempotent (v : string) :
  normalizeExpiryInput (normalizeExpiryInput v) = normalizeExpiryInput v.
Proof. exact (normalize_fixed v). Qed.

(** Property X6.  For any digits, without any check that they name a real
    month or day, [normalizeExpiryInput] leaves [YYYY-MM-DD] as it is,
    turns [MM-DD-YYYY] and [MM/DD/YYYY] into [YYYY-MM-DD], and turns
    [MM-DD-YY] and [MM/DD/YY] into [20YY-MM-DD]. *)
Theorem normalize_expiry_formats (m1 m2 d1 d2 y1 y2 y3 y4 : ascii) :
  all_chars is_digit
    (String m1 (String m2 (String d1 (String d2
      (String y1 (String y2 (String y3 (String y4 "")))))))) = true ->
  normalizeExpiryInput (iso_date y1 y2 y3 y4 m1 m2 d1 d2)
    = iso_date y1 y2 y3 y4 m1 m2 d1 d2 /\
  normalizeExpiryInput (mdy4 "-" m1 m2 d1 d2 y1 y2 y3 y4)
    = iso_date y1 y2 y3 y4 m1 m2 d1 d2 /\
  normalizeExpiryInput (mdy4 "/" m1 m2 d1 d2 y1 y2 y3 y4)
    = iso_date y1 y2 y3 y4 m1 m2 d1 d2 /\
  normalizeExpiryInput (mdy2 "-" m1 m2 d1 d2 y3 y4)
    = iso_date "2" "0" y3 y4 m1 m2 d1 d2 /\
  normalizeExpiryInput (mdy2 "/" m1 m2 d1 d2 y3 y4)
    = iso_date "2" "0" y3 y4 m1 m2 d1 d2.
Proof.
  cbn [all_chars]. rewrite !andb_true_iff.
  intros (Hm1 & Hm2 & Hd1 & Hd2 & Hy1 & Hy2 & Hy3 & Hy4 & _).
  split; [now apply normalize_iso|].
  split; [now apply normalize_dash4|].
  split; [now apply normalize_slash4|].
  split; [now apply normalize_dash2 | now apply normalize_slash2].
Qed.

Lemma normalize_expiry_formats_witness :
  normalizeExpiryInput "13/45/2026" = "2026-13-45" /\
  normalizeExpiryInput "01-17-26" = "2026-01-17".
Proof.
  split.
  - exact (proj1 (proj2 (proj2 (normalize_expiry_formats
      "1" "3" "4" "5" "2" "0" "2" "6" eq_refl)))).
  - exact (proj1 (proj2 (proj2 (proj2 (normalize_expiry_formats
      "0" "1" "1" "7" "2" "0" "2" "6" eq_refl))))).
Defined.

End CodecProperties.

(** ** The scanner of delimited text *)

Module CsvFacts.
Import JsString JsStringFacts Csv CsvWriter.

(** What holds of the rows collected so far and survives every
    [push_row] holds of the result. *)
Lemma go_invariant (P : list (list string) -> Prop) :
  (forall rows row, P rows -> P (push_row rows row)) ->
  forall (n : nat) (text : string) (q : bool) (cur : string)
         (row : list string) (rows : list (list string)),
    (String.length text <= n)%nat ->
    P rows -> P (parseCsvRows_go text q cur row rows).
Proof.
  intros Hpush. induction n as [|n IH]; intros text q cur row rows Hn HP.
  - destruct text; [|simpl in Hn; lia].
    cbn [parseCsvRows_go]. destruct (_ || _); auto.
  - destruct text as [|ch rest].
    + cbn [parseCsvRows_go]. destruct (_ || _); auto.
    + cbn [String.length] in Hn.
      assert (Hr : (String.length rest <= n)%nat) by lia.
      assert (Hr' : forall c2 rest', rest = String c2 rest' ->
                (String.length rest' <= n)%nat)
        by (intros c2 rest' ->; simpl in Hr; lia).
      cbn [parseCsvRows_go]. destruct q.
      * destruct (Ascii.eqb ch quote).
        -- destruct rest as [|c2 rest']; [now apply IH|].
           destruct (Ascii.eqb c2 quote); apply IH; eauto.
        -- now apply IH.
      * destruct (Ascii.eqb ch quote); [now apply IH|].
        destruct (Ascii.eqb ch comma); [now apply IH|].
        destruct (Ascii.eqb ch lf || Ascii.eqb ch cr); [|now apply IH].
        destruct rest as [|c2 rest']; [apply IH; auto|].
        destruct (Ascii.eqb ch cr && Ascii.eqb c2 lf); apply IH; eauto.
Qed.

Lemma push_row_content (rows : list (list string)) (row : list string) :
  Forall (fun r => has_content r = true) rows ->
  Forall (fun r => has_content r = true) (push_row rows row).
Proof.
  intros H. unfold push_row. destruct (has_content row) eqn:E; [|exact H].
  apply Forall_app. split; [exact H | now constructor].
Qed.

(** *** Reading back quoted cells *)

Lemma read_escaped (cell : string) :
  forall (rest cur : string) (row : list string) (rows : list (list string)),
    closes rest ->
    parseCsvRows_go (escape cell ++ String quote rest) true cur row rows
      = parseCsvRows_go rest false (cur ++ cell) row rows.
Proof.
  induction cell as [|c cell IH]; intros rest cur row rows Hc.
  - cbn [escape String.append parseCsvRows_go].
    rewrite Ascii.eqb_refl, append_nil_r.
    destruct rest as [|c2 rest']; [reflexivity|].
    cbn [closes] in Hc. now rewrite Hc.
  - cbn [escape]. destruct (Ascii.eqb c quote) eqn:Eq.
    + apply Ascii.eqb_eq in Eq. subst c.
      cbn [String.append parseCsvRows_go]. rewrite !Ascii.eqb_refl.
      rewrite IH by exact Hc. unfold push_char.
      now rewrite append_assoc.
    + cbn [String.append parseCsvRows_go]. rewrite Eq.
      rewrite IH by exact Hc. unfold push_char.
      now rewrite append_assoc.
Qed.

Lemma read_quoted (cell rest cur : string) (row : list string)
    (rows : list (list string)) :
  closes rest ->
  parseCsvRows_go (quoted cell ++ rest) false cur row rows
    = parseCsvRows_go rest false (cur ++ cell) row rows.
Proof.
  intros Hc. unfold quoted. cbn [String.append parseCsvRows_go].
  rewrite Ascii.eqb_refl, append_assoc. cbn [String.append].
  now apply read_escaped.
Qed.

Lemma read_plain (cell : string) :
  forall (rest cur : string) (row : list string) (rows : list (list string)),
    all_chars plain_char cell = true ->
    parseCsvRows_go (cell ++ rest) false cur row rows
      = parseCsvRows_go rest false (cur ++ cell) row rows.
Proof.
  induction cell as [|c cell IH]; intros rest cur row rows Hp.
  - cbn [String.append]. now rewrite append_nil_r.
  - cbn [all_chars] in Hp. apply andb_true_iff in Hp as [Hc Hp].
    unfold plain_char in Hc. apply negb_true_iff in Hc.
    rewrite !orb_false_iff in Hc. destruct Hc as (((Hq & Hm) & Hl) & Hr).
    cbn [String.append parseCsvRows_go]. rewrite Hq, Hm, Hl, Hr. cbn [orb].
    rewrite IH by exact Hp. unfold push_char. now rewrite append_assoc.
Qed.

Section Writer.
Variable w : string -> string.
Hypothesis Hw : writes w.

Lemma read_written (cell rest cur : string) (row : list string)
    (rows : list (list string)) :
  closes rest ->
  parseCsvRows_go (w cell ++ rest) false cur row rows
    = parseCsvRows_go rest false (cur ++ cell) row rows.
Proof.
  intros Hc. destruct (Hw cell) as [-> | [-> Hp]].
  - now apply read_quoted.
  - now apply read_plain.
Qed.

(** The cells of a non-empty row, up to the text that follows them. *)
Lemma read_cells (row : list string) :
  forall (c tail : string) (pre : list string) (rows : list (list string)),
    closes tail ->
    parseCsvRows_go (cells w (c :: row) ++ tail) false "" pre rows
      = parseCsvRows_go tail false (List.last (c :: row) "")
          (pre ++ List.removelast (c :: row)) rows.
Proof.
  induction row as [|c' row IH]; intros c tail pre rows Ht.
  - cbn [cells List.last List.removelast]. rewrite read_written by exact Ht.
    now rewrite app_nil_r.
  - change (cells w (c :: c' :: row))
      with (w c ++ String comma (cells w (c' :: row))).
    rewrite append_assoc. cbn [String.append].
    rewrite read_written by reflexivity.
    cbn [parseCsvRows_go String.append].
    change (Ascii.eqb comma quote) with false. rewrite Ascii.eqb_refl.
    cbv iota. rewrite IH by exact Ht.
    change (List.last (c :: c' :: row) "") with (List.last (c' :: row) "").
    change (List.removelast (c :: c' :: row)) with (c :: List.removelast (c' :: row)).
    now rewrite <- app_assoc.
Qed.

(** The row the scanner pushes for a written row: a row without cells is
    read as one empty cell. *)
Lemma read_row (row : list string) (tail : string)
    (rows : list (list string)) :
  closes tail ->
  exists cur pre,
    parseCsvRows_go (cells w row ++ tail) false "" [] rows
      = parseCsvRows_go tail false cur pre rows /\
    has_content (pre ++ [cur]) = has_content row /\
    (has_content row = true -> (pre ++ [cur])%list = row).
Proof.
  intros Ht. destruct row as [|c row].
  - exists "", []. repeat split; [discriminate].
  - exists (List.last (c :: row) ""), (List.removelast (c :: row)).
    rewrite read_cells by exact Ht. cbn [app].
    rewrite <- app_removelast_last by discriminate. auto.
Qed.

Lemma push_row_filter (acc : list (list string)) (r row : list string)
    (rs : list (list string)) :
  has_content r = has_content row -> (has_content row = true -> r = row) ->
  (push_row acc r ++ List.filter has_content rs
    = acc ++ List.filter has_content (row :: rs))%list.
Proof.
  intros E H. unfold push_row. cbn [List.filter]. rewrite E.
  destruct (has_content row); [|reflexivity].
  rewrite (H eq_refl), <- app_assoc. reflexivity.
Qed.

Lemma read_document_lf (rs : list (list string)) :
  forall acc,
    parseCsvRows_go (document w (String lf "") rs) false "" [] acc
      = (acc ++ List.filter has_content rs)%list.
Proof.
  induction rs as [|row rs IH]; intros acc.
  - cbn. now rewrite app_nil_r.
  - cbn [document String.append].
    destruct (read_row row (String lf (document w (String lf "") rs)) acc eq_refl)
      as (cur & pre & -> & E & H).
    cbn [parseCsvRows_go].
    change (Ascii.eqb lf quote) with false.
    change (Ascii.eqb lf comma) with false.
    change (Ascii.eqb lf lf || Ascii.eqb lf cr) with true.
    change (Ascii.eqb lf cr) with false. cbv iota. cbn [andb].
    assert (G : parseCsvRows_go (document w (String lf "") rs) false "" []
                  (push_row acc (pre ++ [cur]))
                = (acc ++ List.filter has_content (row :: rs))%list)
      by (rewrite IH; now apply push_row_filter).
    destruct (document w (String lf "") rs); exact G.
Qed.

Lemma read_document_crlf (rs : list (list string)) :
  forall acc,
    parseCsvRows_go (document w (String cr (String lf "")) rs) false "" [] acc
      = (acc ++ List.filter has_content rs)%list.
Proof.
  induction rs as [|row rs IH]; intros acc.
  - cbn. now rewrite app_nil_r.
  - cbn [document String.append].
    destruct (read_row row
                (String cr (String lf (document w (String cr (String lf "")) rs)))
                acc eq_refl)
      as (cur & pre & -> & E & H).
    cbn [parseCsvRows_go].
    change (Ascii.eqb cr quote) with false.
    change (Ascii.eqb cr comma) with false.
    change (Ascii.eqb cr lf || Ascii.eqb cr cr) with true.
    change (Ascii.eqb cr cr && Ascii.eqb lf lf) with true. cbv iota.
    rewrite IH. now apply push_row_filter.
Qed.

End Writer.

Lemma minimal_writes : writes minimal.
Proof.
  intros cell. unfold minimal.
  destruct (all_chars plain_char cell) eqn:E; [right | left]; auto.
Qed.

Lemma quoted_writes : writes quoted.
Proof. intros cell. now left. Qed.

(** *** Objects built from a header row *)

Lemma obj_get_update_same (k v : string) (o : object) :
  obj_get k (obj_update k v o) = Some v.
Proof.
  induction o as [|[k' v'] o IH]; cbn [obj_update obj_get].
  - now rewrite String.eqb_refl.
  - destruct (String.eqb k k') eqn:E; cbn [obj_get]; now rewrite E.
Qed.

Lemma obj_get_update_other (k k' v : string) (o : object) :
  k <> k' -> obj_get k (obj_update k' v o) = obj_get k o.
Proof.
  intros Hne. apply String.eqb_neq in Hne.
  induction o as [|[k2 v2] o IH]; cbn [obj_update obj_get].
  - now rewrite Hne.
  - destruct (String.eqb k' k2) eqn:E; cbn [obj_get].
    + apply String.eqb_eq in E. subst k2. now rewrite Hne.
    + now rewrite IH.
Qed.

Lemma obj_get_set_other (k k' v : string) (o : object) :
  k <> k' -> obj_get k (obj_set k' v o) = obj_get k o.
Proof.
  intros Hne. unfold obj_set. destruct (String.eqb k' "__proto__"); auto.
  now apply obj_get_update_other.
Qed.

Section Header.
Variable cols : list string.

Lemma fold_header_absent (key : string) (hs : list string) :
  forall n init, ~ In key hs ->
    obj_get key (fold_left (assign_column cols) (zip_with_index n hs) init) = obj_get key init.
Proof.
  induction hs as [|h hs IH]; intros n init Hn; [reflexivity|].
  cbn [zip_with_index fold_left]. rewrite IH by (intros Hin; apply Hn; now right).
  unfold assign_column. apply obj_get_set_other. intros ->. apply Hn. now left.
Qed.

(** The last column that bears a name is the one its property holds. *)
Lemma fold_header_last (key : string) (h1 h2 : list string) :
  forall n init, key <> "__proto__" -> ~ In key h2 ->
    obj_get key (fold_left (assign_column cols) (zip_with_index n (h1 ++ key :: h2)%list) init)
      = Some (nth (n + length h1) cols "").
Proof.
  induction h1 as [|h h1 IH]; intros n init Hp Hn.
  - cbn [app zip_with_index fold_left length].
    rewrite fold_header_absent by exact Hn.
    unfold assign_column, obj_set. apply String.eqb_neq in Hp. rewrite Hp.
    rewrite obj_get_update_same. unfold col_or_empty. f_equal. f_equal. lia.
  - cbn [app zip_with_index fold_left length].
    rewrite IH by assumption. f_equal. f_equal. lia.
Qed.

End Header.

Lemma nth_error_split_last {X : Type} (l : list X) (i : nat) (x : X) :
  nth_error l i = Some x ->
  (forall j y, (i < j)%nat -> nth_error l j = Some y -> y <> x) ->
  exists h1 h2, l = (h1 ++ x :: h2)%list /\ length h1 = i /\ ~ In x h2.
Proof.
  intros Hi Hlast. destruct (nth_error_split l i Hi) as (h1 & h2 & -> & Hl).
  exists h1, h2. repeat split; auto.
  intros Hin. apply In_nth_error in Hin as [j Hj].
  apply (Hlast (length h1 + S j)%nat x); [lia| |reflexivity].
  rewrite nth_error_app2 by lia.
  replace (length h1 + S j - length h1)%nat with (S j) by lia. exact Hj.
Qed.

End CsvFacts.

(** ** Properties of the reader of delimited text *)

Module CsvProperties.
Import JsString JsStringFacts Csv CsvWriter CsvFacts.

(** Property X7.  [parseCsvRows] never returns a blank row: every row of
    its result has a cell that is not empty after trimming. *)
Theorem rows_have_content (text : string) :
  Forall (fun row => has_content row = true) (parseCsvRows text).
Proof.
  unfold parseCsvRows.
  apply (go_invariant _ push_row_content (String.length text)); auto.
Qed.

(** Property X8.  Text written row by row, commas between the cells and a
    line feed or carriage return plus line feed after each row, every cell
    either between double quotes with its inner double quotes doubled, or as
    it is when it holds no double quote, comma or line break, is read back
    cell for cell, whatever the quoted cells contain; the rows without any
    non-blank cell are the only ones left out. *)
Theorem written_round_trip (w : string -> string) (eol : string)
    (rows : list (list string)) :
  writes w ->
  eol = String lf "" \/ eol = String cr (String lf "") ->
  parseCsvRows (document w eol rows) = List.filter has_content rows.
Proof.
  intros Hw [-> | ->]; unfold parseCsvRows.
  - now rewrite read_document_lf.
  - now rewrite read_document_crlf.
Qed.

Lemma written_round_trip_witness :
  document minimal (String lf "") [["symbol"; "note"]; ["AAPL"; "a, b"]]
    = "symbol,note" ++ String lf ("AAPL," ++ String quote "a, b" ++ String quote (String lf "")) /\
  parseCsvRows
    (document minimal (String cr (String lf ""))
       [["symbol"; "note"]; [" "; ""]; ["AAPL"; String quote "a, b" ++ String lf "c"]])
  = [["symbol"; "note"]; ["AAPL"; String quote "a, b" ++ String lf "c"]].
Proof.
  split; [reflexivity|].
  exact (written_round_trip minimal (String cr (String lf ""))
    [["symbol"; "note"]; [" "; ""]; ["AAPL"; String quote "a, b" ++ String lf "c"]]
    minimal_writes (or_intror eq_refl)).
Defined.

(** Property X9.  [parseCsv] makes one object per row after the first, and
    in each object the property named by a trimmed header cell holds the
    cell of the same column, or the empty string when the row is too short;
    when a header name occurs more than once, the last column bearing it is
    the one that counts.  (The name [__proto__] is set aside: assigning to
    it adds no property.) *)
Theorem header_lookup (text : string) (first : list string)
    (dataRows : list (list string)) :
  parseCsvRows text = first :: dataRows ->
  length (parseCsv text) = length dataRows /\
  forall (j i : nat) (cols : list string) (cell : string),
    nth_error dataRows j = Some cols ->
    nth_error first i = Some cell ->
    trim cell <> "__proto__" ->
    (forall i' cell', (i < i')%nat -> nth_error first i' = Some cell' ->
                      trim cell' <> trim cell) ->
    exists o, nth_error (parseCsv text) j = Some o /\
              obj_get (trim cell) o = Some (nth i cols "").
Proof.
  intros Hrows. unfold parseCsv. rewrite Hrows. split; [apply length_map|].
  intros j i cols cell Hj Hi Hp Hlast.
  rewrite nth_error_map, Hj. cbn [option_map]. eexists. split; [reflexivity|].
  assert (Hi' : nth_error (map trim first) i = Some (trim cell))
    by (rewrite nth_error_map, Hi; reflexivity).
  destruct (nth_error_split_last (map trim first) i (trim cell) Hi')
    as (h1 & h2 & E & Hl & Hn).
  { intros i' y Hlt Hy. rewrite nth_error_map in Hy.
    destruct (nth_error first i') as [cell'|] eqn:E'; [|discriminate].
    injection Hy as <-. now apply (Hlast i'). }
  rewrite E.
  etransitivity; [exact (fold_header_last cols (trim cell) h1 h2 0 [] Hp Hn)|].
  now rewrite Hl.
Qed.

Lemma header_lookup_witness :
  exists o,
    nth_error (parseCsv ("qty, symbol ,qty" ++ String lf "1,AAPL,2" ++ String lf "3")) 0
      = Some o /\
    obj_get "qty" o = Some "2".
Proof.
  exact (proj2 (header_lookup
    ("qty, symbol ,qty" ++ String lf "1,AAPL,2" ++ String lf "3")
    ["qty"; " symbol "; "qty"] [["1"; "AAPL"; "2"]; ["3"]] eq_refl)
    0%nat 2%nat ["1"; "AAPL"; "2"] "qty" eq_refl eq_refl
    ltac:(discriminate)
    ltac:(intros [|[|[|[|i']]]] cell' Hlt Hc; try lia; discriminate)).
Defined.

End CsvProperties.

(** ** Reading amounts *)

Module AmountFacts.
Import JsString JsStringFacts JsNum JsNumFacts Regex RegexFacts CodecFacts.
Import Csv CsvWriter MatchInversion.

(** Deleting every match of a one-character class deletes the characters
    of the class. *)
Lemma replace_go_cls (p : ascii -> bool) (s : string) :
  forall fuel prev, (String.length s < fuel)%nat ->
    replace_go fuel (Cls p) "" prev s = strip p s.
Proof.
  induction s as [|c s IH]; intros fuel prev Hf;
    (destruct fuel as [|f]; [simpl in Hf; lia|]).
  - reflexivity.
  - cbn [String.length] in Hf.
    cbn [replace_go match_here rmatch rest caps strip].
    destruct (p c).
    + cbn [rest before String.length].
      replace (String.length s <? S (String.length s))%nat with true
        by (symmetry; apply Nat.ltb_lt; lia).
      cbn [String.append]. apply IH. lia.
    + f_equal. apply IH. lia.
Qed.

Lemma replace_g_cls (p : ascii -> bool) (s : string) :
  replace_g (Cls p) "" s = strip p s.
Proof. unfold replace_g. apply replace_go_cls. lia. Qed.

Lemma strip_append (p : ascii -> bool) (a b : string) :
  strip p (a ++ b) = strip p a ++ strip p b.
Proof.
  induction a as [|c a IH]; cbn [String.append strip]; [reflexivity|].
  destruct (p c); cbn [String.append]; now rewrite IH.
Qed.

Lemma strip_none (p : ascii -> bool) (s : string) :
  all_chars (fun c => negb (p c)) s = true -> strip p s = s.
Proof.
  induction s as [|c s IH]; cbn [all_chars strip]; [reflexivity|].
  rewrite andb_true_iff, negb_true_iff. intros [-> H]. now rewrite IH.
Qed.

Lemma strip_kept (p q : ascii -> bool) (s : string) :
  all_chars q s = true -> all_chars q (strip p s) = true.
Proof.
  induction s as [|c s IH]; cbn [all_chars strip]; [reflexivity|].
  rewrite andb_true_iff. intros [Hc Hs].
  destruct (p c); cbn [all_chars]; rewrite ?Hc; auto.
Qed.

Lemma of_Z_exact (k : Z) : (Z.abs k < 2 ^ 53)%Z -> of_Z k = Fin (inject_Z k).
Proof.
  intros Hk. unfold of_Z.
  destruct (Z.eq_dec k 0%Z) as [->|Hne]; [vm_compute; reflexivity|].
  assert (Hbig : (inject_Z (2 ^ 53) < overflow_bound)%Q)
    by (vm_compute; reflexivity).
  rewrite fin_in_range, Qred_inject_Z; auto.
  - rewrite Qabs_inject_Z. eapply Qlt_trans; [|exact Hbig].
    rewrite <- Zlt_Qlt. lia.
  - rewrite Qabs_inject_Z. eapply Qlt_le_trans; [apply underflow_bound_small|].
    apply Qle_trans with (inject_Z 1); [discriminate|].
    rewrite <- Zle_Qle. lia.
Qed.

Lemma amount_char_cases (c : ascii) :
  amount_char c = true ->
  is_digit c = true \/ c = ","%char \/ c = "$"%char \/ c = "%"%char.
Proof.
  unfold amount_char, is_money_mark. rewrite !orb_true_iff.
  intros [H|[[H|H]|H]]; auto; apply Ascii.eqb_eq in H; auto.
Qed.

Lemma digit_facts (c : ascii) :
  is_digit c = true ->
  is_space c = false /\ is_dot c = true /\ is_paren c = false /\
  is_money_mark c = false.
Proof.
  unfold is_digit, is_space, is_dot, is_paren, is_money_mark.
  rewrite between_true, !eqb_code. intros H. repeat split.
  - apply orb_false_iff. split; [|apply Nat.eqb_neq; lia].
    apply not_true_iff_false. rewrite between_true. lia.
  - apply negb_true_iff, orb_false_iff. split; apply Nat.eqb_neq; lia.
  - change (code "(") with 40%nat. change (code ")") with 41%nat.
    apply orb_false_iff. split; apply Nat.eqb_neq; lia.
  - change (code ",") with 44%nat. change (code "$") with 36%nat.
    change (code "%") with 37%nat.
    rewrite !orb_false_iff. repeat split; apply Nat.eqb_neq; lia.
Qed.

Lemma amount_char_facts (c : ascii) :
  amount_char c = true ->
  is_space c = false /\ is_dot c = true /\ is_paren c = false.
Proof.
  intros H. destruct (amount_char_cases c H) as [Hd | [-> | [-> | ->]]];
    [|repeat split; reflexivity ..].
  destruct (digit_facts c Hd) as (? & ? & ? & ?). auto.
Qed.

Lemma strip_marks_digits (t : string) :
  all_chars amount_char t = true ->
  all_chars is_digit (strip is_money_mark t) = true.
Proof.
  induction t as [|c t IH]; cbn [all_chars strip]; [reflexivity|].
  rewrite andb_true_iff. intros [Hc Ht].
  destruct (is_money_mark c) eqn:Em; [auto|].
  cbn [all_chars]. rewrite IH by exact Ht.
  unfold amount_char in Hc. rewrite Em, orb_false_r in Hc. now rewrite Hc.
Qed.

Lemma digits_no_paren (d : string) :
  all_chars is_digit d = true -> strip is_paren d = d.
Proof.
  intros H. apply strip_none. eapply all_chars_impl; [|exact H].
  intros c Hc. cbv beta. destruct (digit_facts c Hc) as (_ & _ & -> & _).
  reflexivity.
Qed.

Lemma parenthesised_re_anchored :
  parenthesised_re = Seq Bol (seq [chr "("; star is_dot; chr ")"; Eol]).
Proof. reflexivity. Qed.

Lemma plain_not_parenthesised (c : ascii) (t : string) :
  amount_char c = true -> test parenthesised_re (String c t) = false.
Proof.
  intros Hc. unfold test. rewrite parenthesised_re_anchored, exec_anchored.
  unfold match_here, chr. cbn [seq rmatch before rest caps].
  replace (Ascii.eqb "(" c) with false; [reflexivity|].
  symmetry. destruct (amount_char_cases c Hc) as [Hd | [-> | [-> | ->]]];
    try reflexivity.
  rewrite eqb_code. apply Nat.eqb_neq. change (code "(") with 40%nat.
  unfold is_digit in Hd. rewrite between_true in Hd. lia.
Qed.

Lemma wrapped_is_parenthesised (t : string) :
  all_chars is_dot t = true ->
  test parenthesised_re ("(" ++ t ++ ")") = true.
Proof.
  intros Ht. unfold test.
  rewrite (exec_here parenthesised_re _ (MState (Some ")"%char) "" []));
    [reflexivity|].
  unfold match_here, parenthesised_re, chr, star.
  cbn [seq rmatch before rest caps String.append Ascii.eqb Bool.eqb andb].
  apply rep_first; [exact Ht | cbn; lia | exact I | reflexivity |].
  intros a' b' E Hlen. apply (f_equal String.length) in E.
  rewrite !length_append in E. cbn [String.length] in E.
  destruct b' as [|x b']; [reflexivity | cbn [String.length] in E; lia].
Qed.

Lemma amount_value_range (t : string) :
  all_chars amount_char t = true ->
  (0 <= digits_value 0 (strip is_money_mark t))%Z.
Proof.
  intros Hchars.
  pose proof (CodecMore.digits_value_bound _ 0 (strip_marks_digits t Hchars)
                ltac:(lia)) as H.
  lia.
Qed.

Lemma amount_cleaned (t : string) :
  all_chars amount_char t = true -> strip is_money_mark t <> "" ->
  (digits_value 0 (strip is_money_mark t) < 2 ^ 53)%Z ->
  Number (strip is_money_mark t)
    = Fin (inject_Z (digits_value 0 (strip is_money_mark t))).
Proof.
  intros Hchars Hdigit Hexact.
  rewrite Number_digits; [|exact Hdigit | now apply strip_marks_digits].
  apply of_Z_exact. pose proof (amount_value_range t Hchars). lia.
Qed.

Lemma amount_trim (t : string) :
  all_chars amount_char t = true -> trim t = t.
Proof.
  intros Hchars. apply trim_id. eapply all_chars_impl; [|exact Hchars].
  intros c Hc. cbv beta. destruct (amount_char_facts c Hc) as (-> & _).
  reflexivity.
Qed.

Lemma parse_plain (t : string) :
  all_chars amount_char t = true -> strip is_money_mark t <> "" ->
  (digits_value 0 (strip is_money_mark t) < 2 ^ 53)%Z ->
  parseNumber t = Fin (inject_Z (digits_value 0 (strip is_money_mark t))).
Proof.
  intros Hchars Hdigit Hexact.
  pose proof (amount_cleaned t Hchars Hdigit Hexact) as Hnum.
  pose proof (strip_marks_digits t Hchars) as Hd.
  pose proof (amount_trim t Hchars) as Htrim.
  unfold parseNumber. rewrite Htrim.
  destruct t as [|c t']; [now cbn in Hdigit|].
  cbn [JsString.truthy negb].
  assert (Hc : amount_char c = true)
    by (cbn [all_chars] in Hchars; now apply andb_true_iff in Hchars).
  rewrite (plain_not_parenthesised c t' Hc).
  rewrite !replace_g_cls.
  rewrite (digits_no_paren _ Hd).
  now rewrite Hnum.
Qed.

Lemma parse_wrapped (t : string) :
  all_chars amount_char t = true -> strip is_money_mark t <> "" ->
  (digits_value 0 (strip is_money_mark t) < 2 ^ 53)%Z ->
  parseNumber ("(" ++ t ++ ")")
    = Fin (inject_Z (- digits_value 0 (strip is_money_mark t))).
Proof.
  intros Hchars Hdigit Hexact.
  assert (Hdot : all_chars is_dot t = true).
  { eapply all_chars_impl; [|exact Hchars].
    intros c Hc. now destruct (amount_char_facts c Hc) as (_ & -> & _). }
  assert (Htrim : trim ("(" ++ t ++ ")") = "(" ++ t ++ ")").
  { apply trim_id. cbn [String.append all_chars].
    rewrite all_chars_append. cbn [all_chars].
    replace (all_chars (fun c => negb (is_space c)) t) with true; [reflexivity|].
    symmetry. eapply all_chars_impl; [|exact Hchars].
    intros c Hc. cbv beta. destruct (amount_char_facts c Hc) as (-> & _).
    reflexivity. }
  unfold parseNumber. rewrite Htrim.
  change (JsString.truthy ("(" ++ t ++ ")")) with true. cbn [negb].
  rewrite (wrapped_is_parenthesised t Hdot).
  rewrite !replace_g_cls.
  change ("(" ++ t ++ ")") with ("(" ++ (t ++ ")")).
  rewrite !strip_append.
  change (strip is_paren (strip is_money_mark "(")) with "".
  change (strip is_paren (strip is_money_mark ")")) with "".
  rewrite (digits_no_paren _ (strip_marks_digits t Hchars)).
  cbn [String.append]. rewrite append_nil_r.
  rewrite (amount_cleaned t Hchars Hdigit Hexact). cbn [isFinite negb neg].
  change (- inject_Z (digits_value 0 (strip is_money_mark t)))%Q
    with (inject_Z (- digits_value 0 (strip is_money_mark t))).
  apply (of_Z_exact (- digits_value 0 (strip is_money_mark t))).
  pose proof (amount_value_range t Hchars). lia.
Qed.

End AmountFacts.

(** ** Properties of the reader of amounts *)

Module AmountProperties.
Import JsString JsNum Csv CsvWriter AmountFacts.

(** Property X10.  For a text made of digits with commas, dollar signs and
    percent signs anywhere among them, at least one digit, and a value
    below [2^53], [parseNumber] returns the value of the digits alone (a
    percent sign does not divide by 100), and returns that value negated
    when the text stands between parentheses. *)
Theorem accounting_amounts (t : string) :
  all_chars amount_char t = true ->
  strip is_money_mark t <> "" ->
  (digits_value 0 (strip is_money_mark t) < 2 ^ 53)%Z ->
  parseNumber t = Fin (inject_Z (digits_value 0 (strip is_money_mark t))) /\
  parseNumber ("(" ++ t ++ ")")
    = Fin (inject_Z (- digits_value 0 (strip is_money_mark t))).
Proof.
  intros Hc Hd Hv. split; [now apply parse_plain | now apply parse_wrapped].
Qed.

Lemma accounting_amounts_witness :
  parseNumber "$1,234" = Fin 1234 /\ parseNumber "($1,234)" = Fin (-1234) /\
  parseNumber "50%" = Fin 50.
Proof.
  pose proof (accounting_amounts "$1,234" eq_refl ltac:(discriminate) eq_refl)
    as [H1 H2].
  pose proof (accounting_amounts "50%" eq_refl ltac:(discriminate) eq_refl)
    as [H3 _].
  repeat split; assumption.
Defined.

End AmountProperties.

(** ** The rows of the positions table *)

Module DisplayFacts.
Import JsString JsNum Netting NettingFacts.

Lemma display_flat_map (positions : list position)
    (collapsedStrategies : gmap string bool) (strategyFilter : string) :
  positionsDisplay positions collapsedStrategies strategyFilter =
    flat_map
      (emit_entry (fst (collect (filter_by_strategy strategyFilter positions)))
                  collapsedStrategies)
      (snd (collect (filter_by_strategy strategyFilter positions))).
Proof. unfold positionsDisplay. now destruct (collect _). Qed.

Lemma in_legs_of (id : string) (rows : list position) (leg : position) :
  In leg (legs_of id rows) <->
  In leg rows /\ grouped_leg leg = true /\ strategyId_of leg = id.
Proof.
  unfold legs_of. rewrite filter_In, andb_true_iff, String.eqb_eq. tauto.
Qed.

Lemma summary_id (id : string) (first : position) (legs : list position) :
  sm_strategy_id (summarize id first legs) = id.
Proof. reflexivity. Qed.

Lemma summary_name (id : string) (first : position) (legs : list position) :
  sm_strategy_name (summarize id first legs) = strategyName_of id legs.
Proof. reflexivity. Qed.

(** Every row of the table, traced to the rows it was made from. *)
Lemma in_display (positions : list position) (c : gmap string bool)
    (f : string) (x : display_row) :
  let F := filter_by_strategy f positions in
  In x (positionsDisplay positions c f) <->
  (exists r, x = Plain r /\ In r F /\ grouped_leg r = false) \/
  (exists id l, legs_of id F = [l] /\ x = Plain l) \/
  (exists id first second others,
     legs_of id F = first :: second :: others /\
     (x = StrategySummary (summarize id first (legs_of id F)) \/
      expanded c id = true /\
      exists leg, In leg (legs_of id F) /\
                  x = StrategyLeg leg id (strategyName_of id (legs_of id F)))).
Proof.
  intros F. rewrite display_flat_map. fold F.
  destruct (collect_spec F) as (Hg & Ho & Hr).
  destruct (collect F) as [g o]. cbn [fst snd] in *.
  rewrite in_flat_map. split.
  - intros (e & He & Hx). destruct e as [row|id].
    + destruct Hx as [<-|[]]. left. exists row. apply Hr in He. tauto.
    + right. apply Ho in He. cbn [emit_entry] in Hx. rewrite (Hg id) in Hx.
      destruct (legs_of id F) as [|l1 [|l2 rest]] eqn:El; [congruence| |].
      * left. destruct Hx as [<-|[]]. exists id, l1. now rewrite El.
      * right. exists id, l1, l2, rest. rewrite !El. split; [reflexivity|].
        destruct Hx as [<-|Hx]; [now left|]. right.
        destruct (expanded c id); [|destruct Hx]. split; [reflexivity|].
        apply in_map_iff in Hx as (leg & <- & Hleg). now exists leg.
  - intros [(r & -> & Hin & Hng)|[(id & l & El & ->)|(id & l1 & l2 & rest & El & Hx)]].
    + exists (RowEntry r). split; [apply Hr; auto | now left].
    + exists (GroupEntry id). split; [apply Ho; congruence|].
      cbn [emit_entry]. rewrite (Hg id), El. now left.
    + exists (GroupEntry id). split; [apply Ho; congruence|].
      cbn [emit_entry]. rewrite (Hg id). rewrite El in *.
      destruct Hx as [->|(He & leg & Hleg & ->)]; [now left|].
      right. rewrite He. apply in_map_iff. now exists leg.
Qed.

(** Without grouped legs the first loop only lists the rows. *)
Lemma collect_plain (rows : list position) :
  forall g o,
    Forall (fun r => grouped_leg r = false) rows ->
    fold_left collect_step rows (g, o) = (g, (o ++ map RowEntry rows)%list).
Proof.
  induction rows as [|r rows IH]; intros g o H.
  - cbn. now rewrite app_nil_r.
  - inversion H as [|? ? Hr Hrows]; subst. cbn [fold_left map].
    unfold collect_step at 2. rewrite Hr. rewrite IH by exact Hrows.
    now rewrite <- app_assoc.
Qed.

Lemma flat_map_rows (g : gmap string (list position)) (c : gmap string bool)
    (rows : list position) :
  flat_map (emit_entry g c) (map RowEntry rows) = map Plain rows.
Proof.
  induction rows as [|r rows IH]; [reflexivity|].
  cbn [map flat_map emit_entry app]. now rewrite IH.
Qed.

(** *** Collapsing *)

Lemma expanded_toggle_same (id : string) (c : gmap string bool) :
  id <> "" -> expanded (Toggles.toggleStrategy id c) id = negb (expanded c id).
Proof.
  intros Hne. unfold Toggles.toggleStrategy.
  destruct id; [congruence|]. cbn [JsString.truthy negb].
  unfold expanded at 1. now rewrite lookup_insert_eq.
Qed.

Lemma expanded_toggle_other (id x : string) (c : gmap string bool) :
  x <> id -> expanded (Toggles.toggleStrategy id c) x = expanded c x.
Proof.
  intros Hne. unfold Toggles.toggleStrategy.
  destruct (negb (JsString.truthy id)); [reflexivity|].
  unfold expanded. now rewrite lookup_insert_ne by congruence.
Qed.

Lemma expanded_toggle_twice (id x : string) (c : gmap string bool) :
  expanded (Toggles.toggleStrategy id (Toggles.toggleStrategy id c)) x
    = expanded c x.
Proof.
  destruct (string_dec x id) as [->|Hne].
  - destruct (string_dec id "") as [->|Hid]; [reflexivity|].
    rewrite !expanded_toggle_same by exact Hid. apply negb_involutive.
  - now rewrite !expanded_toggle_other by exact Hne.
Qed.

(** The table reads the collapsed flags through [expanded] only. *)
Lemma emit_entry_ext (g : gmap string (list position)) (c c' : gmap string bool)
    (e : order_entry) :
  (forall id, expanded c id = expanded c' id) ->
  emit_entry g c e = emit_entry g c' e.
Proof.
  intros H. destruct e as [row|id]; [reflexivity|].
  cbn [emit_entry]. now rewrite (H id).
Qed.

Lemma display_ext (positions : list position) (c c' : gmap string bool)
    (f : string) :
  (forall id, expanded c id = expanded c' id) ->
  positionsDisplay positions c f = positionsDisplay positions c' f.
Proof.
  intros H. rewrite !display_flat_map.
  induction (snd (collect (filter_by_strategy f positions))) as [|e o IH];
    [reflexivity|].
  cbn [flat_map]. now rewrite IH, (emit_entry_ext _ c c' e H).
Qed.

Lemma no_leg_rows_among_legs (legs : list position) (id name : string) :
  List.filter (fun x => negb (Toggles.is_leg_row x))
    (map (fun leg => StrategyLeg leg id name) legs) = [].
Proof. induction legs as [|l legs IH]; [reflexivity | exact IH]. Qed.

Lemma emit_entry_without_legs (g : gmap string (list position))
    (c c' : gmap string bool) (e : order_entry) :
  List.filter (fun x => negb (Toggles.is_leg_row x)) (emit_entry g c e)
    = List.filter (fun x => negb (Toggles.is_leg_row x)) (emit_entry g c' e).
Proof.
  destruct e as [row|id]; [reflexivity|]. cbn [emit_entry].
  destruct (match g !! id with Some l => l | None => [] end) as [|l1 [|l2 rest]];
    [reflexivity | reflexivity |].
  cbn [List.filter Toggles.is_leg_row negb]. f_equal.
  destruct (expanded c id), (expanded c' id);
    rewrite ?no_leg_rows_among_legs; reflexivity.
Qed.

Lemma display_without_legs (positions : list position)
    (c c' : gmap string bool) (f : string) :
  List.filter (fun x => negb (Toggles.is_leg_row x)) (positionsDisplay positions c f)
    = List.filter (fun x => negb (Toggles.is_leg_row x)) (positionsDisplay positions c' f).
Proof.
  rewrite !display_flat_map.
  induction (snd (collect (filter_by_strategy f positions))) as [|e o IH];
    [reflexivity|].
  cbn [flat_map]. rewrite !List.filter_app, IH.
  now rewrite (emit_entry_without_legs _ c c' e).
Qed.

(** *** Units *)

Lemma positive_truthy (v : number) : gt v (Fin 0) = true -> JsNum.truthy v = true.
Proof.
  destruct v as [| s | q]; cbn; [discriminate | reflexivity |].
  unfold Qltb. destruct (Qcompare_spec 0 q) as [E|L|G]; try discriminate.
  intros _. apply negb_true_iff. destruct (Qeq_bool q 0) eqn:Eq; [|reflexivity].
  apply Qeq_bool_iff in Eq. rewrite Eq in L. now apply Qlt_irrefl in L.
Qed.

Lemma min2_positive (a b : number) :
  gt a (Fin 0) = true -> gt b (Fin 0) = true -> gt (min2 a b) (Fin 0) = true.
Proof.
  intros Ha Hb. unfold min2.
  destruct a as [| sa | qa]; [discriminate Ha | |];
    (destruct b as [| sb | qb]; [discriminate Hb | |]);
    match goal with |- context [if ?t then _ else _] => destruct t end;
    assumption.
Qed.

Lemma fold_min_positive (l : list number) :
  forall acc, gt acc (Fin 0) = true ->
    Forall (fun v => gt v (Fin 0) = true) l ->
    gt (fold_left min2 l acc) (Fin 0) = true.
Proof.
  induction l as [|v l IH]; intros acc Hacc Hl; [exact Hacc|].
  inversion Hl; subst. cbn [fold_left]. apply IH; [|assumption].
  now apply min2_positive.
Qed.

Lemma filter_all {X : Type} (p : X -> bool) (l : list X) :
  Forall (fun v => p v = true) (List.filter p l).
Proof. apply List.Forall_forall. intros v Hv. now apply filter_In in Hv. Qed.

Lemma filter_none {X : Type} (p : X -> bool) (l : list X) :
  Forall (fun v => p v = false) l -> List.filter p l = [].
Proof.
  induction 1 as [|v l Hv Hl IH]; [reflexivity|].
  cbn [List.filter]. now rewrite Hv.
Qed.

Lemma units_is_min (legs : list position) :
  units_of legs =
    Math_min (List.filter (fun v => gt v (Fin 0))
                (map (fun l => abs (num_or_zero (qty l))) legs)) /\
  gt (units_of legs) (Fin 0) = true.
Proof.
  set (m := Math_min _).
  assert (Hm : gt m (Fin 0) = true).
  { unfold m, Math_min. apply fold_min_positive; [reflexivity|].
    apply (filter_all (fun v => gt v (Fin 0))). }
  assert (E : units_of legs = m).
  { unfold units_of. fold m. unfold JsNum.or_else at 2.
    rewrite (positive_truthy m Hm). unfold JsNum.or_else.
    now rewrite (positive_truthy m Hm). }
  now rewrite E.
Qed.

End DisplayFacts.

(** ** Properties of the positions table *)

Module DisplayProperties.
Import JsString JsNum Netting NettingFacts Toggles DisplayFacts Samples.

(** Property X11.  When no row that passes the strategy filter is an option
    leg with a strategy id, the table is those rows, one ordinary row each,
    in their order. *)
Theorem plain_rows_pass_through (positions : list position)
    (collapsedStrategies : gmap string bool) (strategyFilter : string) :
  Forall (fun r => grouped_leg r = false)
         (filter_by_strategy strategyFilter positions) ->
  positionsDisplay positions collapsedStrategies strategyFilter
    = map Plain (filter_by_strategy strategyFilter positions).
Proof.
  intros H. unfold positionsDisplay, collect.
  rewrite (collect_plain _ ∅ [] H). cbn [app]. apply flat_map_rows.
Qed.

Lemma plain_rows_pass_through_witness :
  positionsDisplay [stock_row; stock_row] ∅ "" = [Plain stock_row; Plain stock_row].
Proof.
  apply (plain_rows_pass_through [stock_row; stock_row] ∅ "").
  repeat constructor.
Defined.

(** Property X12.  Take the legs that pass the strategy filter and carry
    strategy id [id], and let there be two or more.  The table then holds
    the summary row of these legs, and no other summary bears that id; none
    of the legs appears as an ordinary row; when the strategy is not
    collapsed every leg appears as a leg row under that id, and when it is
    collapsed no leg row bears that id. *)
Theorem large_group_is_summarized (positions : list position)
    (collapsedStrategies : gmap string bool) (strategyFilter id : string)
    (first second : position) (others : list position) :
  let filtered := filter_by_strategy strategyFilter positions in
  let out := positionsDisplay positions collapsedStrategies strategyFilter in
  let legs := first :: second :: others in
  legs_of id filtered = legs ->
  In (StrategySummary (summarize id first legs)) out /\
  (forall s, In (StrategySummary s) out -> sm_strategy_id s = id ->
             s = summarize id first legs) /\
  (forall leg, In leg legs -> ~ In (Plain leg) out) /\
  (expanded collapsedStrategies id = true ->
   forall leg, In leg legs ->
     In (StrategyLeg leg id (strategyName_of id legs)) out) /\
  (expanded collapsedStrategies id = false ->
   forall leg sid name, In (StrategyLeg leg sid name) out -> sid <> id).
Proof.
  intros filtered out legs El. subst out.
  repeat split.
  - apply in_display. right; right. exists id, first, second, others.
    fold filtered. rewrite El. auto.
  - intros s Hs Hid.
    apply in_display in Hs as [(r & E & _)|[(i & l & _ & E)|(i & l1 & l2 & r & E & Hx)]];
      try discriminate.
    fold filtered in E, Hx.
    destruct Hx as [Hx|(_ & leg & _ & Hx)]; [|discriminate].
    injection Hx as ->.
    rewrite summary_id in Hid. subst i. rewrite El in *.
    injection E as <- _ _. reflexivity.
  - intros leg Hleg Hplain. rewrite <- El in Hleg.
    apply in_legs_of in Hleg as (Hin & Hg & Hid).
    apply in_display in Hplain
      as [(r & E & _ & Hng)|[(i & l & E & Hl)|(i & l1 & l2 & r & _ & Hx)]].
    + injection E as <-. congruence.
    + injection Hl as <-. fold filtered in E.
      assert (Hi : In leg (legs_of i filtered)) by (rewrite E; now left).
      apply in_legs_of in Hi as (_ & _ & Hi).
      assert (Ei : i = id) by congruence. rewrite Ei, El in E. discriminate.
    + destruct Hx as [Hx|(_ & l & _ & Hx)]; discriminate.
  - intros He leg Hleg. apply in_display. right; right.
    exists id, first, second, others. fold filtered. rewrite El.
    split; [reflexivity|]. right. split; [exact He|]. now exists leg.
  - intros He leg sid name Hin Hsid.
    apply in_display in Hin
      as [(r & E & _)|[(i & l & _ & E)|(i & l1 & l2 & r & _ & Hx)]];
      try discriminate.
    destruct Hx as [Hx|(He' & l & _ & Hx)]; [discriminate|].
    injection Hx as _ <- _. congruence.
Qed.

Lemma large_group_is_summarized_witness :
  In (StrategySummary (summarize "S1" long_call [long_call; short_call]))
     (positionsDisplay [stock_row; long_call; short_call] ∅ "") /\
  In (StrategyLeg short_call "S1" "Strategy S1")
     (positionsDisplay [stock_row; long_call; short_call] ∅ "").
Proof.
  pose proof (large_group_is_summarized [stock_row; long_call; short_call] ∅ ""
                "S1" long_call short_call [] eq_refl) as (H1 & _ & _ & H4 & _).
  split; [exact H1|].
  apply (H4 eq_refl short_call). right. now left.
Defined.

(** Property X13.  The table invents no position and, collapsed strategies
    apart, loses none: every ordinary row and every leg row shows a position
    that passed the strategy filter, and every position that passed it is
    shown, as an ordinary row or as a leg row under its strategy id, unless
    it is a grouped leg of a collapsed strategy. *)
Theorem rows_are_preserved (positions : list position)
    (collapsedStrategies : gmap string bool) (strategyFilter : string) :
  let filtered := filter_by_strategy strategyFilter positions in
  let out := positionsDisplay positions collapsedStrategies strategyFilter in
  (forall x row, In x out -> shown x = Some row -> In row filtered) /\
  (forall row, In row filtered ->
     (grouped_leg row = true ->
      expanded collapsedStrategies (strategyId_of row) = true) ->
     In (Plain row) out \/
     exists name, In (StrategyLeg row (strategyId_of row) name) out).
Proof.
  intros filtered out. subst out. split.
  - intros x row Hx Hs.
    apply in_display in Hx
      as [(r & -> & Hin & _)|[(i & l & E & ->)|(i & l1 & l2 & r & _ & Hx)]].
    + injection Hs as <-. exact Hin.
    + injection Hs as <-. fold filtered in E.
      assert (Hi : In l (legs_of i filtered)) by (rewrite E; now left).
      now apply in_legs_of in Hi.
    + destruct Hx as [->|(_ & leg & Hleg & ->)]; [discriminate|].
      injection Hs as <-. now apply in_legs_of in Hleg.
  - intros row Hin Hexp. destruct (grouped_leg row) eqn:Hg.
    + assert (Hleg : In row (legs_of (strategyId_of row) filtered))
        by (apply in_legs_of; auto).
      destruct (legs_of (strategyId_of row) filtered) as [|l1 [|l2 rest]] eqn:El.
      * destruct Hleg.
      * left. destruct Hleg as [->|[]]. apply in_display. right; left.
        now exists (strategyId_of row), row.
      * right. eexists. apply in_display. right; right.
        exists (strategyId_of row), l1, l2, rest. fold filtered.
        split; [exact El|]. right. split; [now apply Hexp|].
        exists row. split; [now rewrite El | reflexivity].
    + left. apply in_display. left. now exists row.
Qed.

Lemma rows_are_preserved_witness :
  In (Plain stock_row) (positionsDisplay [long_call; stock_row; short_call] ∅ "") \/
  exists name,
    In (StrategyLeg stock_row (strategyId_of stock_row) name)
       (positionsDisplay [long_call; stock_row; short_call] ∅ "").
Proof.
  apply (proj2 (rows_are_preserved [long_call; stock_row; short_call] ∅ "")).
  - right. now left.
  - discriminate.
Defined.

(** Property X14.  The units of a summary are the least positive absolute
    quantity among the legs, and plus infinity when no leg has one: the
    minimum over no value is plus infinity, which is truthy, so the two
    fall-backs (the first leg's quantity, then 1) are never used.  The units
    are positive in every case. *)
Theorem units_never_fall_back (id : string) (first : position)
    (legs : list position) :
  sm_qty (summarize id first legs) =
    Math_min (List.filter (fun v => gt v (Fin 0))
                (map (fun l => abs (num_or_zero (qty l))) legs)) /\
  gt (sm_qty (summarize id first legs)) (Fin 0) = true /\
  (Forall (fun l => gt (abs (num_or_zero (qty l))) (Fin 0) = false) legs ->
   sm_qty (summarize id first legs) = Inf false).
Proof.
  change (sm_qty (summarize id first legs)) with (units_of legs).
  destruct (units_is_min legs) as [E Hpos].
  split; [exact E|]. split; [exact Hpos|].
  intros Hnone. rewrite E.
  rewrite (filter_none (fun v => gt v (Fin 0))); [reflexivity|].
  apply Forall_map. exact Hnone.
Qed.

Lemma units_never_fall_back_witness :
  exists s rest,
    positionsDisplay [closed_call; closed_put] ∅ "" = StrategySummary s :: rest /\
    sm_qty s = Inf false.
Proof.
  exists (summarize "S2" closed_call [closed_call; closed_put]).
  eexists. split; [reflexivity|].
  apply (proj2 (proj2 (units_never_fall_back "S2" closed_call
                         [closed_call; closed_put]))).
  repeat constructor.
Defined.

(** Property X15.  Collapsing or expanding a strategy changes leg rows
    only: the ordinary rows and the summary rows of the table are the same
    before and after [toggleStrategy].  Toggling the same strategy twice
    gives back the table as it was, and toggling the empty id changes
    nothing. *)
Theorem toggle_changes_leg_rows_only (positions : list position)
    (collapsedStrategies : gmap string bool) (strategyFilter id : string) :
  List.filter (fun x => negb (is_leg_row x))
    (positionsDisplay positions (toggleStrategy id collapsedStrategies)
       strategyFilter)
  = List.filter (fun x => negb (is_leg_row x))
      (positionsDisplay positions collapsedStrategies strategyFilter) /\
  positionsDisplay positions
    (toggleStrategy id (toggleStrategy id collapsedStrategies)) strategyFilter
  = positionsDisplay positions collapsedStrategies strategyFilter /\
  toggleStrategy "" collapsedStrategies = collapsedStrategies.
Proof.
  split; [apply display_without_legs|]. split; [|reflexivity].
  apply display_ext. intros x. apply expanded_toggle_twice.
Qed.

End DisplayProperties.

(** ** The requests of an import *)

Module TrafficFacts.
Import JsString JsNum Csv Extract ImportFlow ImportFacts Traffic.

Lemma requireAccount_cases (action : string) (slot : error_slot)
    (st : app_state) :
  requireAccount action slot st = (Some (accountId st), st) \/
  exists st', requireAccount action slot st = (None, st') /\ log st' = log st.
Proof.
  unfold requireAccount. run.
  destruct (negb (JsString.truthy (accountId st)) || String.eqb (accountId st) "ALL");
    [right | left; reflexivity].
  destruct slot; run; eexists; split; reflexivity.
Qed.

Ltac nothing_sent := exists []; split; [now rewrite app_nil_r | now left].

Ltac one_sent :=
  eexists; split; [rewrite <- ?app_assoc; cbn [app]; reflexivity|];
  right; do 3 eexists;
  split; [reflexivity|]; split; [reflexivity|].

Section Handlers.
Variable respond : list effect -> effect -> response.

Lemma importBalances_one (file : string) (st : app_state) :
  one_upload respond (importBalances respond file) st.
Proof.
  unfold one_upload, importBalances, after, bind. run.
  destruct (respond (log st) _) eqn:E; run; one_sent; rewrite E.
  - split; [right; now left | reflexivity].
  - reflexivity.
Qed.

Lemma importPositionsReport_one (file : string) (st : app_state) :
  one_upload respond (importPositionsReport respond file) st.
Proof.
  unfold one_upload, importPositionsReport, after, bind.
  destruct (requireAccount_cases "import positions CSV" CsvSlot st)
    as [-> | (st' & -> & Hl)]; [|run; rewrite Hl; nothing_sent].
  run. destruct (respond (log st) _) eqn:E; run; one_sent; rewrite E.
  - split; [right; now left | reflexivity].
  - reflexivity.
Qed.

Lemma importTransactions_one (file : string) (st : app_state) :
  one_upload respond (importTransactions respond file) st.
Proof.
  unfold one_upload, importTransactions, after, bind.
  destruct (requireAccount_cases "import transactions CSV" CsvSlot st)
    as [-> | (st' & -> & Hl)]; [|run; rewrite Hl; nothing_sent].
  run. destruct (respond (log st) _) eqn:E; run.
  - destruct (respond _ (Get _)) as [b|]; run;
      [destruct (bench_start b) as [v|]; run;
         [destruct (JsString.truthy v); run|]|];
      one_sent; rewrite E; (split; [right; now left | reflexivity]).
  - one_sent. now rewrite E.
Qed.

Lemma importAccountStatement_one (rawRows : list (list string))
    (st : app_state) :
  one_upload respond (importAccountStatement respond rawRows) st.
Proof.
  unfold one_upload, importAccountStatement, after, bind.
  destruct (requireAccount_cases "import positions from account statement"
              CsvSlot st) as [-> | (st' & -> & Hl)];
    [|run; rewrite Hl; nothing_sent].
  cbv zeta. destruct (usable_rows _) as [|r kept]; run; [nothing_sent|].
  destruct (respond (log st) _) eqn:E; run; one_sent; rewrite E.
  - split; [right; now left | reflexivity].
  - reflexivity.
Qed.

Lemma importGenericCsv_one (text : string) (st : app_state) :
  one_upload respond (importGenericCsv respond text) st.
Proof.
  unfold one_upload, importGenericCsv, after, bind.
  destruct (parseCsv text) as [|o rows]; run; [nothing_sent|].
  destruct (usable_rows _) as [|r kept]; run; [nothing_sent|].
  destruct (requireAccount_cases "import positions CSV" CsvSlot st)
    as [-> | (st' & -> & Hl)]; [|run; rewrite Hl; nothing_sent].
  run. destruct (respond (log st) _) eqn:E; run; one_sent; rewrite E.
  - split; [now left | reflexivity].
  - reflexivity.
Qed.

End Handlers.

End TrafficFacts.

(** ** Properties of the import handlers *)

Module TrafficProperties.
Import JsString JsNum Csv Extract ImportFlow ImportFacts Traffic TrafficFacts.

(** Property X16.  Whatever the file, the selected account and the server's
    answers, [importCsvFile] sends at most one upload, and it is the first
    thing it sends; nothing follows an upload the server rejected; after an
    upload the server accepted the data are refreshed, no second upload is
    made, and the CSV error is empty. *)
Theorem import_sends_one_upload
    (respond : list effect -> effect -> response) (file : string)
    (st : app_state) :
  let m := importCsvFile respond file in
  exists new,
    log (after m st) = (log st ++ new)%list /\
    (new = [] \/
     exists url body tail,
       new = Post url body :: tail /\
       forallb (fun e => negb (is_post e)) tail = true /\
       match respond (log st) (Post url body) with
       | Rejected _ => tail = []
       | Resolved _ => In RefreshAll tail /\ csvError (after m st) = ""
       end).
Proof.
  cbv zeta. unfold after. rewrite importCsvFile_dispatch. cbv zeta.
  destruct (parseCsvRows file) as [|row rows].
  { exists []. split; [cbn; now rewrite app_nil_r | now left]. }
  destruct (isBalancesReport (row :: rows));
    [exact (importBalances_one respond file (with_csvError "" st))|].
  destruct (isPositionsReport (row :: rows));
    [exact (importPositionsReport_one respond file (with_csvError "" st))|].
  destruct (isTransactionsCsv (row :: rows));
    [exact (importTransactions_one respond file (with_csvError "" st))|].
  destruct (isAccountStatement (row :: rows));
    [exact (importAccountStatement_one respond (row :: rows) (with_csvError "" st))|].
  exact (importGenericCsv_one respond file (with_csvError "" st)).
Qed.

End TrafficProperties.

(** ** What the extractors return *)

Module ExtractFacts.
Import JsString JsStringFacts JsNum Regex Codec CodecFacts OptionDescription.
Import Csv Extract ImportFlow ImportFacts TrimFacts.

Lemma truthy_ne (s : string) : JsString.truthy s = true -> s <> "".
Proof. destruct s; [discriminate | discriminate]. Qed.

Lemma right_of_cases (w : string) : right_of w = "P" \/ right_of w = "C".
Proof. unfold right_of. destruct (startsWith "P" w); auto. Qed.

(** A description that is understood comes with the symbol built from the
    fields returned with it. *)
Lemma description_fields (raw : string) (fb : option string) (d : parsed_option) :
  parseOptionDescription raw fb = Some d ->
  po_symbol d <> "" /\
  (po_option_type d = "PUT" \/ po_option_type d = "CALL") /\
  po_symbol d =
    buildOsiSymbol (po_underlying d) (po_expiry d)
      (if String.eqb (po_option_type d) "PUT" then "P" else "C") (po_strike d).
Proof.
  intros H. unfold parseOptionDescription in H.
  destruct (negb (JsString.truthy _)); [discriminate|]. cbv zeta in H.
  assert (Hfin : forall u e s w,
    (if negb (JsString.truthy (buildOsiSymbol u e (right_of w) s))
     then None
     else Some (ParsedOption (buildOsiSymbol u e (right_of w) s) u e s
                  (if String.eqb (right_of w) "P" then "PUT" else "CALL")))
      = Some d ->
    po_symbol d <> "" /\
    (po_option_type d = "PUT" \/ po_option_type d = "CALL") /\
    po_symbol d =
      buildOsiSymbol (po_underlying d) (po_expiry d)
        (if String.eqb (po_option_type d) "PUT" then "P" else "C") (po_strike d)).
  { intros u e s w Hd.
    destruct (JsString.truthy (buildOsiSymbol u e (right_of w) s)) eqn:Et;
      cbn [negb] in Hd; [|discriminate].
    injection Hd as <-. cbn [po_symbol po_option_type po_underlying po_expiry po_strike].
    split; [now apply truthy_ne|].
    destruct (right_of_cases w) as [-> | ->]; cbn; auto. }
  destruct (exec numeric_re _) as [m1|]; [now apply Hfin in H|].
  destruct (exec month_re _) as [m2|]; [now apply Hfin in H|].
  destruct (exec numeric_no_underlying_re _) as [m3|];
    destruct (exec month_no_underlying_re _) as [m4|];
    destruct (usable fb) as [f|]; try discriminate; now apply Hfin in H.
Qed.

(** Removing white space from a text that starts with another character
    leaves that character in front. *)
Lemma squeezed_head (c : ascii) (t : string) :
  is_space c = false ->
  exists t', replace_g (plus is_space) "" (String c t) = String c t'.
Proof.
  intros Hc. unfold replace_g. cbn [String.length replace_go].
  unfold match_here, plus. cbn [rmatch rep before rest hi_zero].
  rewrite Hc. eauto.
Qed.

Lemma squeezed_upper_nonempty (s : string) :
  trim s <> "" -> toUpperCase (replace_g (plus is_space) "" (trim s)) <> "".
Proof.
  intros H. destruct (trim_nonempty_head s H) as (c & t & -> & Hc).
  destruct (squeezed_head c t Hc) as (t' & ->). discriminate.
Qed.

(** A statement row that is kept carries a symbol. *)
Lemma statement_row_symbol (c : columns) (a : string) (row : list string)
    (s : string) (q : number) :
  trim s <> "" ->
  symbol (fst (statement_row c a row (trim s) q)) <> "".
Proof.
  intros Hs. pose proof (squeezed_upper_nonempty s Hs) as H0.
  unfold statement_row. cbv zeta.
  destruct (parseOsiSymbol _); [exact H0|].
  repeat match goal with
         | |- context [match parseOptionDescription ?x ?y with _ => _ end] =>
             let E := fresh "E" in
             destruct (parseOptionDescription x y) eqn:E;
             [apply description_fields in E|]
         | |- context [if JsString.truthy ?b then _ else _] =>
             let E := fresh "E" in destruct (JsString.truthy b) eqn:E
         | |- context [if ?b then _ else _] => destruct b
         end;
    cbn [fst symbol];
    first [ exact H0
          | match goal with E : po_symbol _ <> "" /\ _ |- _ => exact (proj1 E) end
          | match goal with E : JsString.truthy ?b = true |- ?b <> "" =>
              exact (truthy_ne _ E) end
          | idtac ].
Qed.

Lemma section_rows_symbols (c : columns) (rows : list (list string)) :
  forall assetClass r, In r (section_rows c assetClass rows) -> symbol r <> "".
Proof.
  induction rows as [|row rows IH]; intros assetClass r Hin; simpl in Hin;
    [destruct Hin|].
  destruct (negb (has_content row)); [destruct Hin|].
  destruct (isSectionHeader row); [destruct Hin|].
  destruct (test total_re _); [destruct Hin|].
  destruct (JsString.truthy (trim (cell row (symbolIdx c)))) eqn:Hs;
    cbn [negb] in Hin; [|eauto].
  destruct (negb (isFinite _) || strict_eq _ (Fin 0)); [eauto|].
  pose proof (statement_row_symbol c assetClass row (cell row (symbolIdx c))
                (parseNumber (cell row (qtyIdx c))) (truthy_ne _ Hs)) as Hsym.
  destruct (statement_row c assetClass row _ _) as [pos assetClass'].
  destruct Hin as [<-|Hin]; [exact Hsym | eauto].
Qed.

Lemma statement_symbols (rows : list (list string)) :
  forall r, In r (parseAccountStatementPositions rows) -> symbol r <> "".
Proof.
  induction rows as [|section rest IH]; intros r Hin; simpl in Hin; [destruct Hin|].
  destruct rest as [|headerRow body]; [destruct Hin|].
  apply in_app_iff in Hin as [Hin|Hin]; [|auto].
  unfold statement_section in Hin.
  repeat match type of Hin with
         | In _ (if ?b then [] else _) => destruct b; [destruct Hin|]
         end.
  eapply section_rows_symbols; eauto.
Qed.

Lemma filter_keeps_all {X : Type} (p : X -> bool) (l : list X) :
  (forall x, In x l -> p x = true) -> List.filter p l = l.
Proof.
  induction l as [|x l IH]; intros H; [reflexivity|].
  cbn [List.filter]. rewrite (H x (or_introl eq_refl)). f_equal.
  apply IH. intros y Hy. apply H. now right.
Qed.

Lemma statement_rows_usable (rows : list (list string)) :
  usable_rows (parseAccountStatementPositions rows)
    = parseAccountStatementPositions rows.
Proof.
  apply filter_keeps_all. intros r Hr. apply usable_row_iff.
  split; [now apply (statement_symbols rows)|].
  now apply (statement_quantities rows).
Qed.

End ExtractFacts.

(** ** Properties of the extractors *)

Module ExtractProperties.
Import JsString JsStringFacts JsNum Regex Codec CodecFacts OptionDescription.
Import Csv Extract ImportFlow ImportFacts ExtractFacts Samples.

(** Property X17.  Every row the account-statement extractor returns has a
    symbol and a finite non-zero quantity, so the filter applied before the
    upload drops none of them: with one account selected, the statement
    import posts exactly the extracted rows, and stops with an error and
    without a request only when the extractor found no row. *)
Theorem statement_rows_are_all_sent
    (respond : list effect -> effect -> response)
    (rawRows : list (list string)) (st : app_state) :
  accountId st <> "" -> accountId st <> "ALL" ->
  List.filter usable_row (parseAccountStatementPositions rawRows)
    = parseAccountStatementPositions rawRows /\
  match parseAccountStatementPositions rawRows with
  | [] =>
      silent (importAccountStatement respond rawRows) st /\
      csvError (after (importAccountStatement respond rawRows) st) <> ""
  | sent =>
      starts_with (importAccountStatement respond rawRows) st
        (Post "/positions/bulk" (BulkPositions sent (accountId st)))
  end.
Proof.
  intros H1 H2. split; [exact (statement_rows_usable rawRows)|].
  pose proof (importAccountStatement_outcome respond rawRows st H1 H2) as H.
  rewrite statement_rows_usable in H. unfold upload_outcome in H.
  destruct (parseAccountStatementPositions rawRows); exact H.
Qed.

Lemma statement_rows_are_all_sent_witness :
  List.filter usable_row (parseAccountStatementPositions (parseCsvRows statement_file))
    = parseAccountStatementPositions (parseCsvRows statement_file).
Proof.
  exact (proj1 (statement_rows_are_all_sent quiet_server
                  (parseCsvRows statement_file) (named_state "ACC1")
                  ltac:(discriminate) ltac:(discriminate))).
Defined.

(** Property X18.  Whatever [parseOptionDescription] returns is coherent:
    the symbol is not empty and is the one [buildOsiSymbol] gives for the
    returned underlying, expiry and strike with the right P for a PUT and C
    for a CALL; the option type is PUT or CALL; the underlying and the
    expiry are not blank, the strike is a finite number, and the expiry
    without its dashes and its first two characters has six characters. *)
Theorem description_result_is_coherent (raw : string) (fallback : option string)
    (d : parsed_option) :
  parseOptionDescription raw fallback = Some d ->
  po_symbol d <> "" /\
  po_symbol d =
    buildOsiSymbol (po_underlying d) (po_expiry d)
      (if String.eqb (po_option_type d) "PUT" then "P" else "C") (po_strike d) /\
  (po_option_type d = "PUT" \/ po_option_type d = "CALL") /\
  trim (po_underlying d) <> "" /\ trim (po_expiry d) <> "" /\
  isFinite (po_strike d) = true /\
  String.length (compact_date (po_expiry d)) = 6%nat.
Proof.
  intros H. apply description_fields in H as (Hne & Ht & Hb).
  split; [exact Hne|]. split; [exact Hb|]. split; [exact Ht|].
  rewrite Hb in Hne.
  pose proof (proj2 (build_failure_iff (po_underlying d) (po_expiry d)
                       (if String.eqb (po_option_type d) "PUT" then "P" else "C")
                       (po_strike d))) as Hfail.
  repeat split.
  - intros E. apply Hne, Hfail. auto.
  - intros E. apply Hne, Hfail. auto.
  - destruct (isFinite (po_strike d)) eqn:E; [reflexivity|].
    exfalso. apply Hne, Hfail. auto.
  - destruct (Nat.eq_dec (String.length (compact_date (po_expiry d))) 6) as [E|E];
      [exact E|].
    exfalso. apply Hne, Hfail. auto 6.
Qed.

Lemma description_result_is_coherent_witness :
  po_symbol (ParsedOption "AAPL260117C00150000" "AAPL" "2026-01-17" (Fin 150) "CALL")
    <> "".
Proof.
  exact (proj1 (description_result_is_coherent "AAPL 01/17/2026 150 CALL" None
                  (ParsedOption "AAPL260117C00150000" "AAPL" "2026-01-17"
                     (Fin 150) "CALL") eq_refl)).
Defined.

End ExtractProperties.

(** ** Rows that cannot be used *)

Module RecoveryFacts.
Import JsString JsStringFacts JsNum Regex Codec CodecFacts OptionDescription.
Import Csv Extract ImportFlow ImportFacts TrimFacts ExtractFacts Recovery.

(** One turn of the inner loop. *)
Lemma section_rows_cons (c : columns) (a : string) (row : list string)
    (rest : list (list string)) :
  section_rows c a (row :: rest) =
    if ends_section row then []
    else if passed_over c row then section_rows c a rest
    else fst (pushed c a row) :: section_rows c (snd (pushed c a row)) rest.
Proof.
  cbn [section_rows]. unfold ends_section, passed_over, pushed.
  destruct (negb (has_content row)); [reflexivity|].
  destruct (isSectionHeader row); [reflexivity|].
  destruct (test total_re _); [reflexivity|]. cbn [orb].
  destruct (negb (JsString.truthy _)); [reflexivity|]. cbn [orb].
  destruct (negb (isFinite _) || strict_eq _ (Fin 0)); [reflexivity|].
  destruct (statement_row c a row _ _); reflexivity.
Qed.

(** A row that is passed over leaves the section as it is without it. *)
Lemma section_rows_skips (c : columns) (bad : list string)
    (post : list (list string)) :
  ends_section bad = false -> passed_over c bad = true ->
  forall pre a,
    section_rows c a (pre ++ bad :: post) = section_rows c a (pre ++ post).
Proof.
  intros He Hp. induction pre as [|row pre IH]; intros a.
  - cbn [app]. rewrite section_rows_cons, He, Hp. reflexivity.
  - cbn [app]. rewrite !section_rows_cons.
    destruct (ends_section row); [reflexivity|].
    destruct (passed_over c row); [apply IH|]. f_equal. apply IH.
Qed.

(** A row that is read is reached whatever rows stand before it in the
    section, as long as none of them ends the section. *)
Lemma section_rows_reaches (c : columns) (good : list string)
    (post : list (list string)) :
  ends_section good = false -> passed_over c good = false ->
  forall pre a,
    Forall (fun row => ends_section row = false) pre ->
    exists a', In (fst (pushed c a' good)) (section_rows c a (pre ++ good :: post)).
Proof.
  intros He Hp. induction pre as [|row pre IH]; intros a Hpre.
  - exists a. cbn [app]. rewrite section_rows_cons, He, Hp. now left.
  - apply Forall_cons_iff in Hpre as [Hrow Hpre].
    cbn [app]. rewrite section_rows_cons, Hrow.
    destruct (passed_over c row).
    + apply IH, Hpre.
    + destruct (IH (snd (pushed c a row)) Hpre) as [a' Hin].
      exists a'. now right.
Qed.

Lemma statement_section_opened (section headerRow : list string)
    (body : list (list string)) :
  opens_section section headerRow = true ->
  statement_section section headerRow body =
    section_rows (columns_of (map normalizeHeader headerRow))
      (section_asset_class (toUpperCase (trim (cell section 0)))) body.
Proof.
  unfold opens_section, statement_section. cbv zeta.
  intros H. apply andb_true_iff in H as [H H4].
  apply andb_true_iff in H as [H H3]. apply andb_true_iff in H as [H1 H2].
  rewrite H1, H2, H4. cbn [negb orb].
  destruct (has "mark" _), (has "last" _), (has "trade_price" _), (has "price" _);
    try discriminate; reflexivity.
Qed.

(** Every section of the file is read by the outer loop. *)
Lemma statement_includes_section (section headerRow : list string)
    (body : list (list string)) (r : position_row) :
  In r (statement_section section headerRow body) ->
  forall before,
    In r (parseAccountStatementPositions (before ++ section :: headerRow :: body)).
Proof.
  intros Hin before. induction before as [|x before IH].
  - cbn [app parseAccountStatementPositions]. apply in_app_iff. now left.
  - cbn [app]. destruct (before ++ section :: headerRow :: body)%list as [|y rest] eqn:E.
    + destruct before; discriminate.
    + cbn [parseAccountStatementPositions]. apply in_app_iff. right. exact IH.
Qed.

Lemma pushed_usable (c : columns) (a : string) (row : list string) :
  passed_over c row = false -> usable_row (fst (pushed c a row)) = true.
Proof.
  intros Hp. unfold passed_over in Hp.
  apply orb_false_iff in Hp as [Hs Hq]. apply negb_false_iff in Hs.
  apply orb_false_iff in Hq as [Hf Hz]. apply negb_false_iff in Hf.
  rewrite strict_eq_zero in Hz.
  apply usable_row_iff. split.
  - apply (statement_row_symbol c a row (cell row (symbolIdx c))).
    now apply truthy_ne.
  - unfold pushed, statement_row.
    repeat match goal with
           | |- context [let '(_, _) := ?x in _] => destruct x
           end.
    cbn [fst qty]. auto.
Qed.

(** A row of a statement that is read ends in the list the statement
    import keeps. *)
Lemma statement_row_kept (rows before : list (list string))
    (section headerRow : list string) (pre : list (list string))
    (good : list string) (post : list (list string)) :
  rows = (before ++ section :: headerRow :: pre ++ good :: post)%list ->
  opens_section section headerRow = true ->
  Forall (fun row => ends_section row = false) pre ->
  ends_section good = false ->
  passed_over (columns_of (map normalizeHeader headerRow)) good = false ->
  exists a,
    In (fst (pushed (columns_of (map normalizeHeader headerRow)) a good))
       (usable_rows (parseAccountStatementPositions rows)).
Proof.
  intros -> Ho Hpre He Hp.
  destruct (section_rows_reaches _ good post He Hp pre
              (section_asset_class (toUpperCase (trim (cell section 0)))) Hpre)
    as [a Hin].
  exists a. rewrite statement_rows_usable.
  apply statement_includes_section. rewrite statement_section_opened by exact Ho.
  exact Hin.
Qed.

(** The generic branch keeps the payload rows of the records that can be
    used, in the order of the file. *)
Lemma payload_kept (rows : list object) :
  usable_rows (positionsPayload rows)
    = map payload_row (List.filter usable_record rows).
Proof.
  unfold usable_rows, positionsPayload, usable_record.
  induction rows as [|raw rows IH]; [reflexivity|].
  cbn [map List.filter]. destruct (usable_row (payload_row raw)); cbn [map];
    now rewrite IH.
Qed.

Lemma upload_of_kept {X : Type} (m : M X) (st : app_state)
    (kept : list position_row) (r : position_row) :
  upload_outcome m st kept -> In r kept ->
  starts_with m st (Post "/positions/bulk" (BulkPositions kept (accountId st))).
Proof.
  unfold upload_outcome. destruct kept; [intros _ []|]. intros H _. exact H.
Qed.

End RecoveryFacts.

Module RecoveryClaims.
Import JsString JsNum Regex Csv Extract ImportFlow ImportFacts ExtractFacts Samples.
Import Recovery RecoveryFacts.

(** Claim C6.  In the two branches that extract positions in the browser
    (account statement and generic CSV), with one account selected.  The
    rows submitted are exactly the extracted rows that have a symbol and a
    finite non-zero quantity, in their order; when there is at least one the
    request is issued with them, and only when there is none does the import
    stop with an error and without a request.  A row that cannot be used
    does not keep the rows after it from being read.  In the generic branch
    every record of the file gives a row by itself, and the rows submitted
    are those of the usable records in file order: a usable record is
    submitted whatever stands before it.  In a statement section a row
    without symbol, or whose quantity is not finite or is zero, is passed
    over, and the section reads as if the row were not there; a row with a
    symbol and a quantity is submitted whenever no row between the header of
    its section and itself ends the section (a blank row, a section header,
    a total line), however many of those rows are passed over. *)
Theorem bad_rows_are_passed_over
    (respond : list effect -> effect -> response) (file : string)
    (st : app_state) :
  accountId st <> "" -> accountId st <> "ALL" ->
  let rows := parseCsvRows file in
  let m := importCsvFile respond file in
  rows <> [] -> isBalancesReport rows = false ->
  isPositionsReport rows = false -> isTransactionsCsv rows = false ->
  let extracted :=
    if isAccountStatement rows then parseAccountStatementPositions rows
    else positionsPayload (parseCsv file) in
  let kept := List.filter usable_row extracted in
  let sent :=
    starts_with m st (Post "/positions/bulk" (BulkPositions kept (accountId st))) in
  (forall r, In r kept <->
     In r extracted /\ symbol r <> "" /\ isFinite (qty r) = true /\
     is_zero (qty r) = false) /\
  (kept <> [] -> sent) /\
  (kept = [] -> silent m st /\ csvError (after m st) <> "") /\
  (forall r, In r (parseAccountStatementPositions rows) ->
     isFinite (qty r) = true /\ is_zero (qty r) = false) /\
  (isAccountStatement rows = false ->
     kept = map payload_row (List.filter usable_record (parseCsv file)) /\
     forall raw, In raw (parseCsv file) -> usable_record raw = true ->
       In (payload_row raw) kept /\ sent) /\
  (forall c a pre bad post,
     ends_section bad = false -> passed_over c bad = true ->
     section_rows c a (pre ++ bad :: post) = section_rows c a (pre ++ post)) /\
  (isAccountStatement rows = true ->
   forall before section headerRow pre good post,
     rows = (before ++ section :: headerRow :: pre ++ good :: post)%list ->
     opens_section section headerRow = true ->
     Forall (fun row => ends_section row = false) pre ->
     ends_section good = false ->
     passed_over (columns_of (map normalizeHeader headerRow)) good = false ->
     (exists a,
        In (fst (pushed (columns_of (map normalizeHeader headerRow)) a good)) kept)
     /\ sent).
Proof.
  intros H1 H2. cbv zeta. intros Hrows Hb Hp Ht.
  pose proof (importCsvFile_first_effect respond file st H1 H2 Hrows) as Hd.
  cbv zeta in Hd.
  rewrite Hb, Hp, Ht in Hd. unfold usable_rows in Hd.
  split; [|split; [|split; [|split; [|split; [|split]]]]].
  - intros r. rewrite filter_In, usable_row_iff. reflexivity.
  - intros Hne.
    destruct (isAccountStatement (parseCsvRows file));
      unfold upload_outcome in Hd;
      destruct (List.filter usable_row _); [congruence | exact Hd | congruence | exact Hd].
  - intros He.
    destruct (isAccountStatement (parseCsvRows file));
      unfold upload_outcome in Hd; rewrite He in Hd; exact Hd.
  - apply statement_quantities.
  - intros Hs. rewrite Hs in Hd |- *. split; [apply payload_kept|].
    intros raw Hin Hu.
    assert (Hk : In (payload_row raw)
                    (List.filter usable_row (positionsPayload (parseCsv file)))).
    { change (In (payload_row raw) (usable_rows (positionsPayload (parseCsv file)))).
      rewrite payload_kept. apply in_map, filter_In. auto. }
    split; [exact Hk|]. exact (upload_of_kept _ _ _ _ Hd Hk).
  - intros c a pre bad post He Hpo. now apply section_rows_skips.
  - intros Hs. rewrite Hs in Hd |- *.
    intros before section headerRow pre good post Er Ho Hpre He Hpo.
    destruct (statement_row_kept _ before section headerRow pre good post
                Er Ho Hpre He Hpo) as [a Hin].
    split; [now exists a|]. exact (upload_of_kept _ _ _ _ Hd Hin).
Qed.

Lemma bad_rows_are_passed_over_witness :
  starts_with (importCsvFile quiet_server statement_file) (named_state "ACC1")
    (Post "/positions/bulk"
       (BulkPositions
          [PositionRow None "AAPL" (Fin 10) (Fin 110) (Some (Fin 100)) "EQUITY"
             None None None None None None None None;
           PositionRow None "GE" (Fin (-3)) (Fin 20) (Some (Fin 20)) "EQUITY"
             None None None None None None None None]
          "ACC1")) /\
  starts_with (importCsvFile quiet_server generic_file) (named_state "ACC1")
    (Post "/positions/bulk"
       (BulkPositions
          [PositionRow None "AAPL" (Fin 10) (Fin 110) (Some (Fin 110)) "EQUITY"
             None None None None None None None None;
           PositionRow None "GE" (Fin (-3)) (Fin 20) (Some (Fin 20)) "EQUITY"
             None None None None None None None None]
          "ACC1")).
Proof.
  split.
  - pose proof (bad_rows_are_passed_over quiet_server statement_file
                  (named_state "ACC1")) as H.
    cbv zeta in H.
    destruct H as (_ & _ & _ & _ & _ & _ & H);
      try (vm_compute; discriminate); try (vm_compute; reflexivity).
    refine (proj2 (H eq_refl [["Account Statement"]] ["Equities"]
                     ["Symbol"; "Description"; "Qty"; "Trade Price"; "Mark"]
                     [["AAPL"; "APPLE INC"; "+10"; "100"; "110"];
                      ["MSFT"; "MICROSOFT"; "0"; "300"; "310"];
                      [""; "NO SYMBOL"; "5"; "1"; "1"];
                      ["IBM"; "IBM CORP"; "abc"; "1"; "1"]]
                     ["GE"; "GENERAL ELECTRIC"; "-3"; ""; "20"] [] _ _ _ _ _));
      try (vm_compute; reflexivity).
    repeat constructor.
  - pose proof (bad_rows_are_passed_over quiet_server generic_file
                  (named_state "ACC1")) as H.
    cbv zeta in H.
    destruct H as (_ & _ & _ & _ & H & _);
      try (vm_compute; discriminate); try (vm_compute; reflexivity).
    refine (proj2 (proj2 (H eq_refl)
                     [("Symbol", "GE"); ("Qty", "-3"); ("Price", "20")] _ _));
      [vm_compute; auto 10 | vm_compute; reflexivity].
Defined.

End RecoveryClaims.

(** ** The watch list *)

Module WatchlistFacts.
Import JsString Watchlist.

Lemma listed_In (symbol : string) (l : list string) :
  listed symbol l = true <-> In symbol l.
Proof.
  unfold listed. rewrite existsb_exists. split.
  - intros (x & Hx & E). apply String.eqb_eq in E. now subst.
  - intros H. exists symbol. split; [exact H | apply String.eqb_refl].
Qed.

Lemma removed_In (symbol x : string) (l : list string) :
  In x (List.filter (fun s => negb (String.eqb s symbol)) l) <->
  In x l /\ x <> symbol.
Proof.
  rewrite filter_In, negb_true_iff, String.eqb_neq. tauto.
Qed.

Lemma remove_absent (symbol : string) (l : list string) :
  ~ In symbol l -> List.filter (fun s => negb (String.eqb s symbol)) l = l.
Proof.
  induction l as [|x l IH]; intros H; [reflexivity|].
  cbn [List.filter]. destruct (String.eqb_spec x symbol) as [->|Hne].
  - exfalso. apply H. now left.
  - cbn [negb]. f_equal. apply IH. intros Hin. apply H. now right.
Qed.

Lemma remove_appended (symbol : string) (l : list string) :
  ~ In symbol l ->
  List.filter (fun s => negb (String.eqb s symbol)) (l ++ [symbol])%list = l.
Proof.
  intros H. rewrite List.filter_app, (remove_absent symbol l H).
  cbn [List.filter]. rewrite String.eqb_refl. cbn [negb]. apply app_nil_r.
Qed.

Lemma NoDup_snoc (l : list string) (x : string) :
  List.NoDup l -> ~ In x l -> List.NoDup (l ++ [x])%list.
Proof.
  intros Hl Hx. induction Hl as [|y l Hy Hl IH]; cbn [app].
  - constructor; [intros [] | constructor].
  - constructor.
    + rewrite in_app_iff. intros [H|[H|[]]]; [contradiction|].
      apply Hx. now left.
    + apply IH. intros H. apply Hx. now right.
Qed.

Lemma NoDup_removed (symbol : string) (l : list string) :
  List.NoDup l ->
  List.NoDup (List.filter (fun s => negb (String.eqb s symbol)) l).
Proof.
  induction 1 as [|y l Hy Hl IH]; cbn [List.filter]; [constructor|].
  destruct (negb (String.eqb y symbol)); [|exact IH].
  constructor; [|exact IH]. rewrite removed_In. tauto.
Qed.

End WatchlistFacts.

Module WatchlistProperties.
Import JsString Watchlist WatchlistFacts.

(** Property X19.  The watch list stays free of duplicates under
    [addWatchSymbol] and [removeWatchSymbol].  A symbol typed in any case
    and with blanks around it is listed trimmed and in upper case, and the
    input is cleared; typing a symbol already listed leaves the list as it
    is; a blank input changes nothing.  Removing a symbol just added to a
    list that did not hold it gives back that list, and after a removal the
    symbol is no longer listed while every other symbol still is. *)
Theorem watchlist_is_a_set (st : watch_state) (symbol : string) :
  let typed := toUpperCase (trim (watchlistInput st)) in
  List.NoDup (watchlistSymbols st) ->
  List.NoDup (watchlistSymbols (addWatchSymbol st)) /\
  List.NoDup (watchlistSymbols (removeWatchSymbol symbol st)) /\
  (typed <> "" ->
     In typed (watchlistSymbols (addWatchSymbol st)) /\
     watchlistInput (addWatchSymbol st) = "") /\
  (typed = "" \/ In typed (watchlistSymbols st) ->
     watchlistSymbols (addWatchSymbol st) = watchlistSymbols st) /\
  (typed <> "" -> ~ In typed (watchlistSymbols st) ->
     watchlistSymbols (removeWatchSymbol typed (addWatchSymbol st))
       = watchlistSymbols st) /\
  (forall x, In x (watchlistSymbols (removeWatchSymbol symbol st)) <->
             In x (watchlistSymbols st) /\ x <> symbol).
Proof.
  intros typed Hnd.
  assert (Hadd : watchlistSymbols (addWatchSymbol st) =
            if negb (JsString.truthy typed) then watchlistSymbols st
            else if listed typed (watchlistSymbols st) then watchlistSymbols st
                 else (watchlistSymbols st ++ [typed])%list).
  { unfold addWatchSymbol. fold typed.
    now destruct (negb (JsString.truthy typed)). }
  assert (Hin : watchlistInput (addWatchSymbol st) =
            if negb (JsString.truthy typed) then watchlistInput st else "").
  { unfold addWatchSymbol. fold typed.
    now destruct (negb (JsString.truthy typed)). }
  assert (Hlisted : listed typed (watchlistSymbols st) = false ->
                    ~ In typed (watchlistSymbols st)).
  { intros E H. apply listed_In in H. congruence. }
  split; [|split; [|split; [|split; [|split]]]].
  - rewrite Hadd. destruct (negb (JsString.truthy typed)); [exact Hnd|].
    destruct (listed typed (watchlistSymbols st)) eqn:El; [exact Hnd|].
    apply NoDup_snoc; auto.
  - now apply NoDup_removed.
  - intros Hne. rewrite Hadd, Hin.
    destruct typed as [|c t]; [congruence|]. cbn [JsString.truthy negb].
    split; [|reflexivity].
    destruct (listed (String c t) (watchlistSymbols st)) eqn:El;
      [now apply listed_In|].
    apply in_app_iff. right. now left.
  - intros [E|H]; rewrite Hadd.
    + now rewrite E.
    + apply listed_In in H. rewrite H.
      now destruct (negb (JsString.truthy typed)).
  - intros Hne Hnot. unfold removeWatchSymbol. cbn [watchlistSymbols].
    rewrite Hadd. destruct typed as [|c t]; [congruence|].
    cbn [JsString.truthy negb].
    destruct (listed (String c t) (watchlistSymbols st)) eqn:El;
      [apply listed_In in El; contradiction|].
    now apply remove_appended.
  - intros x. apply removed_In.
Qed.

Lemma watchlist_is_a_set_witness :
  watchlistSymbols (addWatchSymbol (WatchState " msft " ["AAPL"])) = ["AAPL"; "MSFT"] /\
  watchlistSymbols (addWatchSymbol (WatchState "aapl" ["AAPL"])) = ["AAPL"].
Proof.
  split; [reflexivity|].
  apply (proj1 (proj2 (proj2 (proj2 (watchlist_is_a_set (WatchState "aapl" ["AAPL"]) ""
           ltac:(repeat constructor; intros [])))))).
  right. now left.
Defined.

End WatchlistProperties.

(** ** Validating and normalising legs *)

Module LegFacts.
Import JsString JsStringFacts JsNum JsNumFacts Regex Codec CodecFacts Shapes.
Import TrimFacts CodecMore ExpiryFacts DisplayFacts Legs.

Lemma positive_of_valid (q : number) :
  isFinite q = true -> le q (Fin 0) = false ->
  JsNum.truthy q = true /\ gt q (Fin 0) = true.
Proof.
  destruct q as [| s | x]; try discriminate. intros _ H.
  assert (Hg : gt (Fin x) (Fin 0) = true)
    by (cbn in H |- *; now apply negb_false_iff in H).
  split; [now apply positive_truthy | exact Hg].
Qed.

(** What [normalizeExpiryInput] returns: the trimmed input or an ISO date. *)
Lemma normalize_cases (v : string) :
  normalizeExpiryInput v = trim v \/
  exists y1 y2 y3 y4 m1 m2 d1 d2,
    normalizeExpiryInput v = iso_date y1 y2 y3 y4 m1 m2 d1 d2 /\
    all_chars is_digit
      (String y1 (String y2 (String y3 (String y4
        (String m1 (String m2 (String d1 (String d2 "")))))))) = true.
Proof.
  rewrite (normalize_trim v).
  pose proof (trim_idempotent v) as Ht. set (raw := trim v) in *.
  destruct (string_dec raw "") as [->|Hne]; [now left|].
  rewrite (normalize_unfold raw Ht Hne).
  destruct (test iso_date_re raw); [now left|].
  destruct (exec (mdy_re dash 4) raw) as [m|] eqn:H1.
  { right. destruct (mdy_rewritten "-" 4 raw "" m H1 eq_refl eq_refl (le_n 4))
      as (y1 & y2 & y3 & y4 & m1 & m2 & d1 & d2 & E & Hd).
    cbn [String.append] in E |- *. rewrite E. eauto 10. }
  destruct (exec (mdy_re dash 2) raw) as [m|] eqn:H2.
  { right. destruct (mdy_rewritten "-" 2 raw "20" m H2 eq_refl eq_refl ltac:(lia))
      as (y1 & y2 & y3 & y4 & m1 & m2 & d1 & d2 & E & Hd).
    cbn [String.append] in E |- *. rewrite E. eauto 10. }
  destruct (exec (mdy_re slash 4) raw) as [m|] eqn:H3.
  { right. destruct (mdy_rewritten "/" 4 raw "" m H3 eq_refl eq_refl (le_n 4))
      as (y1 & y2 & y3 & y4 & m1 & m2 & d1 & d2 & E & Hd).
    cbn [String.append] in E |- *. rewrite E. eauto 10. }
  destruct (exec (mdy_re slash 2) raw) as [m|] eqn:H4.
  { right. destruct (mdy_rewritten "/" 2 raw "20" m H4 eq_refl eq_refl ltac:(lia))
      as (y1 & y2 & y3 & y4 & m1 & m2 & d1 & d2 & E & Hd).
    cbn [String.append] in E |- *. rewrite E. eauto 10. }
  now left.
Qed.

Lemma trim_iso_date (y1 y2 y3 y4 m1 m2 d1 d2 : ascii) :
  all_chars is_digit
    (String y1 (String y2 (String y3 (String y4
      (String m1 (String m2 (String d1 (String d2 "")))))))) = true ->
  trim (iso_date y1 y2 y3 y4 m1 m2 d1 d2) = iso_date y1 y2 y3 y4 m1 m2 d1 d2.
Proof.
  cbn [all_chars]. rewrite !andb_true_iff.
  intros (Hy1 & Hy2 & Hy3 & Hy4 & Hm1 & Hm2 & Hd1 & Hd2 & _).
  apply (trim_digits_and date_char); [apply date_char_not_space|].
  unfold iso_date. date_chars.
Qed.

Lemma normalize_is_trimmed (v : string) :
  trim (normalizeExpiryInput v) = normalizeExpiryInput v.
Proof.
  destruct (normalize_cases v)
    as [-> | (y1 & y2 & y3 & y4 & m1 & m2 & d1 & d2 & -> & Hd)].
  - apply trim_idempotent.
  - now apply trim_iso_date.
Qed.

Lemma first_problem_none (legs : list trade_leg) :
  first_problem legs = None -> forall leg, In leg legs -> leg_problem leg = None.
Proof.
  induction legs as [|l legs IH]; intros H leg Hin; [destruct Hin|].
  cbn [first_problem] in H. destruct (leg_problem l) eqn:El; [discriminate|].
  destruct Hin as [<-|Hin]; auto.
Qed.

Lemma validated (legs : list trade_leg) :
  ok (validateLegInputs legs) = true ->
  legs <> [] /\ forall leg, In leg legs -> leg_problem leg = None.
Proof.
  unfold validateLegInputs. destruct legs as [|l legs]; [discriminate|].
  destruct (first_problem (l :: legs)) eqn:E; [discriminate|].
  intros _. split; [discriminate | now apply first_problem_none].
Qed.

Lemma right_letter_of_upper (r : string) :
  JsString.truthy (right_letter_of r) = true ->
  (if String.eqb (right_letter_of r) "P" then "PUT" else "CALL") = "PUT" \/
  (if String.eqb (right_letter_of r) "P" then "PUT" else "CALL") = "CALL".
Proof. intros _. destruct (String.eqb _ _); auto. Qed.

(** A leg that passes the checks of [validateLegInputs] gets through
    [normalizeLeg], unless no symbol can be built from its fields. *)
Lemma checked_leg (leg : trade_leg) :
  leg_problem leg = None ->
  match normalizeLeg leg true with
  | Returned n =>
      nl_id n = leg_id leg /\ is_side (nl_side n) = true /\
      nl_qty n = Number (leg_qty leg) /\ isFinite (nl_qty n) = true /\
      gt (nl_qty n) (Fin 0) = true /\ nl_symbol n <> "" /\
      (nl_option_type n = "PUT" \/ nl_option_type n = "CALL") /\
      isFinite (nl_strike n) = true
  | Thrown msg =>
      msg = "Could not build OSI symbol for a leg. Check expiry/right/strike." /\
      trim (leg_symbol leg) = "" /\
      String.length (compact_date (normalizeExpiryInput (trim (leg_expiry leg))))
        <> 6%nat
  end.
Proof.
  unfold leg_problem, normalizeLeg. cbv zeta.
  destruct (is_side _) eqn:Hside; cbn [negb]; [|discriminate].
  destruct (negb (isFinite (Number (leg_qty leg))) || le (Number (leg_qty leg)) (Fin 0))
    eqn:Hq; [discriminate|].
  apply orb_false_iff in Hq as [Hfin Hle]. apply negb_false_iff in Hfin.
  destruct (positive_of_valid _ Hfin Hle) as [Htr Hgt].
  rewrite Htr, Hle, andb_false_r. cbn [negb orb].
  destruct (JsString.truthy (toUpperCase (trim (leg_symbol leg)))) eqn:Hsym.
  - destruct (parseOsiSymbol _) as [parsed|] eqn:Hp; [intros _|discriminate].
    cbn [nl_id nl_side nl_qty nl_symbol nl_option_type nl_strike].
    destruct (parse_ranges _ _ Hp) as (_ & _ & Ht & k & q & Hs & _).
    repeat split; auto.
    + destruct (toUpperCase (trim (leg_symbol leg))); discriminate.
    + tauto.
    + now rewrite Hs.
  - set (u := toUpperCase (trim (leg_underlying leg))).
    set (e := normalizeExpiryInput (trim (leg_expiry leg))).
    set (r := right_letter_of (toUpperCase (trim (leg_right leg)))).
    set (k := Number (leg_strike leg)).
    destruct (negb (JsString.truthy u) || negb (JsString.truthy e)
              || negb (JsString.truthy r) || negb (isFinite k) || le k (Fin 0))
      eqn:Hf; [discriminate|]. intros _.
    rewrite !orb_false_iff, !negb_false_iff in Hf.
    destruct Hf as ((((Hu & He) & Hr) & Hk) & Hkle).
    destruct (positive_of_valid _ Hk Hkle) as [Hkt _].
    rewrite Hu, He, Hr, Hkt. cbn [negb orb].
    assert (Hsym' : trim (leg_symbol leg) = "").
    { destruct (trim (leg_symbol leg)); [reflexivity | discriminate]. }
    assert (Htu : trim u <> "").
    { unfold u. rewrite trim_upper, trim_idempotent. fold u.
      destruct u; discriminate. }
    assert (Hte : trim e <> "").
    { unfold e. rewrite normalize_is_trimmed. fold e. destruct e; discriminate. }
    assert (Hrne : r <> "") by (destruct r; discriminate).
    destruct (JsString.truthy (buildOsiSymbol u e r k)) eqn:Hb; cbn [negb].
    + cbn [nl_id nl_side nl_qty nl_symbol nl_option_type nl_strike].
      repeat split; auto.
      * destruct (buildOsiSymbol u e r k); discriminate.
      * destruct (String.eqb r "P"); auto.
    + repeat split; auto.
      assert (Hfail : buildOsiSymbol u e r k = "")
        by (destruct (buildOsiSymbol u e r k); [reflexivity | discriminate]).
      apply build_failure_iff in Hfail as [H|[H|[H|[H|H]]]];
        try contradiction; [congruence | exact H].
Qed.

(** A date in a recognised form always gives a six-digit field. *)
Lemma iso_compact_length (y1 y2 y3 y4 m1 m2 d1 d2 : ascii) :
  all_chars is_digit
    (String y1 (String y2 (String y3 (String y4
      (String m1 (String m2 (String d1 (String d2 "")))))))) = true ->
  String.length (compact_date (iso_date y1 y2 y3 y4 m1 m2 d1 d2)) = 6%nat.
Proof.
  intros Hd. unfold compact_date. rewrite trim_iso_date by exact Hd.
  cbn [all_chars] in Hd. rewrite !andb_true_iff in Hd.
  destruct Hd as (Hy1 & Hy2 & Hy3 & Hy4 & Hm1 & Hm2 & Hd1 & Hd2 & _).
  assert (Hne : forall c, is_digit c = true -> Ascii.eqb "-" c = false).
  { intros c Hc. rewrite eqb_code. apply Nat.eqb_neq.
    unfold is_digit in Hc. rewrite between_true in Hc.
    change (code "-") with 45%nat. lia. }
  unfold replaceAll, iso_date.
  cbn [String.length replaceAll_go startsWith drop String.append].
  rewrite ?(Hne y1 Hy1), ?(Hne y2 Hy2), ?(Hne y3 Hy3), ?(Hne y4 Hy4).
  cbn [andb String.length replaceAll_go startsWith drop String.append].
  rewrite ?Ascii.eqb_refl.
  cbn [andb String.length replaceAll_go startsWith drop String.append].
  rewrite ?(Hne m1 Hm1), ?(Hne m2 Hm2).
  cbn [andb String.length replaceAll_go startsWith drop String.append].
  rewrite ?Ascii.eqb_refl.
  cbn [andb String.length replaceAll_go startsWith drop String.append].
  rewrite ?(Hne d1 Hd1), ?(Hne d2 Hd2).
  cbn [andb String.length replaceAll_go startsWith drop String.append slice_from].
  reflexivity.
Qed.

End LegFacts.

Module LegProperties.
Import JsString JsNum Codec Shapes Legs LegFacts LegSamples.

(** Property X20.  Legs that [validateLegInputs] accepts are ready for
    [normalizeLeg] with a missing price allowed, but for one gap.  There is
    at least one leg; each leg either normalises, to a leg with the same
    id, the side BUY or SELL, the typed quantity, finite and positive, a
    symbol, the option type PUT or CALL and a finite strike; or
    [normalizeLeg] throws, and then always the message that no symbol could
    be built, for a leg without a typed symbol whose expiry, normalised,
    does not give six date digits.  A leg whose normalised expiry has the
    form [YYYY-MM-DD] always normalises. *)
Theorem validated_legs_normalize (legs : list trade_leg) :
  ok (validateLegInputs legs) = true ->
  legs <> [] /\
  (forall leg, In leg legs ->
     match normalizeLeg leg true with
     | Returned n =>
         nl_id n = leg_id leg /\ is_side (nl_side n) = true /\
         nl_qty n = Number (leg_qty leg) /\ isFinite (nl_qty n) = true /\
         gt (nl_qty n) (Fin 0) = true /\ nl_symbol n <> "" /\
         (nl_option_type n = "PUT" \/ nl_option_type n = "CALL") /\
         isFinite (nl_strike n) = true
     | Thrown msg =>
         msg = "Could not build OSI symbol for a leg. Check expiry/right/strike." /\
         trim (leg_symbol leg) = "" /\
         String.length
           (compact_date (normalizeExpiryInput (trim (leg_expiry leg)))) <> 6%nat
     end) /\
  (forall leg y1 y2 y3 y4 m1 m2 d1 d2, In leg legs ->
     normalizeExpiryInput (trim (leg_expiry leg))
       = iso_date y1 y2 y3 y4 m1 m2 d1 d2 ->
     all_chars is_digit
       (String y1 (String y2 (String y3 (String y4
         (String m1 (String m2 (String d1 (String d2 "")))))))) = true ->
     exists n, normalizeLeg leg true = Returned n).
Proof.
  intros Hok. destruct (validated legs Hok) as [Hne Hall].
  split; [exact Hne|]. split.
  - intros leg Hin. apply checked_leg. now apply Hall.
  - intros leg y1 y2 y3 y4 m1 m2 d1 d2 Hin He Hd.
    pose proof (checked_leg leg (Hall leg Hin)) as H.
    destruct (normalizeLeg leg true) as [n|msg]; [now exists n|].
    destruct H as (_ & _ & Hlen). exfalso. apply Hlen.
    rewrite He. now apply iso_compact_length.
Qed.

Lemma validated_legs_normalize_witness :
  (exists n, normalizeLeg typed_leg true = Returned n) /\
  ok (validateLegInputs [vague_leg]) = true /\
  normalizeLeg vague_leg true
    = Thrown "Could not build OSI symbol for a leg. Check expiry/right/strike.".
Proof.
  split; [|split; reflexivity].
  apply (proj2 (proj2 (validated_legs_normalize [typed_leg] eq_refl))
           typed_leg "2"%char "0"%char "2"%char "6"%char "0"%char "1"%char
           "1"%char "7"%char);
    [now left | reflexivity | reflexivity].
Defined.

End LegProperties.

Module NavPasteProperties.
Import JsString JsNum Csv Extract ImportFlow ImportFacts Samples.

(** Property X21.  With one account selected, [importNavText] sends
    nothing for a paste that is blank and shows "Paste NAV lines first.";
    for any other paste it sends one request, with the account, the text
    exactly as pasted (not trimmed) and [append] false.  When the server
    accepts it the accounts, the data and the NAV history are refreshed and
    the paste error is empty; when the server rejects it nothing else is
    sent and the error shown is the server's detail, else the error's
    message, else "NAV import failed". *)
Theorem nav_paste_outcome (respond : list effect -> effect -> response)
    (st : app_state) :
  accountId st <> "" -> accountId st <> "ALL" ->
  let m := importNavText respond in
  let upload :=
    Post "/admin/import-nav-text"
         (NavText (accountId st) (navPasteText st) false) in
  (trim (navPasteText st) = "" ->
     silent m st /\
     navPasteError (after m st) = "Paste NAV lines first." /\
     toast (after m st) = "Paste NAV lines first.") /\
  (trim (navPasteText st) <> "" ->
     match respond (log st) upload with
     | Resolved data =>
         log (after m st)
           = (log st ++ [upload; FetchAccounts; RefreshAll; FetchNav (navLimit st)])%list /\
         navPasteError (after m st) = ""
     | Rejected err =>
         log (after m st) = (log st ++ [upload])%list /\
         navPasteError (after m st) = error_text err "NAV import failed" /\
         toast (after m st) = error_text err "NAV import failed"
     end).
Proof.
  intros H1 H2. cbv zeta. unfold silent, after.
  assert (E : importNavText respond st =
    if negb (JsString.truthy (trim (navPasteText st))) then
      (tt, with_toast "Paste NAV lines first."
             (with_navPasteError "Paste NAV lines first."
                (with_navPasteError "" st)))
    else
      match respond (log st)
              (Post "/admin/import-nav-text"
                 (NavText (accountId st) (navPasteText st) false)) with
      | Resolved data =>
          (tt, with_toast
                 ("Imported NAV history ("
                    ++ Z_toString (nullish (count data) 0%Z) ++ " rows).")
                 (with_effect (FetchNav (navLimit st))
                    (with_effect RefreshAll
                       (with_effect FetchAccounts
                          (with_effect
                             (Post "/admin/import-nav-text"
                                (NavText (accountId st) (navPasteText st) false))
                             (with_toast "Importing NAV history..."
                                (with_navPasteError "" st)))))))
      | Rejected err =>
          (tt, with_toast (error_text err "NAV import failed")
                 (with_navPasteError (error_text err "NAV import failed")
                    (with_effect
                       (Post "/admin/import-nav-text"
                          (NavText (accountId st) (navPasteText st) false))
                       (with_toast "Importing NAV history..."
                          (with_navPasteError "" st)))))
      end).
  { unfold importNavText, bind. unfold setNavPasteError at 1, modify.
    rewrite (requireAccount_named _ _ (with_navPasteError "" st) H1 H2).
    run. destruct (negb (JsString.truthy (trim (navPasteText st))));
      [reflexivity|].
    run. destruct (respond (log st) _); reflexivity. }
  rewrite E. split.
  - intros Hb. rewrite Hb. cbn. repeat split; reflexivity.
  - intros Hb. destruct (trim (navPasteText st)); [congruence|].
    cbn [JsString.truthy negb].
    destruct (respond (log st) _); cbn; rewrite <- ?app_assoc; repeat split;
      reflexivity.
Qed.

Lemma nav_paste_outcome_witness :
  log (after (importNavText quiet_server)
         (AppState "ACC1" 365 " 2026-01-02,100 " "" "" "" "" []))
    = [Post "/admin/import-nav-text" (NavText "ACC1" " 2026-01-02,100 " false);
       FetchAccounts; RefreshAll; FetchNav 365].
Proof.
  exact (proj1 (proj2 (nav_paste_outcome quiet_server
    (AppState "ACC1" 365 " 2026-01-02,100 " "" "" "" "" [])
    ltac:(discriminate) ltac:(discriminate)) ltac:(discriminate))).
Defined.

End NavPasteProperties.

(** ** Futures symbols *)

Module FutureFacts.
Import JsString JsStringFacts Regex RegexFacts Codec CodecFacts MatchInversion.

Lemma future_re_anchored :
  future_re = Seq Bol (seq [range is_upper_alnum 1 4; Cls is_month_code;
                            times is_digit 2; Eol]).
Proof. reflexivity. Qed.

Lemma future_inv (t : string) :
  test future_re t = true ->
  exists R m D,
    t = R ++ String m D /\
    (1 <= String.length R <= 4)%nat /\ all_chars is_upper_alnum R = true /\
    is_month_code m = true /\
    String.length D = 2%nat /\ all_chars is_digit D = true.
Proof.
  unfold test. destruct (exec future_re t) as [st|] eqn:H; [intros _|discriminate].
  rewrite future_re_anchored in H. apply exec_anchored_sound in H.
  cbn [seq] in H. unfold range, times in H.
  apply matches_seq_inv in H as (s1 & H1 & H).
  apply matches_rep_inv in H1 as (R & b1 & E1 & HR & Hlo & Hhi & ->).
  apply matches_seq_inv in H as (s2 & H2 & H).
  apply matches_cls_inv in H2 as (m & b2 & E2 & Hm & ->).
  apply matches_seq_inv in H as (s3 & H3 & H).
  apply matches_rep_inv in H3 as (D & b3 & E3 & HD & HDlo & HDhi & ->).
  apply matches_eol_inv in H as [_ E4].
  cbn [rest within caps before] in *. subst b3. rewrite append_nil_r in E3.
  subst. exists R, m, D. repeat split; auto; lia.
Qed.

Lemma future_match (R D : string) (m : ascii) :
  (1 <= String.length R <= 4)%nat -> all_chars is_upper_alnum R = true ->
  is_month_code m = true ->
  String.length D = 2%nat -> all_chars is_digit D = true ->
  test future_re (R ++ String m D) = true.
Proof.
  intros HR HRa Hm HD HDa. unfold test.
  rewrite (exec_here future_re _ (MState (last_char D (Some m)) "" []));
    [reflexivity|].
  unfold match_here.
  change (rmatch future_re (MState None (R ++ String m D) []) Some)
    with (rep is_upper_alnum 1 (Some 4) None (R ++ String m D)
            (fun pv s' =>
               rmatch (Seq (Cls is_month_code) (Seq (Rep is_digit 2 (Some 2)) Eol))
                      (MState pv s' []) Some)).
  apply rep_first; [exact HRa | lia | cbn; lia | |].
  - cbn [rmatch rest caps]. rewrite Hm.
    cbn [rmatch before rest caps].
    rewrite <- (append_nil_r D) at 1.
    rewrite (rep_exact is_digit 2 (Some m) D "") by assumption.
    reflexivity.
  - intros a' b' Heq Hlen.
    apply (rmatch_fixed_width
             (Seq (Cls is_month_code) (Seq (Rep is_digit 2 (Some 2)) Eol)) 3);
      try reflexivity.
    cbn [rest]. apply (f_equal String.length) in Heq.
    rewrite !length_append in Heq. cbn [String.length] in Heq. lia.
Qed.

End FutureFacts.

Module FutureProperties.
Import JsString JsStringFacts Regex Codec CodecFacts FutureFacts.

(** Property X22.  [isFutureSymbol] accepts exactly the texts that, once
    trimmed and put in upper case, are one to four upper-case letters or
    digits, one of the month letters F G H J K M N Q U V X Z, and two
    digits. *)
Theorem future_symbol_shape (s : string) :
  isFutureSymbol s = true <->
  exists R m D,
    toUpperCase (trim s) = R ++ String m D /\
    (1 <= String.length R <= 4)%nat /\ all_chars is_upper_alnum R = true /\
    is_month_code m = true /\
    String.length D = 2%nat /\ all_chars is_digit D = true.
Proof.
  unfold isFutureSymbol. rewrite or_else_empty. split.
  - destruct (JsString.truthy (toUpperCase (trim s))); cbn [negb];
      [apply future_inv | discriminate].
  - intros (R & m & D & -> & HR & HRa & Hm & HD & HDa).
    assert (Ht : JsString.truthy (R ++ String m D) = true)
      by (destruct R; reflexivity).
    rewrite Ht. cbn [negb]. now apply future_match.
Qed.

Lemma future_symbol_shape_witness :
  isFutureSymbol " esz25 " = true /\ isFutureSymbol "AAPL" = false.
Proof.
  split.
  - apply (proj2 (future_symbol_shape " esz25 ")).
    exists "ES", "Z"%char, "25". repeat split; try reflexivity; cbn; lia.
  - reflexivity.
Defined.

End FutureProperties.

(** ** Header names *)

Module HeaderFacts.
Import JsString JsStringFacts JsNum Regex RegexFacts Csv HeaderShape.

(** A greedy repetition whose continuation always succeeds reads the
    longest run. *)
Lemma rep_greedy (p : ascii -> bool) (cs : list (nat * string)) (s : string) :
  forall lo prev,
    rep p lo None prev s (fun pv s' => Some (MState pv s' cs)) =
      (let '(a, b) := span p s in
       if (lo <=? String.length a)%nat
       then Some (MState (last_char a prev) b cs) else None).
Proof.
  induction s as [|c s IH]; intros lo prev.
  - cbn. now destruct lo.
  - cbn [rep hi_zero hi_pred span]. destruct (p c) eqn:Hc.
    + rewrite IH. destruct (span p s) as [a b]. cbn [String.length last_char].
      destruct lo as [|lo]; cbn [pred Nat.leb]; [reflexivity|].
      now destruct (lo <=? String.length a)%nat.
    + cbn [String.length last_char]. now destruct lo.
Qed.

Lemma span_spec (p : ascii -> bool) (s : string) :
  let '(a, b) := span p s in
  s = a ++ b /\ all_chars p a = true /\
  match b with String c _ => p c = false | EmptyString => True end.
Proof.
  induction s as [|c s IH]; [cbn; auto|].
  cbn [span]. destruct (p c) eqn:Hc.
  - destruct (span p s) as [a b]. destruct IH as (-> & Ha & Hb).
    cbn [String.append all_chars]. rewrite Hc. auto.
  - cbn. auto.
Qed.

Lemma squeeze_run (p : ascii -> bool) (a b : string) :
  all_chars p a = true -> squeeze p true (a ++ b) = squeeze p true b.
Proof.
  induction a as [|c a IH]; [reflexivity|].
  cbn [all_chars String.append squeeze]. rewrite andb_true_iff.
  intros [-> H]. auto.
Qed.

Lemma squeeze_after_run (p : ascii -> bool) (b : string) :
  match b with String c _ => p c = false | EmptyString => True end ->
  squeeze p true b = squeeze p false b.
Proof. destruct b as [|c b]; [reflexivity|]. cbn [squeeze]. now intros ->. Qed.

(** Replacing the runs of a class by an underscore. *)
Lemma replace_go_plus (p : ascii -> bool) (fuel : nat) :
  forall s prev, (String.length s < fuel)%nat ->
    replace_go fuel (plus p) "_" prev s = squeeze p false s.
Proof.
  induction fuel as [|f IH]; intros s prev Hf; [lia|].
  destruct s as [|c s]; [reflexivity|].
  cbn [replace_go]. unfold match_here, plus. cbn [rmatch before rest caps].
  rewrite rep_greedy. pose proof (span_spec p (String c s)) as Hs.
  cbn [span] in Hs |- *. destruct (p c) eqn:Hc.
  - destruct (span p s) as [a b] eqn:Esp. destruct Hs as (E & Ha & Hb).
    cbn [String.length Nat.leb rest before].
    injection E as E. subst s.
    assert (Hlt : (String.length b <? S (String.length (a ++ b)))%nat = true)
      by (apply Nat.ltb_lt; rewrite length_append; lia).
    rewrite Hlt. cbn [squeeze]. rewrite Hc. cbn [String.append]. f_equal.
    cbn [all_chars] in Ha. rewrite Hc in Ha. cbn [andb] in Ha.
    rewrite (squeeze_run p a b Ha), (squeeze_after_run p b Hb).
    apply IH. cbn [String.length] in Hf. rewrite length_append in Hf. lia.
  - cbn [String.length Nat.leb squeeze]. rewrite Hc. f_equal.
    apply IH. cbn [String.length] in Hf. lia.
Qed.

Lemma replace_g_plus (p : ascii -> bool) (s : string) :
  replace_g (plus p) "_" s = squeeze p false s.
Proof. unfold replace_g. apply replace_go_plus. lia. Qed.

(** A greedy repetition that must reach the end of the text. *)
Lemma rep_to_end (p : ascii -> bool) (cs : list (nat * string)) (s : string) :
  forall lo prev,
    rep p lo None prev s
      (fun pv s' =>
         match s' with
         | EmptyString => Some (MState pv s' cs)
         | String _ _ => None
         end) =
      if all_chars p s && (lo <=? String.length s)%nat
      then Some (MState (last_char s prev) "" cs) else None.
Proof.
  induction s as [|c s IH]; intros lo prev.
  - cbn. now destruct lo.
  - cbn [rep hi_zero hi_pred all_chars String.length last_char].
    destruct (p c) eqn:Hc; cbn [andb].
    + rewrite IH. destruct lo as [|lo]; cbn [pred Nat.leb].
      * rewrite andb_true_r.
        now destruct (all_chars p s).
      * now destruct (all_chars p s && (lo <=? String.length s)%nat).
    + now destruct lo.
Qed.

Lemma chop_empty (s : string) :
  chop_underscores s = "" <-> all_chars is_underscore s = true.
Proof.
  induction s as [|c s IH]; cbn [chop_underscores all_chars]; [tauto|].
  destruct (chop_underscores s) eqn:E.
  - destruct (is_underscore c); cbn [andb]; split; try discriminate; auto.
    + intros _. now apply IH.
  - split; [discriminate|]. rewrite andb_true_iff. intros [_ H].
    apply IH in H. discriminate.
Qed.

Lemma chop_cons (c : ascii) (s : string) :
  all_chars is_underscore (String c s) = false ->
  chop_underscores (String c s) = String c (chop_underscores s).
Proof.
  intros H. cbn [chop_underscores]. destruct (chop_underscores s) eqn:E;
    [|reflexivity].
  apply chop_empty in E. cbn [all_chars] in H. rewrite E, andb_true_r in H.
  now rewrite H.
Qed.

Lemma edges_inside (x : ascii) (s : string) :
  match_here edges (Some x) s =
    if all_chars is_underscore s && (1 <=? String.length s)%nat
    then Some (MState (last_char s (Some x)) "" []) else None.
Proof.
  unfold match_here, edges, plus. cbn [rmatch before rest caps].
  apply rep_to_end.
Qed.

Lemma edges_front (s : string) :
  match_here edges None s =
    match span is_underscore s with
    | (String c a, b) => Some (MState (last_char a (Some c)) b [])
    | (EmptyString, _) => None
    end.
Proof.
  unfold match_here, edges, plus. cbn [rmatch before rest caps].
  rewrite rep_greedy, rep_to_end.
  pose proof (span_spec is_underscore s) as Hs.
  destruct (span is_underscore s) as [[|c a] b]; [|reflexivity].
  cbn [String.length Nat.leb]. destruct Hs as (-> & _ & Hb).
  cbn [String.append]. destruct b as [|d b]; [reflexivity|].
  cbn [all_chars]. now rewrite Hb.
Qed.

Lemma replace_go_edges_empty (fuel : nat) (prev : option ascii) :
  replace_go fuel edges "" prev "" = "".
Proof. destruct fuel; [reflexivity|]. now destruct prev. Qed.

(** Away from the start only the underscores at the end are deleted. *)
Lemma replace_go_edges_inside (s : string) :
  forall fuel x, (String.length s < fuel)%nat ->
    replace_go fuel edges "" (Some x) s = chop_underscores s.
Proof.
  induction s as [|c s IH]; intros fuel x Hf;
    (destruct fuel as [|f]; [simpl in Hf; lia|]); [reflexivity|].
  cbn [replace_go]. rewrite edges_inside.
  destruct (all_chars is_underscore (String c s)) eqn:Ha; cbn [andb].
  - cbn [String.length Nat.leb rest before Nat.ltb String.append].
    rewrite (proj2 (chop_empty (String c s)) Ha).
    apply replace_go_edges_empty.
  - rewrite (chop_cons c s Ha). f_equal. apply IH.
    cbn [String.length] in Hf. lia.
Qed.

Lemma drop_run (a b : string) :
  all_chars is_underscore a = true ->
  match b with String c _ => is_underscore c = false | EmptyString => True end ->
  drop_underscores (a ++ b) = b.
Proof.
  intros Ha Hb. induction a as [|c a IH]; cbn [String.append drop_underscores].
  - destruct b as [|d b]; [reflexivity|]. cbn [drop_underscores]. now rewrite Hb.
  - cbn [all_chars] in Ha. apply andb_true_iff in Ha as [-> Ha]. auto.
Qed.

Lemma replace_g_edges (s : string) :
  replace_g edges "" s = chop_underscores (drop_underscores s).
Proof.
  unfold replace_g. destruct s as [|c s]; [reflexivity|].
  cbn [replace_go]. rewrite edges_front.
  pose proof (span_spec is_underscore (String c s)) as Hs.
  destruct (span is_underscore (String c s)) as [[|d a] b] eqn:Esp.
  - destruct Hs as (E & _ & Hb). cbn [String.append] in E. subst b.
    cbn [drop_underscores]. rewrite Hb.
    assert (Ha : all_chars is_underscore (String c s) = false)
      by (cbn [all_chars]; now rewrite Hb).
    rewrite (chop_cons c s Ha). f_equal.
    apply replace_go_edges_inside. cbn [String.length]. lia.
  - destruct Hs as (E & Ha & Hb). rewrite E.
    rewrite (drop_run (String d a) b Ha Hb).
    cbn [rest before String.append].
    match goal with
    | |- context [(?x <? ?y)%nat] =>
        replace (x <? y)%nat with true
          by (symmetry; apply Nat.ltb_lt; cbn [String.length];
              rewrite ?length_append; cbn [String.length]; lia)
    end.
    assert (Hx : exists x, last_char a (Some d) = Some x).
    { clear. revert d. induction a as [|e a IH]; intros d; cbn [last_char]; eauto. }
    destruct Hx as [x ->].
    apply replace_go_edges_inside. cbn [String.length].
    rewrite ?length_append. cbn [String.length]. lia.
Qed.

(** [normalizeHeader] through plain functions on text. *)
Lemma normalizeHeader_unfold (key : string) :
  normalizeHeader key =
    chop_underscores
      (drop_underscores
         (squeeze not_lower_alnum false (trim (toLowerCase (stripBom key))))).
Proof.
  unfold normalizeHeader. fold edges. now rewrite replace_g_plus, replace_g_edges.
Qed.

(** *** The shape of a normalised name *)

Lemma kept_char (c : ascii) :
  not_lower_alnum c = false -> key_char c = true /\ is_underscore c = false.
Proof.
  unfold not_lower_alnum, key_char, is_underscore. intros H.
  apply negb_false_iff in H. rewrite H. split; [reflexivity|].
  rewrite eqb_code. apply Nat.eqb_neq. change (code "_") with 95%nat.
  unfold is_lower, is_digit in H. rewrite orb_true_iff, !between_true in H. lia.
Qed.

Lemma squeeze_shape (t : string) :
  (all_chars key_char (squeeze not_lower_alnum true t) = true /\
   isolated (squeeze not_lower_alnum true t) = true /\
   starts_with_underscore (squeeze not_lower_alnum true t) = false) /\
  (all_chars key_char (squeeze not_lower_alnum false t) = true /\
   isolated (squeeze not_lower_alnum false t) = true).
Proof.
  induction t as [|c t ((Ha & Hi & Hs) & (Ha' & Hi'))]; [cbn; auto|].
  cbn [squeeze]. destruct (not_lower_alnum c) eqn:Hc.
  - split; [auto|]. cbn [all_chars isolated]. rewrite Ha, Hi, Hs.
    split; reflexivity.
  - destruct (kept_char c Hc) as [Hk Hu].
    cbn [all_chars isolated starts_with_underscore]. rewrite Hk, Hu, Ha', Hi'.
    repeat split; reflexivity.
Qed.

Lemma drop_shape (s : string) :
  all_chars key_char s = true -> isolated s = true ->
  all_chars key_char (drop_underscores s) = true /\
  isolated (drop_underscores s) = true /\
  starts_with_underscore (drop_underscores s) = false.
Proof.
  induction s as [|c s IH]; [cbn; auto|].
  cbn [all_chars isolated drop_underscores]. rewrite !andb_true_iff.
  intros [Hk Ha] [Hn Hi]. destruct (is_underscore c) eqn:Hu; [auto|].
  cbn [all_chars isolated starts_with_underscore]. rewrite Hk, Ha, Hu, Hi.
  repeat split; reflexivity.
Qed.

Lemma chop_start (s : string) :
  starts_with_underscore s = false ->
  starts_with_underscore (chop_underscores s) = false.
Proof.
  destruct s as [|c s]; [reflexivity|]. cbn [starts_with_underscore chop_underscores].
  intros Hc. destruct (chop_underscores s); [|exact Hc].
  rewrite Hc. exact Hc.
Qed.

Lemma chop_shape (s : string) :
  all_chars key_char s = true -> isolated s = true ->
  all_chars key_char (chop_underscores s) = true /\
  isolated (chop_underscores s) = true /\
  ends_with_underscore (chop_underscores s) = false /\
  (starts_with_underscore (chop_underscores s) = true ->
   starts_with_underscore s = true).
Proof.
  induction s as [|c s IH]; [cbn; auto|].
  cbn [all_chars isolated]. rewrite !andb_true_iff.
  intros [Hk Ha] [Hn Hi]. destruct (IH Ha Hi) as (Ha' & Hi' & He' & Hs').
  cbn [chop_underscores]. destruct (chop_underscores s) as [|d t] eqn:E.
  - destruct (is_underscore c) eqn:Hu; cbn; rewrite ?Hk, ?Hu; auto.
  - assert (Hcd : negb (is_underscore c && is_underscore d) = true).
    { apply negb_true_iff. apply negb_true_iff in Hn.
      destruct (is_underscore c); [|reflexivity]. cbn [andb] in Hn |- *.
      destruct (is_underscore d) eqn:Hd; [|reflexivity].
      cbn [starts_with_underscore] in Hs'. rewrite (Hs' Hd) in Hn.
      discriminate. }
    split; [change (key_char c && all_chars key_char (String d t) = true);
            now rewrite Hk, Ha'|].
    split; [change (negb (is_underscore c && is_underscore d)
                    && isolated (String d t) = true); now rewrite Hcd, Hi'|].
    split; [exact He'|].
    cbn [starts_with_underscore]. intros Hu. exact Hu.
Qed.

Lemma normalized_is_canonical (key : string) :
  canonical_key (normalizeHeader key) = true.
Proof.
  rewrite normalizeHeader_unfold.
  set (t := trim (toLowerCase (stripBom key))).
  destruct (squeeze_shape t) as (_ & Ha & Hi).
  destruct (drop_shape _ Ha Hi) as (Ha1 & Hi1 & Hs1).
  destruct (chop_shape _ Ha1 Hi1) as (Ha2 & Hi2 & He2 & _).
  unfold canonical_key. rewrite Ha2, Hi2, He2, (chop_start _ Hs1). reflexivity.
Qed.

(** *** Canonical names are left alone *)

Lemma key_char_cases (c : ascii) :
  key_char c = true ->
  (not_lower_alnum c = false /\ is_underscore c = false) \/
  (not_lower_alnum c = true /\ c = "_"%char).
Proof.
  unfold key_char. intros H. destruct (not_lower_alnum c) eqn:Hn.
  - right. split; [reflexivity|]. unfold not_lower_alnum in Hn.
    apply negb_true_iff in Hn. rewrite Hn in H. cbn [orb] in H.
    unfold is_underscore in H. now apply Ascii.eqb_eq in H.
  - left. split; [reflexivity|]. now apply kept_char.
Qed.

Lemma key_char_plain (c : ascii) :
  key_char c = true ->
  is_upper c = false /\ is_space c = false /\ Ascii.eqb (ascii_of_nat 239) c = false.
Proof.
  unfold key_char, is_underscore, is_upper, is_space, is_lower, is_digit.
  rewrite !orb_true_iff, !between_true, !eqb_code.
  change (code "_") with 95%nat.
  rewrite (code_ascii_of_nat 239) by lia. rewrite Nat.eqb_eq. intros H.
  repeat split.
  - apply not_true_iff_false. rewrite between_true. lia.
  - apply orb_false_iff. split; [|apply Nat.eqb_neq; lia].
    apply not_true_iff_false. rewrite between_true. lia.
  - apply Nat.eqb_neq. lia.
Qed.

Lemma lower_key (k : string) :
  all_chars key_char k = true -> toLowerCase k = k.
Proof.
  unfold toLowerCase. induction k as [|c k IH]; [reflexivity|].
  cbn [all_chars map_chars]. rewrite andb_true_iff. intros [Hc Hk].
  rewrite (IH Hk). unfold lower_char.
  destruct (key_char_plain c Hc) as (-> & _). reflexivity.
Qed.

Lemma trim_key (k : string) : all_chars key_char k = true -> trim k = k.
Proof.
  intros H. apply trim_id. eapply all_chars_impl; [|exact H].
  intros c Hc. cbv beta. destruct (key_char_plain c Hc) as (_ & -> & _).
  reflexivity.
Qed.

Lemma stripBom_key (k : string) : all_chars key_char k = true -> stripBom k = k.
Proof.
  unfold stripBom, bom. destruct k as [|c k]; [reflexivity|].
  cbn [all_chars startsWith]. rewrite andb_true_iff. intros [Hc _].
  destruct (key_char_plain c Hc) as (_ & _ & ->). reflexivity.
Qed.

Lemma squeeze_key (k : string) :
  all_chars key_char k = true -> isolated k = true ->
  squeeze not_lower_alnum false k = k /\
  (starts_with_underscore k = false -> squeeze not_lower_alnum true k = k).
Proof.
  induction k as [|c k IH]; [cbn; auto|].
  cbn [all_chars isolated]. rewrite !andb_true_iff.
  intros [Hc Hk] [Hn Hi]. destruct (IH Hk Hi) as [IH1 IH2].
  cbn [squeeze starts_with_underscore].
  destruct (key_char_cases c Hc) as [[Hp Hu] | [Hp ->]]; rewrite Hp.
  - rewrite IH1. auto.
  - split; [|discriminate].
    cbn [is_underscore andb] in Hn. unfold is_underscore in Hn.
    rewrite Ascii.eqb_refl in Hn. cbn [andb] in Hn.
    apply negb_true_iff in Hn. now rewrite (IH2 Hn).
Qed.

Lemma drop_key (k : string) :
  starts_with_underscore k = false -> drop_underscores k = k.
Proof. destruct k as [|c k]; [reflexivity|]. cbn. now intros ->. Qed.

Lemma chop_key (k : string) :
  ends_with_underscore k = false -> chop_underscores k = k.
Proof.
  induction k as [|c k IH]; [reflexivity|].
  cbn [ends_with_underscore chop_underscores]. destruct k as [|d k].
  - cbn. now intros ->.
  - intros H. rewrite (IH H). reflexivity.
Qed.

Lemma canonical_is_fixed (k : string) :
  canonical_key k = true -> normalizeHeader k = k.
Proof.
  unfold canonical_key. rewrite !andb_true_iff, !negb_true_iff.
  intros (((Ha & Hs) & He) & Hi).
  rewrite normalizeHeader_unfold, (stripBom_key k Ha), (lower_key k Ha),
    (trim_key k Ha).
  rewrite (proj1 (squeeze_key k Ha Hi)), (drop_key k Hs). now apply chop_key.
Qed.

End HeaderFacts.

Module HeaderProperties.
Import JsString Csv Extract HeaderShape HeaderFacts.

(** Property X23.  [normalizeHeader] puts every header name in one form:
    lower-case letters and digits in groups joined by single underscores,
    with no underscore in front or at the end; a name already in that form
    is returned as it is.  So normalising twice is the same as normalising
    once, and two headers are matched with the same alias exactly when
    their normal forms are equal. *)
Theorem header_names_are_canonical (key : string) :
  canonical_key (normalizeHeader key) = true /\
  (canonical_key key = true -> normalizeHeader key = key) /\
  normalizeHeader (normalizeHeader key) = normalizeHeader key.
Proof.
  split; [apply normalized_is_canonical|]. split; [apply canonical_is_fixed|].
  apply canonical_is_fixed, normalized_is_canonical.
Qed.

Lemma header_names_are_canonical_witness :
  normalizeHeader " Trade  Price ($) " = "trade_price" /\
  normalizeHeader "trade_price" = "trade_price".
Proof.
  split; [reflexivity|].
  exact (proj1 (proj2 (header_names_are_canonical "trade_price")) eq_refl).
Defined.

End HeaderProperties.

(** ** Resetting the portfolio *)

Module ResetFacts.
Import JsString JsStringFacts JsNum JsNumFacts Regex ImportFlow Legs.
Import Csv CsvWriter AmountFacts DisplayFacts Reset.

Lemma strip_leaves_digits (p q : ascii -> bool) (t : string) :
  (forall c, q c = true -> p c = false -> is_digit c = true) ->
  all_chars q t = true -> all_chars is_digit (strip p t) = true.
Proof.
  intros Hq. induction t as [|c t IH]; cbn [all_chars strip]; [reflexivity|].
  rewrite andb_true_iff. intros [Hc Ht].
  destruct (p c) eqn:Hp; [auto|]. cbn [all_chars].
  now rewrite (Hq c Hc Hp), IH.
Qed.

Lemma reset_char_digit (c : ascii) :
  reset_char c = true -> is_reset_mark c = false -> is_digit c = true.
Proof. unfold reset_char. intros H Hm. now rewrite Hm, orb_false_r in H. Qed.

Lemma reset_char_not_space (c : ascii) : reset_char c = true -> is_space c = false.
Proof.
  unfold reset_char, is_reset_mark. rewrite !orb_true_iff.
  intros [H|[[[H|H]|H]|H]].
  - now destruct (digit_facts c H).
  - apply Ascii.eqb_eq in H. now subst.
  - apply Ascii.eqb_eq in H. now subst.
  - apply Ascii.eqb_eq in H. now subst.
  - apply Ascii.eqb_eq in H. now subst.
Qed.

Lemma le_zero_positive (v : Z) : (0 < v)%Z -> le (Fin (inject_Z v)) (Fin 0) = false.
Proof.
  intros Hv. cbn [le lt]. apply negb_false_iff, Qltb_lt.
  change 0%Q with (inject_Z 0). rewrite <- Zlt_Qlt. exact Hv.
Qed.

(** What [resetPortfolio] adds to the log. *)
Lemma reset_sends (respond : list reset_effect -> reset_effect -> response)
    (st : reset_state) :
  reset_log (resetPortfolio respond st) = reset_log st \/
  exists v tail,
    reset_log (resetPortfolio respond st) = (reset_log st ++ PostReset v :: tail)%list /\
    v = Number (strip is_reset_mark (resetCash st)) /\
    isFinite v = true /\ gt v (Fin 0) = true /\
    (tail = [] \/ tail = [ResetRefreshAll; ResetFetchNav]).
Proof.
  unfold resetPortfolio. destruct (String.eqb _ ""); [now left|]. cbv zeta.
  rewrite replace_g_cls.
  set (v := Number (strip is_reset_mark (resetCash st))).
  destruct (negb (isFinite v) || le v (Fin 0)) eqn:Hg; [now left|].
  apply orb_false_iff in Hg as [Hf Hle]. apply negb_false_iff in Hf.
  assert (Hpos : gt v (Fin 0) = true).
  { destruct v as [| | q]; try discriminate. cbn in Hle |- *.
    now apply negb_false_iff in Hle. }
  right. exists v.
  destruct (respond (reset_log st) (PostReset v));
    cbn [reset_notify reset_emit reset_log]; eexists;
    (split; [rewrite <- ?app_assoc; cbn [app]; reflexivity|]); auto.
Qed.

Lemma span_digits_then (a : string) (c : ascii) (b : string) :
  all_chars is_digit a = true -> is_digit c = false ->
  span is_digit (a ++ String c b) = (a, String c b).
Proof.
  intros Ha Hc. induction a as [|d a IH]; cbn [String.append span].
  - now rewrite Hc.
  - cbn [all_chars] in Ha. apply andb_true_iff in Ha as [-> Ha].
    now rewrite (IH Ha).
Qed.

Lemma spaced_digits_trim (a b : string) :
  a <> "" -> all_chars is_digit a = true ->
  b <> "" -> all_chars is_digit b = true ->
  trim (a ++ String " " b) = a ++ String " " b.
Proof.
  intros Hane Ha Hbne Hb.
  destruct a as [|a1 a]; [congruence|]. cbn [all_chars] in Ha.
  apply andb_true_iff in Ha as [Ha1 Ha].
  assert (Hs : trimStart (String a1 a ++ String " " b) = String a1 a ++ String " " b).
  { cbn [String.append trimStart].
    now destruct (digit_facts a1 Ha1) as (-> & _). }
  unfold trim. rewrite Hs. clear Hs.
  assert (Hend : trimEnd b = b).
  { apply trimEnd_id. eapply all_chars_impl; [|exact Hb].
    intros c Hc. cbv beta. now destruct (digit_facts c Hc) as (-> & _). }
  assert (Hgen : forall s, trimEnd (s ++ String " " b) = s ++ String " " b).
  { induction s as [|c s IHs]; cbn [String.append trimEnd].
    - rewrite Hend. destruct b; [congruence | reflexivity].
    - rewrite IHs. destruct s; reflexivity. }
  apply (Hgen (String a1 a)).
Qed.

(** Digits, a blank, digits: not a number. *)
Lemma spaced_digits_NaN (a b : string) :
  a <> "" -> all_chars is_digit a = true ->
  b <> "" -> all_chars is_digit b = true ->
  Number (a ++ String " " b) = NaN.
Proof.
  intros Hane Ha Hbne Hb.
  pose proof (spaced_digits_trim a b Hane Ha Hbne Hb) as Htrim.
  destruct a as [|a1 a]; [congruence|]. cbn [all_chars] in Ha.
  apply andb_true_iff in Ha as [Ha1 Ha].
  unfold Number. rewrite Htrim. cbn [String.append JsString.truthy negb].
  assert (Hrad : radix_prefix (String a1 (a ++ String " " b)) = None).
  { unfold radix_prefix. destruct a as [|a2 a]; cbn [String.append].
    - destruct (Ascii.eqb a1 "0" && JsString.truthy b); reflexivity.
    - cbn [all_chars] in Ha. apply andb_true_iff in Ha as [Ha2 _].
      destruct (Ascii.eqb a1 "0" && _); [|reflexivity].
      unfold radix_of.
      assert (Hx : forall x, is_digit x = false -> Ascii.eqb a2 x = false).
      { intros x Hx. destruct (Ascii.eqb_spec a2 x); [congruence | reflexivity]. }
      rewrite !Hx by reflexivity. reflexivity. }
  rewrite Hrad. unfold parse_signed_decimal, split_sign.
  assert (Hx : forall x, is_digit x = false -> Ascii.eqb a1 x = false).
  { intros x Hx. destruct (Ascii.eqb_spec a1 x); [congruence | reflexivity]. }
  rewrite !Hx by reflexivity.
  replace (String.eqb (String a1 (a ++ String " " b)) "Infinity") with false.
  2:{ symmetry. apply String.eqb_neq. intros E. injection E as E1 _.
      subst a1. discriminate Ha1. }
  unfold parse_unsigned_decimal.
  change (String a1 (a ++ String " " b)) with (String a1 a ++ String " " b).
  rewrite (span_digits_then (String a1 a) " " b); [|cbn; now rewrite Ha1, Ha | reflexivity].
  cbn. reflexivity.
Qed.

Section Reading.
Variable respond : list reset_effect -> reset_effect -> response.

(** Digits with the deleted characters among them are read as the digits. *)
Lemma reset_reads (st : reset_state) :
  all_chars reset_char (resetCash st) = true ->
  strip is_reset_mark (resetCash st) <> "" ->
  (0 < digits_value 0 (strip is_reset_mark (resetCash st)) < 2 ^ 53)%Z ->
  exists tail,
    reset_log (resetPortfolio respond st)
      = (reset_log st
           ++ PostReset (Fin (inject_Z (digits_value 0
                                          (strip is_reset_mark (resetCash st)))))
           :: tail)%list.
Proof.
  intros Hc Hd Hv. set (t := resetCash st) in *.
  assert (Htrim : trim t = t).
  { apply trim_id. eapply all_chars_impl; [|exact Hc].
    intros c Hcc. cbv beta. now rewrite (reset_char_not_space c Hcc). }
  assert (Hne : t <> "") by (intros E; rewrite E in Hd; now apply Hd).
  assert (Hnum : Number (strip is_reset_mark t)
                 = Fin (inject_Z (digits_value 0 (strip is_reset_mark t)))).
  { rewrite Number_digits;
      [| exact Hd | exact (strip_leaves_digits _ _ t reset_char_digit Hc)].
    apply of_Z_exact. lia. }
  unfold resetPortfolio. fold t. rewrite Htrim.
  replace (String.eqb t "") with false
    by (symmetry; now apply String.eqb_neq).
  cbv zeta. rewrite replace_g_cls, Hnum.
  rewrite le_zero_positive by lia. cbn [isFinite negb orb].
  destruct (respond _ _); cbn [reset_notify reset_emit reset_log];
    eexists; rewrite <- ?app_assoc; cbn [app]; reflexivity.
Qed.

(** White space between the digits is not deleted. *)
Lemma reset_refuses_spaces (st : reset_state) (a b : string) :
  a <> "" -> all_chars is_digit a = true ->
  b <> "" -> all_chars is_digit b = true ->
  resetCash st = a ++ String " " b ->
  reset_log (resetPortfolio respond st) = reset_log st /\
  reset_toast (resetPortfolio respond st) = "Reset cash must be > 0.".
Proof.
  intros Hane Ha Hbne Hb E. unfold resetPortfolio. rewrite E.
  rewrite (spaced_digits_trim a b Hane Ha Hbne Hb).
  replace (String.eqb (a ++ String " " b) "") with false
    by (symmetry; apply String.eqb_neq; destruct a; discriminate).
  cbv zeta. rewrite replace_g_cls.
  rewrite strip_none.
  - rewrite (spaced_digits_NaN a b Hane Ha Hbne Hb). split; reflexivity.
  - rewrite all_chars_append. cbn [all_chars].
    assert (Hd : forall s, all_chars is_digit s = true ->
              all_chars (fun c => negb (is_reset_mark c)) s = true).
    { intros s Hs. eapply all_chars_impl; [|exact Hs].
      intros c Hcd. cbv beta. unfold is_reset_mark.
      assert (Hx : forall x, is_digit x = false -> Ascii.eqb c x = false).
      { intros x Hx. destruct (Ascii.eqb_spec c x); [congruence | reflexivity]. }
      rewrite !Hx by reflexivity. reflexivity. }
    now rewrite (Hd a Ha), (Hd b Hb).
Qed.

End Reading.

End ResetFacts.

Module ResetProperties.
Import JsString JsNum ImportFlow Csv CsvWriter Reset ResetFacts Samples.

(** Property X24.  [resetPortfolio] never asks for a reset with a cash
    value that is not a finite number above zero, and asks at most once:
    its request, when there is one, carries the number read from the input
    once every dollar sign, comma, backslash and letter s has been deleted,
    and is followed by the two refreshes or by nothing.  Digits with such
    characters among them are read as the digits alone.  White space is not
    among the deleted characters: digits, a blank, digits is refused with
    "Reset cash must be > 0." and nothing is sent. *)
Theorem reset_cash_reading
    (respond : list reset_effect -> reset_effect -> response)
    (st : reset_state) :
  (reset_log (resetPortfolio respond st) = reset_log st \/
   exists v tail,
     reset_log (resetPortfolio respond st)
       = (reset_log st ++ PostReset v :: tail)%list /\
     v = Number (strip is_reset_mark (resetCash st)) /\
     isFinite v = true /\ gt v (Fin 0) = true /\
     (tail = [] \/ tail = [ResetRefreshAll; ResetFetchNav])) /\
  (all_chars reset_char (resetCash st) = true ->
   strip is_reset_mark (resetCash st) <> "" ->
   (0 < digits_value 0 (strip is_reset_mark (resetCash st)) < 2 ^ 53)%Z ->
   exists tail,
     reset_log (resetPortfolio respond st)
       = (reset_log st
            ++ PostReset (Fin (inject_Z (digits_value 0
                                           (strip is_reset_mark (resetCash st)))))
            :: tail)%list) /\
  (forall a b,
     a <> "" -> all_chars is_digit a = true ->
     b <> "" -> all_chars is_digit b = true ->
     resetCash st = a ++ String " " b ->
     reset_log (resetPortfolio respond st) = reset_log st /\
     reset_toast (resetPortfolio respond st) = "Reset cash must be > 0.").
Proof.
  split; [apply reset_sends|]. split; [apply reset_reads|].
  intros a b. apply reset_refuses_spaces.
Qed.

Lemma reset_cash_reading_witness :
  (exists tail,
     reset_log (resetPortfolio (fun _ _ => Rejected (ApiError None None))
                  (ResetState "$1s0,000" "" []))
       = PostReset (Fin 10000) :: tail) /\
  reset_log (resetPortfolio (fun _ _ => Rejected (ApiError None None))
               (ResetState "10 000" "" [])) = [].
Proof.
  split.
  - exact (proj1 (proj2 (reset_cash_reading
      (fun _ _ => Rejected (ApiError None None)) (ResetState "$1s0,000" "" [])))
      eq_refl ltac:(discriminate) ltac:(split; reflexivity)).
  - exact (proj1 (proj2 (proj2 (reset_cash_reading
      (fun _ _ => Rejected (ApiError None None)) (ResetState "10 000" "" [])))
      "10" "000" ltac:(discriminate) eq_refl ltac:(discriminate) eq_refl eq_refl)).
Defined.

End ResetProperties.

(** ** The date field of a symbol *)

Module DateFieldFacts.
Import JsString JsStringFacts JsNum Codec CodecFacts Shapes LegFacts.

Lemma compact_iso_date (c1 c2 y1 y2 m1 m2 d1 d2 : ascii) :
  all_chars is_digit
    (String c1 (String c2 (String y1 (String y2
      (String m1 (String m2 (String d1 (String d2 "")))))))) = true ->
  compact_date (iso_date c1 c2 y1 y2 m1 m2 d1 d2) = six y1 y2 m1 m2 d1 d2.
Proof.
  intros Hd. unfold compact_date. rewrite trim_iso_date by exact Hd.
  cbn [all_chars] in Hd. rewrite !andb_true_iff in Hd.
  destruct Hd as (Hc1 & Hc2 & Hy1 & Hy2 & Hm1 & Hm2 & Hd1 & Hd2 & _).
  assert (Hne : forall c, is_digit c = true -> Ascii.eqb "-" c = false).
  { intros c Hc. rewrite eqb_code. apply Nat.eqb_neq.
    unfold is_digit in Hc. rewrite between_true in Hc.
    change (code "-") with 45%nat. lia. }
  unfold replaceAll, iso_date, six.
  cbn [String.length replaceAll_go startsWith drop String.append].
  rewrite ?(Hne c1 Hc1), ?(Hne c2 Hc2), ?(Hne y1 Hy1), ?(Hne y2 Hy2).
  cbn [andb String.length replaceAll_go startsWith drop String.append].
  rewrite ?Ascii.eqb_refl.
  cbn [andb String.length replaceAll_go startsWith drop String.append].
  rewrite ?(Hne m1 Hm1), ?(Hne m2 Hm2).
  cbn [andb String.length replaceAll_go startsWith drop String.append].
  rewrite ?Ascii.eqb_refl.
  cbn [andb String.length replaceAll_go startsWith drop String.append].
  rewrite ?(Hne d1 Hd1), ?(Hne d2 Hd2).
  cbn [andb String.length replaceAll_go startsWith drop String.append slice_from].
  reflexivity.
Qed.

(** The expiry enters the symbol through its compact form only. *)
Lemma build_reads_compact (u e e' r : string) (s : number) :
  trim e <> "" -> trim e' <> "" -> compact_date e = compact_date e' ->
  buildOsiSymbol u e r s = buildOsiSymbol u e' r s.
Proof.
  intros He He' Hc. unfold buildOsiSymbol, compact_date in *.
  rewrite !or_else_empty.
  assert (Ht : JsString.truthy (trim e) = true)
    by (destruct (trim e) eqn:E; [congruence | reflexivity]).
  assert (Ht' : JsString.truthy (trim e') = true)
    by (destruct (trim e') eqn:E; [congruence | reflexivity]).
  rewrite Ht, Ht', Hc. reflexivity.
Qed.

End DateFieldFacts.

Module DateFieldProperties.
Import JsString JsNum Codec CodecFacts Shapes LegFacts DateFieldFacts.

(** Property X25.  [buildOsiSymbol] reads the expiry only through what is
    left of it once the blanks around it, its dashes and then its first two
    characters are removed: two expiries that agree on that give the same
    symbol.  In particular the century is not encoded: for any digits,
    [CCYY-MM-DD] gives the symbol of [20YY-MM-DD], whatever [CC] is. *)
Theorem century_is_not_encoded (u r : string) (s : number) :
  (forall e e',
     trim e <> "" -> trim e' <> "" -> compact_date e = compact_date e' ->
     buildOsiSymbol u e r s = buildOsiSymbol u e' r s) /\
  (forall c1 c2 y1 y2 m1 m2 d1 d2,
     all_chars is_digit
       (String c1 (String c2 (String y1 (String y2
         (String m1 (String m2 (String d1 (String d2 "")))))))) = true ->
     buildOsiSymbol u (iso_date c1 c2 y1 y2 m1 m2 d1 d2) r s
       = buildOsiSymbol u (iso_date "2" "0" y1 y2 m1 m2 d1 d2) r s).
Proof.
  split; [intros e e'; apply build_reads_compact|].
  intros c1 c2 y1 y2 m1 m2 d1 d2 Hd.
  assert (Hd' : all_chars is_digit
            (String "2" (String "0" (String y1 (String y2
              (String m1 (String m2 (String d1 (String d2 "")))))))) = true).
  { cbn [all_chars] in Hd |- *. rewrite !andb_true_iff in Hd.
    destruct Hd as (_ & _ & Hy1 & Hy2 & Hm1 & Hm2 & Hd1 & Hd2 & _).
    now rewrite Hy1, Hy2, Hm1, Hm2, Hd1, Hd2. }
  apply build_reads_compact.
  - rewrite trim_iso_date by exact Hd. discriminate.
  - rewrite trim_iso_date by exact Hd'. discriminate.
  - now rewrite !compact_iso_date.
Qed.

Lemma century_is_not_encoded_witness :
  buildOsiSymbol "AAPL" "1926-01-17" "C" (Fin 150)
    = buildOsiSymbol "AAPL" "2026-01-17" "C" (Fin 150) /\
  parseOsiSymbol (buildOsiSymbol "AAPL" "1926-01-17" "C" (Fin 150))
    = Some (Osi "AAPL" "2026-01-17" "CALL" (Fin 150)).
Proof.
  split; [|reflexivity].
  exact (proj2 (century_is_not_encoded "AAPL" "C" (Fin 150))
           "1"%char "9"%char "2"%char "6"%char "0"%char "1"%char "1"%char "7"%char
           eq_refl).
Defined.

End DateFieldProperties.
